(** * Tag-driven resize and start/stop handlers: a shallow embedding

    Two Python handlers are embedded here:
    - [Resize]    : src/lambda_function/non-prod-lambda.py
    - [StartStop] : src/lambda_function/non-prod-lambda1.py

    Calls to the cloud APIs are answered by an explicit oracle record and
    recorded in a trace held in the state, so that "which calls were issued"
    is a property of the final state. *)

From Stdlib Require Import String Ascii List Arith Lia Bool.
From Stdlib Require Import DecimalString Decimal.
From stdpp Require Import base option list strings gmap.

Open Scope string_scope.

(** ** Python string operations used by the handlers

    Strings are modelled with code points in the 8-bit range.  [str.strip()]
    removes leading and trailing white space ([str.isspace]); [str.lower()]
    maps [A-Z] to [a-z] and the upper-case letters 0xc0-0xde (0xd7, the
    multiplication sign, apart) to the letters 0x20 above them. *)

Module Py.

(** [str.isspace] on one character: TAB, LF, VT, FF, CR, the four
    separators 0x1c-0x1f, the space, NEL (0x85) and the no-break space
    (0xa0). *)
Definition isspace (c : ascii) : bool :=
  let n := nat_of_ascii c in
  (Nat.leb 9 n && Nat.leb n 13) || (Nat.leb 28 n && Nat.leb n 31) || Nat.eqb n 32
  || Nat.eqb n 133 || Nat.eqb n 160.

Fixpoint lstrip (s : string) : string :=
  match s with
  | EmptyString => EmptyString
  | String c s' => if isspace c then lstrip s' else s
  end.

(** [rstrip] drops a character when it is white space and everything to its
    right has been dropped too. *)
Fixpoint rstrip (s : string) : string :=
  match s with
  | EmptyString => EmptyString
  | String c s' =>
      match rstrip s' with
      | EmptyString => if isspace c then EmptyString else String c EmptyString
      | r => String c r
      end
  end.

Definition strip (s : string) : string := rstrip (lstrip s).

Definition lower_char (c : ascii) : ascii :=
  let n := nat_of_ascii c in
  if (Nat.leb 65 n && Nat.leb n 90)
     || (Nat.leb 192 n && Nat.leb n 222 && negb (Nat.eqb n 215))
  then ascii_of_nat (n + 32) else c.

Fixpoint lower (s : string) : string :=
  match s with
  | EmptyString => EmptyString
  | String c s' => String (lower_char c) (lower s')
  end.

(** [str(v)] for the values a tag mapping can hold: a string or [None]. *)
Definition str_opt (v : option string) : string :=
  match v with
  | Some s => s
  | None => "None"
  end.

(** Python truthiness of a string. *)
Definition truthy (s : string) : bool :=
  match s with
  | EmptyString => false
  | _ => true
  end.

(** [str(n)] for a non-negative integer. *)
Definition str_nat (n : nat) : string := NilEmpty.string_of_uint (Nat.to_uint n).

(** [sep.join(l)]. *)
Fixpoint join (sep : string) (l : list string) : string :=
  match l with
  | [] => ""
  | [x] => x
  | x :: rest => x +:+ sep +:+ join sep rest
  end.

Definition nl : string := String (ascii_of_nat 10) EmptyString.
Definition dquote : string := String (ascii_of_nat 34) EmptyString.
Definition squote : string := String (ascii_of_nat 39) EmptyString.

End Py.

(** ** Exceptions

    The handlers distinguish [botocore.exceptions.ClientError] from other
    exceptions, and [except Exception] does not catch what derives from
    [BaseException] only. *)

Inductive exn_class :=
  | ClientError
  | OtherException
  | TypeError
  | UnboundLocalError
  | IndexError
  | BaseOnly.

Record exn := MkExn { exn_cls : exn_class; exn_msg : string }.

Definition is_ClientError (e : exn) : bool :=
  match exn_cls e with ClientError => true | _ => false end.

Definition is_Exception (e : exn) : bool :=
  match exn_cls e with BaseOnly => false | _ => true end.

(** What an API call answers: a value, or an exception. *)
Inductive outcome (A : Type) :=
  | Returns (a : A)
  | Raises (e : exn).
Arguments Returns {A} a.
Arguments Raises {A} e.

(** ** More of Python's [str]: [repr] and UTF-8 encoding *)

Module PyText.

Definition hex_digit (n : nat) : ascii :=
  if Nat.ltb n 10 then ascii_of_nat (48 + n) else ascii_of_nat (87 + n).

Definition hex2 (n : nat) : string :=
  String (hex_digit (n / 16)) (String (hex_digit (n mod 16)) EmptyString).

Fixpoint contains_char (c : ascii) (s : string) : bool :=
  match s with
  | EmptyString => false
  | String d s' => Ascii.eqb c d || contains_char c s'
  end.

(** One character of [repr(s)], [q] being the quote chosen for the literal. *)
Definition repr_char (q : ascii) (c : ascii) : string :=
  let n := nat_of_ascii c in
  if Ascii.eqb c q then String (ascii_of_nat 92) (String c EmptyString)
  else if Nat.eqb n 92 then String (ascii_of_nat 92) (String (ascii_of_nat 92) EmptyString)
  else if Nat.eqb n 10 then String (ascii_of_nat 92) "n"
  else if Nat.eqb n 13 then String (ascii_of_nat 92) "r"
  else if Nat.eqb n 9 then String (ascii_of_nat 92) "t"
  else if Nat.ltb n 32 || (Nat.leb 127 n && Nat.leb n 160) || Nat.eqb n 173
       then String (ascii_of_nat 92) ("x" +:+ hex2 n)
  else String c EmptyString.

Fixpoint repr_body (q : ascii) (s : string) : string :=
  match s with
  | EmptyString => EmptyString
  | String c s' => repr_char q c +:+ repr_body q s'
  end.

(** [repr(s)]: single quotes, unless [s] has a single quote and no double
    quote. *)
Definition repr_str (s : string) : string :=
  let sq := ascii_of_nat 39 in
  let dq := ascii_of_nat 34 in
  let q := if contains_char sq s && negb (contains_char dq s) then dq else sq in
  String q (repr_body q s +:+ String q EmptyString).

(** [repr] of what [dict.get] gives for a JSON string field. *)
Definition repr_opt (v : option string) : string :=
  match v with
  | None => "None"
  | Some s => repr_str s
  end.

(** [s.encode("utf-8")], the result again a string of 8-bit units. *)
Fixpoint encode_utf8 (s : string) : string :=
  match s with
  | EmptyString => EmptyString
  | String c s' =>
      let n := nat_of_ascii c in
      if Nat.ltb n 128 then String c (encode_utf8 s')
      else String (ascii_of_nat (192 + n / 64))
                  (String (ascii_of_nat (128 + n mod 64)) (encode_utf8 s'))
  end.

End PyText.

(** * The resize handler: src/lambda_function/non-prod-lambda.py *)

Module Resize.

(** ** Inline configuration *)

Definition APPLICATION_NAME : string := "BSQ-FINALYZER-NONPROD".
Definition UPGRADE_TAG_KEY : string := "auto-upgrade".
Definition UPGRADE_INSTANCE_TYPE : string := "r6a.large".
Definition DEGRADE_TAG_KEY : string := "auto-degrade".
Definition DEGRADE_INSTANCE_TYPE : string := "t3a.nano".
Definition S3_LOG_BUCKET : string := "finalyzer-nonprod-lambda-logs".
Definition S3_LOG_KEY_PREFIX : string := "eb_downgrade-upgrade_logs".

(** ** Data *)

(** One entry of [describe_environments()["Environments"]]. *)
Record env_summary := MkEnvSummary {
  EnvironmentName : string;
  EnvironmentArn : string
}.

(** One entry of [list_tags_for_resource()["ResourceTags"]]; both fields are
    read with [dict.get]. *)
Record tag_entry := MkTag {
  tag_Key : option string;
  tag_Value : option string
}.

(** One entry of an ["OptionSettings"] list, read with [dict.get]. *)
Record option_setting := MkOption {
  opt_Namespace : option string;
  opt_OptionName : option string;
  opt_Value : option string
}.

(** The dict appended to [environments_to_process]. *)
Record environment := MkEnv {
  name : string;
  arn : string;
  tags : gmap string (option string);
  current_instance_type : option string
}.

(** The calls the handler can issue, with the arguments it passes. *)
Inductive call :=
  | DescribeEnvironments (application_name : string)
  | ListTagsForResource (resource_arn : string)
  | DescribeConfigurationSettings (application_name env_name : string)
  | UpdateEnvironment (application_name env_name : string)
                      (namespace option_name value : string)
  | PutObject (bucket key body : string).

(** What the outside answers: the Elastic Beanstalk and S3 clients, and the
    clock read in the [finally] block. *)
Record world := MkWorld {
  describe_environments : string -> outcome (list env_summary);
  list_tags_for_resource : string -> outcome (list tag_entry);
  describe_configuration_settings :
    string -> string -> outcome (list (list option_setting));
  update_environment : string -> string -> string -> outcome unit;
  put_object : string -> string -> string -> outcome unit;
  now_date : string;   (* now.strftime('%Y/%m/%d') *)
  now_time : string    (* now.strftime('%H-%M-%S') *)
}.

(** Process state.  [log_lines] is the module-level list; [mem_handlers]
    counts the [MemLogHandler]s attached to the root logger; [calls] is the
    trace of API calls, oldest first. *)
Record state := MkState {
  log_lines : list string;
  mem_handlers : nat;
  calls : list call
}.

Definition initial_state : state := MkState [] 0 [].

(** ** Computations: state passing with exceptions *)

Definition M (A : Type) : Type := state -> outcome A * state.

#[export] Instance M_ret : MRet M := fun A a s => (Returns a, s).
#[export] Instance M_bind : MBind M := fun A B f m s =>
  match m s with
  | (Returns a, s') => f a s'
  | (Raises e, s') => (Raises e, s')
  end.

Definition raise {A} (e : exn) : M A := fun s => (Raises e, s).

(** [try: body / finally: fin]. *)
Definition try_finally {A} (body : M A) (fin : M unit) : M A := fun s =>
  match body s with
  | (r, s1) =>
      match fin s1 with
      | (Returns _, s2) => (r, s2)
      | (Raises e, s2) => (Raises e, s2)
      end
  end.

(** [try: body / except Exception as e: h e]. *)
Definition try_except_Exception {A} (body : M A) (h : exn -> M A) : M A := fun s =>
  match body s with
  | (Raises e, s1) => if is_Exception e then h e s1 else (Raises e, s1)
  | r => r
  end.

Definition record_call (c : call) : M unit := fun s =>
  (Returns tt, MkState (log_lines s) (mem_handlers s) (calls s ++ [c])).

(** [logger.info(msg)] / [logger.error(msg)]: every attached
    [MemLogHandler] appends the formatted record to [log_lines]. *)
Definition log (msg : string) : M unit := fun s =>
  (Returns tt,
   MkState (log_lines s ++ replicate (mem_handlers s) msg) (mem_handlers s) (calls s)).

Definition addHandler : M unit := fun s =>
  (Returns tt, MkState (log_lines s) (S (mem_handlers s)) (calls s)).

Definition removeHandler : M unit := fun s =>
  (Returns tt, MkState (log_lines s) (pred (mem_handlers s)) (calls s)).

Definition get_log_lines : M (list string) := fun s => (Returns (log_lines s), s).

Fixpoint for_each {A} (f : A -> M unit) (l : list A) : M unit :=
  match l with
  | [] => mret tt
  | x :: rest => f x ;; for_each f rest
  end.

(** ** [upload_logs_to_s3] *)

Definition upload_logs_to_s3 (w : world) (bucket key log_data : string)
    (file_description : string) : M unit :=
  record_call (PutObject bucket key log_data) ;;
  match put_object w bucket key log_data with
  | Returns _ =>
      log (file_description +:+ " uploaded to s3://" +:+ bucket +:+ "/" +:+ key)
  | Raises e =>
      if is_ClientError e
      then log ("Failed to upload " +:+ file_description +:+ " to S3: " +:+ exn_msg e)
      else raise e
  end.

(** ** [find_tagged_environments] *)

(** The dict built from ["ResourceTags"]: later entries overwrite earlier
    ones; entries whose key is missing or empty are dropped. *)
Fixpoint build_tags (l : list tag_entry) (acc : gmap string (option string))
    : gmap string (option string) :=
  match l with
  | [] => acc
  | t :: rest =>
      match tag_Key t with
      | Some k => if Py.truthy k then build_tags rest (<[k := tag_Value t]> acc)
                  else build_tags rest acc
      | None => build_tags rest acc
      end
  end.

(** [str(tags.get(key, "")).strip().lower() == "true"]. *)
Definition tag_is_true (tags : gmap string (option string)) (key : string) : bool :=
  let v := match tags !! key with
           | Some v => v
           | None => Some ""
           end in
  String.eqb (Py.lower (Py.strip (Py.str_opt v))) "true".

(** [if key:] on an optional keyword argument. *)
Definition key_supplied (k : option string) : bool :=
  match k with
  | Some s => Py.truthy s
  | None => false
  end.

Definition has_true (tags : gmap string (option string)) (k : option string) : bool :=
  match k with
  | Some s => if Py.truthy s then tag_is_true tags s else false
  | None => false
  end.

Definition is_instance_type_option (o : option_setting) : bool :=
  match opt_Namespace o, opt_OptionName o with
  | Some ns, Some on =>
      String.eqb ns "aws:autoscaling:launchconfiguration" && String.eqb on "InstanceType"
  | _, _ => false
  end.

(** The inner [for option in ...] with its [break]: the first matching
    option of one setting. *)
Fixpoint first_instance_type (opts : list option_setting) : option (option string) :=
  match opts with
  | [] => None
  | o :: rest =>
      if is_instance_type_option o then Some (opt_Value o)
      else first_instance_type rest
  end.

(** The outer [for setting in ...]: the [break] leaves the inner loop only,
    so a later setting that has the option overwrites the value. *)
Fixpoint scan_settings (settings : list (list option_setting))
    (current : option string) : option string :=
  match settings with
  | [] => current
  | opts :: rest =>
      match first_instance_type opts with
      | Some v => scan_settings rest v
      | None => scan_settings rest current
      end
  end.

(** Step (3) of the loop body, with its own [try]. *)
Definition fetch_current_instance_type (w : world) (application_name env_name : string)
    : M (option string) :=
  record_call (DescribeConfigurationSettings application_name env_name) ;;
  match describe_configuration_settings w application_name env_name with
  | Returns settings => mret (scan_settings settings None)
  | Raises e =>
      if is_ClientError e then
        log ("AWS Client Error getting instance type for " +:+ env_name +:+ ": "
             +:+ exn_msg e) ;;
        mret None
      else if is_Exception e then
        log ("Couldn't fetch instance type for " +:+ env_name +:+ ": " +:+ exn_msg e) ;;
        mret None
      else raise e
  end.

(** The [for environment in ...] loop.  [environments_to_process] is a local
    that outlives an exception raised in the loop, so it is returned next to
    the outcome. *)
Fixpoint scan_loop (w : world) (application_name : string)
    (upgrade_tag_key degrade_tag_key : option string)
    (envs : list env_summary) (acc : list environment) (s : state)
    : outcome unit * list environment * state :=
  match envs with
  | [] => (Returns tt, acc, s)
  | e :: rest =>
      let env_name := EnvironmentName e in
      let env_arn := EnvironmentArn e in
      let s1 := snd (record_call (ListTagsForResource env_arn) s) in
      match list_tags_for_resource w env_arn with
      | Raises x => (Raises x, acc, s1)
      | Returns resource_tags =>
          let tags := build_tags resource_tags ∅ in
          let has_upgrade_true := has_true tags upgrade_tag_key in
          let has_degrade_true := has_true tags degrade_tag_key in
          if negb (has_upgrade_true || has_degrade_true)
          then scan_loop w application_name upgrade_tag_key degrade_tag_key rest acc s1
          else
            match fetch_current_instance_type w application_name env_name s1 with
            | (Raises x, s2) => (Raises x, acc, s2)
            | (Returns current, s2) =>
                scan_loop w application_name upgrade_tag_key degrade_tag_key rest
                  (acc ++ [MkEnv env_name env_arn tags current]) s2
            end
      end
  end.

Definition find_tagged_environments (w : world) (application_name : string)
    (upgrade_tag_key degrade_tag_key : option string) : M (list environment) := fun s =>
  let s0 := snd (record_call (DescribeEnvironments application_name) s) in
  let '(r, environments_to_process, s1) :=
    match describe_environments w application_name with
    | Raises x => (Raises x, [], s0)
    | Returns envs =>
        scan_loop w application_name upgrade_tag_key degrade_tag_key envs [] s0
    end in
  match r with
  | Returns _ => (Returns environments_to_process, s1)
  | Raises x =>
      if is_ClientError x then
        (Returns environments_to_process,
         snd (log ("AWS Client Error describing environments: " +:+ exn_msg x) s1))
      else if is_Exception x then
        (Returns environments_to_process,
         snd (log ("Error while trying to list environments: " +:+ exn_msg x) s1))
      else (Raises x, s1)
  end.

(** ** [initiate_eb_environment_upgrade] and [initiate_eb_environment_downgrade] *)

Definition initiate_eb_environment_upgrade (w : world) (environment : environment)
    (application_name tag_key target_type : string) : M bool :=
  let env_name := name environment in
  let tags := tags environment in
  let current := current_instance_type environment in
  if negb (Py.truthy tag_key) then
    log ("[UPGRADE] " +:+ env_name +:+ ": no tag key configured; skipping.") ;;
    mret false
  else if negb (tag_is_true tags tag_key) then
    log ("[UPGRADE] " +:+ env_name +:+ ": tag " +:+ tag_key +:+ " != 'true'; skipping.") ;;
    mret false
  else if bool_decide (current = Some target_type) then
    log ("[UPGRADE] " +:+ env_name +:+ ": already " +:+ Py.str_opt current
         +:+ "; skipping.") ;;
    mret false
  else
    record_call (UpdateEnvironment application_name env_name
                   "aws:autoscaling:launchconfiguration" "InstanceType" target_type) ;;
    match update_environment w application_name env_name target_type with
    | Returns _ =>
        log ("[UPGRADE] Update sent for " +:+ env_name +:+ " -> " +:+ target_type) ;;
        mret true
    | Raises e =>
        if is_ClientError e then
          log ("[UPGRADE] AWS Client Error for " +:+ env_name +:+ ": " +:+ exn_msg e) ;;
          mret false
        else if is_Exception e then
          log ("[UPGRADE] Unexpected error for " +:+ env_name +:+ ": " +:+ exn_msg e) ;;
          mret false
        else raise e
    end.

Definition initiate_eb_environment_downgrade (w : world) (environment : environment)
    (application_name tag_key target_type : string) : M bool :=
  let env_name := name environment in
  let tags := tags environment in
  let current := current_instance_type environment in
  if negb (Py.truthy tag_key) then
    log ("[DOWNGRADE] " +:+ env_name +:+ ": no tag key configured; skipping.") ;;
    mret false
  else if negb (tag_is_true tags tag_key) then
    log ("[DOWNGRADE] " +:+ env_name +:+ ": tag " +:+ tag_key +:+ " != 'true'; skipping.") ;;
    mret false
  else if bool_decide (current = Some target_type) then
    log ("[DOWNGRADE] " +:+ env_name +:+ ": already " +:+ Py.str_opt current
         +:+ "; skipping.") ;;
    mret false
  else
    record_call (UpdateEnvironment application_name env_name
                   "aws:autoscaling:launchconfiguration" "InstanceType" target_type) ;;
    match update_environment w application_name env_name target_type with
    | Returns _ =>
        log ("[DOWNGRADE] Update sent for " +:+ env_name +:+ " -> " +:+ target_type) ;;
        mret true
    | Raises e =>
        if is_ClientError e then
          log ("[DOWNGRADE] AWS Client Error for " +:+ env_name +:+ ": " +:+ exn_msg e) ;;
          mret false
        else if is_Exception e then
          log ("[DOWNGRADE] Unexpected error for " +:+ env_name +:+ ": " +:+ exn_msg e) ;;
          mret false
        else raise e
    end.

(** ** [lambda_handler] *)

Record response := MkResponse {
  statusCode : nat;
  body : string
}.

(** [json.dumps] of the fixed message. *)
Definition response_body : string :=
  Py.dquote +:+ "Commands sent. Check the EB console and S3 logs for details."
  +:+ Py.dquote.

(** The loop body of the branch taken when [mode] is neither "upgrade" nor
    "downgrade". *)
Definition process_both (w : world) (application_name : string)
    (upgrade_tag_key upgrade_instance_type degrade_tag_key degrade_instance_type : string)
    (env : environment) : M unit :=
  did_upgrade ←
    (if Py.truthy upgrade_tag_key && Py.truthy upgrade_instance_type
     then initiate_eb_environment_upgrade w env application_name
            upgrade_tag_key upgrade_instance_type
     else mret false) ;
  if negb did_upgrade && Py.truthy degrade_tag_key && Py.truthy degrade_instance_type
  then initiate_eb_environment_downgrade w env application_name
         degrade_tag_key degrade_instance_type ;; mret tt
  else mret tt.

(** The statements of the [try] block. *)
Definition main_body (w : world) (mode : option string) : M unit :=
  let application_name := APPLICATION_NAME in
  let upgrade_tag_key := UPGRADE_TAG_KEY in
  let upgrade_instance_type := UPGRADE_INSTANCE_TYPE in
  let degrade_tag_key := DEGRADE_TAG_KEY in
  let degrade_instance_type := DEGRADE_INSTANCE_TYPE in
  (if bool_decide (mode = Some "upgrade") then
     envs ← find_tagged_environments w application_name (Some upgrade_tag_key) None ;
     for_each (fun env =>
       if Py.truthy upgrade_tag_key && Py.truthy upgrade_instance_type
       then initiate_eb_environment_upgrade w env application_name
              upgrade_tag_key upgrade_instance_type ;; mret tt
       else mret tt) envs
   else if bool_decide (mode = Some "downgrade") then
     envs ← find_tagged_environments w application_name None (Some degrade_tag_key) ;
     for_each (fun env =>
       if Py.truthy degrade_tag_key && Py.truthy degrade_instance_type
       then initiate_eb_environment_downgrade w env application_name
              degrade_tag_key degrade_instance_type ;; mret tt
       else mret tt) envs
   else
     envs ← find_tagged_environments w application_name
              (Some upgrade_tag_key) (Some degrade_tag_key) ;
     for_each (process_both w application_name upgrade_tag_key upgrade_instance_type
                 degrade_tag_key degrade_instance_type) envs) ;;
  log "All applicable update commands have been sent. Lambda will now exit.".

Definition dated_key (w : world) (aws_request_id : string) : string :=
  S3_LOG_KEY_PREFIX +:+ "/archived/" +:+ now_date w +:+ "/beanstalk-combined-"
  +:+ now_time w +:+ "-" +:+ aws_request_id +:+ ".log".

Definition latest_key : string :=
  S3_LOG_KEY_PREFIX +:+ "/latest/beanstalk-combined-latest.log".

(** The [finally] block. *)
Definition finally_block (w : world) (aws_request_id : string) : M unit :=
  lines ← get_log_lines ;
  let all_log_output := PyText.encode_utf8 (Py.join Py.nl lines) in
  upload_logs_to_s3 w S3_LOG_BUCKET (dated_key w aws_request_id) all_log_output
    "Archived Log" ;;
  upload_logs_to_s3 w S3_LOG_BUCKET latest_key all_log_output "Latest Log" ;;
  removeHandler.

(** The [try / except Exception / finally] statement around a body. *)
Definition guarded (w : world) (aws_request_id : string) (body : M unit) : M unit :=
  try_finally
    (try_except_Exception body
       (fun e =>
          log ("Something unexpected happened during execution: " +:+ exn_msg e) ;;
          raise e))
    (finally_block w aws_request_id).

(** [event] is the trigger payload ([None] or a JSON object with string
    fields), [aws_request_id] is [context.aws_request_id]. *)
Definition lambda_handler (w : world) (event : option (gmap string string))
    (aws_request_id : string) : M response :=
  addHandler ;;
  let mode := default ∅ event !! "mode" in
  log ("Starting EB updates. mode=" +:+ PyText.repr_opt mode) ;;
  guarded w aws_request_id (main_body w mode) ;;
  mret (MkResponse 200 response_body).

End Resize.

(** * The start/stop handler: src/lambda_function/non-prod-lambda1.py *)

Module StartStop.

Definition autostart_tag : string := "tag:CNTRL-START".
Definition autostop_tag : string := "tag:CNTRL-STOP".

(** ** Data *)

(** One entry of an instance's ['Tags'], read with [tag['Key']] and
    [tag['Value']]. *)
Record tag := MkTag {
  Key : string;
  Value : string
}.

(** An instance dict of a [describe_instances] response.  The handler reads
    [instance['Tags']] of instances selected by a tag filter only, so the
    key is always there. *)
Record instance := MkInstance {
  InstanceId : string;
  Tags : list tag;
  State_Name : string   (* instance['State']['Name'] *)
}.

(** A reservation dict: its ['Instances']. *)
Definition reservation : Type := list instance.

(** One element of [Filters]. *)
Record filter := MkFilter {
  Name : string;
  Values : list string
}.

Inductive call :=
  | DescribeInstancesFiltered (filters : list filter)
  | DescribeInstancesById (instance_id : string)
  | DescribeInstancesAll
  | StopInstances (instance_id : string)
  | StartInstances (instance_id : string)
  | Sleep (seconds : nat)
  | PutObject (body bucket key : string).

(** ** The compute service

    A virtual machine as the service holds it.  [listed_state] is the state
    it reports to the filtered listings issued when a run begins;
    [live_states k] is the state it reports to the [k]-th unfiltered
    [describe_instances()] of the run, counted from 0. *)
Record machine := MkMachine {
  m_id : string;
  m_tags : list tag;
  listed_state : string;
  live_states : nat -> string
}.

Record world := MkWorld {
  fleet : list (list machine);                 (* machines, by reservation *)
  stop_instances : string -> outcome unit;
  start_instances : string -> outcome unit;
  put_object : string -> string -> string -> outcome unit;
  gm_hour : nat;                               (* time.gmtime()[3] *)
  ctime : nat -> string;                       (* time.ctime() at a clock value *)
  elapsed_str : nat -> string                  (* str(stop - start) *)
}.

Definition listed (m : machine) : instance :=
  MkInstance (m_id m) (m_tags m) (listed_state m).

Definition live (k : nat) (m : machine) : instance :=
  MkInstance (m_id m) (m_tags m) (live_states m k).

(** A filter name ["tag:<key>"] gives [Some key]. *)
Definition tag_filter_key (filter_name : string) : option string :=
  match filter_name with
  | String "t" (String "a" (String "g" (String ":" k))) => Some k
  | _ => None
  end.

Definition has_tag_in (key : string) (values : list string) (i : instance) : bool :=
  existsb (fun t => String.eqb (Key t) key && existsb (String.eqb (Value t)) values)
          (Tags i).

(** The service's documented filter contract: filter values are compared
    exactly (case-sensitive); the values the handler sends contain no
    wildcard.  An instance is selected when it matches every filter. *)
Definition filter_matches (f : filter) (i : instance) : bool :=
  match tag_filter_key (Name f) with
  | Some key => has_tag_in key (Values f) i
  | None =>
      if String.eqb (Name f) "instance-state-name"
      then existsb (String.eqb (State_Name i)) (Values f)
      else false
  end.

Definition selects (filters : list filter) (i : instance) : bool :=
  forallb (fun f => filter_matches f i) filters.

(** Reservations with the instances that pass [keep]; a reservation left
    without instances is not reported. *)
Definition answer (keep : instance -> bool) (rs : list reservation) : list reservation :=
  List.filter (fun r => negb (Nat.eqb (length r) 0)) (map (List.filter keep) rs).

Definition describe_filtered (w : world) (filters : list filter) : list reservation :=
  answer (selects filters) (map (map listed) (fleet w)).

Definition describe_by_id (w : world) (id : string) : list reservation :=
  answer (fun i => String.eqb (InstanceId i) id) (map (map listed) (fleet w)).

Definition describe_all (w : world) (k : nat) : list reservation :=
  map (map (live k)) (fleet w).

(** ** State and computations *)

(** [text_file_content] is the module-level list; [calls] the trace of
    calls, oldest first; [logged] what went to the logger (level, message);
    [state_queries] counts the unfiltered [describe_instances()] issued;
    [clock] advances with [time.sleep]. *)
Record state := MkState {
  text_file_content : list string;
  calls : list call;
  logged : list (string * string);
  state_queries : nat;
  clock : nat
}.

Definition initial_state : state := MkState [] [] [] 0 0.

Inductive result (A : Type) :=
  | Done (a : A)
  | Raised (e : exn)
  | OutOfFuel.
Arguments Done {A} a.
Arguments Raised {A} e.
Arguments OutOfFuel {A}.

Definition M (A : Type) : Type := state -> result A * state.

#[export] Instance M_ret : MRet M := fun A a s => (Done a, s).
#[export] Instance M_bind : MBind M := fun A B f m s =>
  match m s with
  | (Done a, s') => f a s'
  | (Raised e, s') => (Raised e, s')
  | (OutOfFuel, s') => (OutOfFuel, s')
  end.

Definition raise {A} (e : exn) : M A := fun s => (Raised e, s).
Definition out_of_fuel {A} : M A := fun s => (OutOfFuel, s).

Definition record_call (c : call) : M unit := fun s =>
  (Done tt, MkState (text_file_content s) (calls s ++ [c]) (logged s)
                    (state_queries s) (clock s)).

Definition logger (level msg : string) : M unit := fun s =>
  (Done tt, MkState (text_file_content s) (calls s) (logged s ++ [(level, msg)])
                    (state_queries s) (clock s)).

Definition append_line (line : string) : M unit := fun s =>
  (Done tt, MkState (text_file_content s ++ [line]) (calls s) (logged s)
                    (state_queries s) (clock s)).

Definition clear_text_file_content : M unit := fun s =>
  (Done tt, MkState [] (calls s) (logged s) (state_queries s) (clock s)).

Definition get_text_file_content : M (list string) := fun s =>
  (Done (text_file_content s), s).

Definition get_clock : M nat := fun s => (Done (clock s), s).

(** [time.sleep(n)]. *)
Definition sleep (n : nat) : M unit := fun s =>
  (Done tt, MkState (text_file_content s) (calls s ++ [Sleep n]) (logged s)
                    (state_queries s) (clock s + n)).

(** Take the number of the next state query and count it. *)
Definition next_state_query : M nat := fun s =>
  (Done (state_queries s),
   MkState (text_file_content s) (calls s ++ [DescribeInstancesAll]) (logged s)
           (S (state_queries s)) (clock s)).

Fixpoint for_each {A} (f : A -> M unit) (l : list A) : M unit :=
  match l with
  | [] => mret tt
  | x :: rest => f x ;; for_each f rest
  end.

(** [prefix + name] where [name] may be [None]. *)
Definition concat_name (prefix : string) (name : option string) : M string :=
  match name with
  | Some n => mret (prefix +:+ n)
  | None =>
      raise (MkExn TypeError
               ("can only concatenate str (not " +:+ Py.dquote +:+ "NoneType"
                +:+ Py.dquote +:+ ") to str"))
  end.

(** ** Helpers of the handler *)

Definition get_tagged_ec2_instances_by_state (w : world) (ec2_state_flag : string)
    : M (list reservation) :=
  target_tag_key ←
    (if String.eqb ec2_state_flag "running" then mret autostop_tag
     else if String.eqb ec2_state_flag "stopped" then mret autostart_tag
     else raise (MkExn UnboundLocalError
                   "cannot access local variable 'target_tag_key'")) ;
  let filters := [MkFilter target_tag_key ["true"; "True"];
                  MkFilter "instance-state-name" [ec2_state_flag]] in
  record_call (DescribeInstancesFiltered filters) ;;
  mret (describe_filtered w filters).

(** [text_append(text_file_content, text, log_level)]. *)
Definition text_append (w : world) (text log_level : string) : M unit :=
  now ← get_clock ;
  append_line (log_level +:+ "  [" +:+ ctime w now +:+ "] " +:+ text).

Definition stop_single_ec2_instance (w : world) (instance_id : string) : M bool :=
  record_call (StopInstances instance_id) ;;
  match stop_instances w instance_id with
  | Returns _ =>
      logger "INFO" ("ATTEMPTING STOP ON INSTANCE ID :" +:+ instance_id) ;;
      text_append w ("ATTEMPTING STOP ON INSTANCE ID :" +:+ instance_id) "[INFO]" ;;
      mret true
  | Raises e =>
      if is_Exception e then
        let error_message :=
          "ERROR STOPPING INSTANCE ID : " +:+ instance_id +:+ " | Exception: "
          +:+ exn_msg e in
        logger "ERROR" error_message ;;
        logger "ERROR" ("ERROR STOPPING INSTANCE ID :" +:+ instance_id) ;;
        text_append w ("ERROR STOPPING INSTANCE ID :" +:+ instance_id) "[ERROR]" ;;
        text_append w error_message "[ERROR]" ;;
        mret false
      else raise e
  end.

(** The response of [start_instances] is returned but never read; [true]
    stands for it, [false] for the [None] of the error path. *)
Definition start_single_ec2_instance (w : world) (instance_id : string) : M bool :=
  record_call (StartInstances instance_id) ;;
  match start_instances w instance_id with
  | Returns _ =>
      logger "INFO" ("ATTEMPTING START ON INSTANCE ID :" +:+ instance_id) ;;
      text_append w ("ATTEMPTING START ON INSTANCE ID :" +:+ instance_id) "[INFO]" ;;
      mret true
  | Raises e =>
      if is_Exception e then
        let error_message :=
          "ERROR STARTING INSTANCE ID : " +:+ instance_id +:+ " | Exception: "
          +:+ exn_msg e in
        logger "ERROR" ("ERROR STARTING INSTANCE ID :" +:+ instance_id) ;;
        logger "ERROR" error_message ;;
        text_append w ("ERROR STARTING INSTANCE ID :" +:+ instance_id) "[ERROR]" ;;
        text_append w error_message "[ERROR]" ;;
        mret false
      else raise e
  end.

(** The value of the first tag whose key is 'Name'. *)
Fixpoint name_in_tags (ts : list tag) : option string :=
  match ts with
  | [] => None
  | t :: rest => if String.eqb (Key t) "Name" then Some (Value t) else name_in_tags rest
  end.

Fixpoint name_in_instances (l : list instance) : option string :=
  match l with
  | [] => None
  | i :: rest =>
      match name_in_tags (Tags i) with
      | Some n => Some n
      | None => name_in_instances rest
      end
  end.

(** Falling off the end of the loops returns [None]. *)
Definition instance_name_from_id (w : world) (reference_id : string)
    : M (option string) :=
  record_call (DescribeInstancesById reference_id) ;;
  mret (name_in_instances (concat (describe_by_id w reference_id))).

(** The body of the [for tag in instance['Tags']] loop.  The source passes a
    stray second argument to [logger.critical]; the logging module reports
    the formatting error itself and the call returns. *)
Definition log_state_for_tag (w : world) (new_state : string) (t : tag) : M unit :=
  if String.eqb (Key t) "Name" then
    logger "INFO" ("New State :" +:+ new_state +:+ ", INSTANCE NAME :" +:+ Value t) ;;
    text_append w ("New State :" +:+ new_state +:+ ", INSTANCE NAME :" +:+ Value t)
      "[INFO]" ;;
    (if String.eqb new_state "pending" || String.eqb new_state "stopping" then
       logger "WARNING"
         ("It is not recommended to interupt this instance state by rerunning the Lambda---> "
          +:+ new_state) ;;
       text_append w
         ("It is not recommended to interupt this instance state by rerunning the Lambda---> "
          +:+ new_state) "[WARNING]"
     else mret tt) ;;
    (if String.eqb new_state "shutting-down" then
       logger "CRITICAL"
         ("This instance is in getting terminated state. Kindly address this to the Infra Admin"
          +:+ new_state) ;;
       text_append w
         ("This instance is in getting terminated state. Kindly address this to the Infra Admin"
          +:+ new_state) "[CRITICAL]"
     else mret tt)
  else mret tt.

Definition log_refreshed_instance_state (w : world) (i : instance) (new_state : string)
    : M unit :=
  for_each (log_state_for_tag w new_state) (Tags i).

Fixpoint state_in_instances (reference_id : string) (l : list instance) : option string :=
  match l with
  | [] => None
  | i :: rest =>
      if String.eqb (InstanceId i) reference_id then Some (State_Name i)
      else state_in_instances reference_id rest
  end.

Definition refresh_instance_state (w : world) (reference_id : string)
    (confirm_action : bool) : M string :=
  if negb confirm_action then mret "This instance cannot be stopped "
  else
    k ← next_state_query ;
    match state_in_instances reference_id (concat (describe_all w k)) with
    | Some st => mret st
    | None => mret "Instance Not Found"
    end.

Definition text_file_commit (w : world) : M unit :=
  lines ← get_text_file_content ;
  let text_file_merged_content :=
    fold_left (fun acc line => acc +:+ line +:+ Py.nl) lines "" in
  timestamp ← get_clock ;
  let bucket := "finalyzer-nonprod-lambda-ec2-start-stop-logs" in
  let key := "Instance_Auto_Start_STOP_Logs/ec2_start_stop_logs_ASYNC-"
             +:+ ctime w timestamp +:+ ".txt" in
  record_call (PutObject text_file_merged_content bucket key) ;;
  match put_object w text_file_merged_content bucket key with
  | Returns _ => logger "INFO" "COMMITED LOGS TO S3 BUCKET"
  | Raises e =>
      if is_Exception e then
        logger "ERROR" "FAILED TO COMMIT LOGS TO S3 BUCKET" ;;
        logger "ERROR" (exn_msg e)
      else raise e
  end.

(** ** [lambda_handler]

    [confirm_action_queue] and [instance_id_queue] are only appended to and
    popped at the end; they are kept as stacks whose head is the element at
    index [-1]. *)

Fixpoint for_fold {A S : Type} (f : S -> A -> M S) (acc : S) (l : list A) : M S :=
  match l with
  | [] => mret acc
  | x :: rest => acc' ← f acc x ; for_fold f acc' rest
  end.

(** Auto-stop, phase 1: the two nested [for] loops over the listing. *)
Fixpoint stop_phase1 (w : world) (l : list instance)
    (confirm_action_queue : list bool) (instance_id_queue : list string)
    : M (list bool * list string) :=
  match l with
  | [] => mret (confirm_action_queue, instance_id_queue)
  | i :: rest =>
      let instance_id := InstanceId i in
      confirm_action ← stop_single_ec2_instance w instance_id ;
      stop_phase1 w rest (confirm_action :: confirm_action_queue)
                  (instance_id :: instance_id_queue)
  end.

(** The [while True and confirm_action] loop once its guard holds: one
    iteration per unit of fuel. *)
Fixpoint poll_stopped (w : world) (fuel : nat) (top : string) : M unit :=
  match fuel with
  | 0 => out_of_fuel
  | S fuel' =>
      sleep 1 ;;
      instance_new_state ← refresh_instance_state w top true ;
      if String.eqb instance_new_state "stopped" then
        n1 ← instance_name_from_id w top ;
        m1 ← concat_name ("CONFIRMED STOPPED STATE :" +:+ top +:+ ", Name : ") n1 ;
        logger "INFO" m1 ;;
        n2 ← instance_name_from_id w top ;
        m2 ← concat_name ("CONFIRMED STOPPED STATE :" +:+ top +:+ ", Name : ") n2 ;
        text_append w m2 "[INFO]"
      else poll_stopped w fuel' top
  end.

(** The body of the inner [for instance in reservation['Instances']] of the
    auto-stop phase 2.  [confirm_action] is the variable left by phase 1:
    the result of the last stop call ([None] while unbound). *)
Definition monitor_stop (w : world) (fuel : nat) (confirm_action : option bool)
    (top : string) (top_confirm : bool) (operated_instance_count : nat)
    (i : instance) : M nat :=
  if String.eqb (InstanceId i) top then
    instance_new_state ← refresh_instance_state w top top_confirm ;
    log_refreshed_instance_state w i instance_new_state ;;
    match confirm_action with
    | None => raise (MkExn UnboundLocalError
                       "cannot access local variable 'confirm_action'")
    | Some true => poll_stopped w fuel top ;; mret (S operated_instance_count)
    | Some false => mret operated_instance_count
    end
  else mret operated_instance_count.

(** Auto-stop, phase 2: the [while len(instance_id_queue) != 0] loop. *)
Fixpoint stop_phase2 (w : world) (fuel : nat) (listing : list reservation)
    (confirm_action : option bool)
    (confirm_action_queue : list bool) (instance_id_queue : list string)
    (operated_instance_count : nat) {struct instance_id_queue} : M nat :=
  match instance_id_queue with
  | [] => mret operated_instance_count
  | top :: instance_id_queue' =>
      match confirm_action_queue with
      | [] => raise (MkExn IndexError "list index out of range")
      | top_confirm :: confirm_action_queue' =>
          if negb top_confirm then
            n1 ← instance_name_from_id w top ;
            m1 ← concat_name ("STOP ACTION DENIED for INSTANCE ID :" +:+ top
                              +:+ ", Name : ") n1 ;
            logger "CRITICAL" m1 ;;
            n2 ← instance_name_from_id w top ;
            m2 ← concat_name ("STOP ACTION DENIED for INSTANCE ID :" +:+ top
                              +:+ ", Name : ") n2 ;
            text_append w m2 "[CRITICAL]" ;;
            stop_phase2 w fuel listing confirm_action confirm_action_queue'
                        instance_id_queue' operated_instance_count
          else
            n1 ← instance_name_from_id w top ;
            m1 ← concat_name ("STOP ACTION CONFIRMED :" +:+ top +:+ ", Name : ") n1 ;
            logger "INFO" m1 ;;
            n2 ← instance_name_from_id w top ;
            m2 ← concat_name ("STOPPING INSTANCE ID :" +:+ top +:+ ", Name : ") n2 ;
            text_append w m2 "[INFO]" ;;
            count ← for_fold (monitor_stop w fuel confirm_action top top_confirm)
                      operated_instance_count (concat listing) ;
            stop_phase2 w fuel listing confirm_action confirm_action_queue'
                        instance_id_queue' count
      end
  end.

(** The whole [if timecheck[3] == 14] statement. *)
Definition auto_stop (w : world) (fuel : nat) (ec2_tagged_for_autostop : list reservation)
    (operated_instance_count : nat) : M nat :=
  if Nat.eqb (gm_hour w) 14 then
    logger "INFO" "Auto-Stop passed Time check" ;;
    text_append w "Auto-Stop passed Time check" "[INFO]" ;;
    queues ← stop_phase1 w (concat ec2_tagged_for_autostop) [] [] ;
    stop_phase2 w fuel ec2_tagged_for_autostop (head (fst queues))
                (fst queues) (snd queues) operated_instance_count
  else
    logger "INFO" "Auto-Stop will Only be triggered at 8 pm IST" ;;
    text_append w "Auto-Stop will Only be triggered at 8 pm IST " "[INFO]" ;;
    mret operated_instance_count.

(** Auto-start, phase 1. *)
Fixpoint start_phase1 (w : world) (l : list instance) (instance_id_queue : list string)
    : M (list string) :=
  match l with
  | [] => mret instance_id_queue
  | i :: rest =>
      let instance_id := InstanceId i in
      start_single_ec2_instance w instance_id ;;
      start_phase1 w rest (instance_id :: instance_id_queue)
  end.

(** The [while True] loop of the auto-start phase. *)
Fixpoint poll_running (w : world) (fuel : nat) (top : string) : M unit :=
  match fuel with
  | 0 => out_of_fuel
  | S fuel' =>
      sleep 1 ;;
      instance_new_state ← refresh_instance_state w top true ;
      if String.eqb instance_new_state "running" then
        n1 ← instance_name_from_id w top ;
        m1 ← concat_name ("CONFIRMED STARTED STATE :" +:+ top +:+ ", Name : ") n1 ;
        logger "INFO" m1 ;;
        n2 ← instance_name_from_id w top ;
        m2 ← concat_name ("CONFIRMED STARTED STATE :" +:+ top +:+ ", Name : ") n2 ;
        text_append w m2 "[INFO]"
      else poll_running w fuel' top
  end.

Definition monitor_start (w : world) (fuel : nat) (top : string) (i : instance) : M unit :=
  if String.eqb (InstanceId i) top then
    instance_new_state ← refresh_instance_state w top true ;
    log_refreshed_instance_state w i instance_new_state ;;
    poll_running w fuel top
  else mret tt.

(** Auto-start, phase 2.  [reservation] is the loop variable left by
    phase 1: the last reservation of the listing ([None] while unbound). *)
Fixpoint start_phase2 (w : world) (fuel : nat) (reservation : option reservation)
    (instance_id_queue : list string) (operated_instance_count : nat) : M nat :=
  match instance_id_queue with
  | [] => mret operated_instance_count
  | top :: instance_id_queue' =>
      n1 ← instance_name_from_id w top ;
      m1 ← concat_name ("STARTED INSTANCE ID :" +:+ top +:+ ", Name : ") n1 ;
      logger "INFO" m1 ;;
      n2 ← instance_name_from_id w top ;
      m2 ← concat_name ("STARTED INSTANCE ID :" +:+ top +:+ ", Name : ") n2 ;
      text_append w m2 "[INFO]" ;;
      refresh_instance_state w top true ;;
      let count := S operated_instance_count in
      match reservation with
      | None => raise (MkExn UnboundLocalError
                         "cannot access local variable 'reservation'")
      | Some r => for_each (monitor_start w fuel top) r
      end ;;
      start_phase2 w fuel reservation instance_id_queue' count
  end.

(** The whole [if timecheck[3] == 2] statement. *)
Definition auto_start (w : world) (fuel : nat) (ec2_tagged_for_autostart : list reservation)
    (operated_instance_count : nat) : M nat :=
  if Nat.eqb (gm_hour w) 2 then
    logger "INFO" "Auto-Start passed Time check" ;;
    text_append w "Auto-Start passed Time check" "[INFO]" ;;
    instance_id_queue ← start_phase1 w (concat ec2_tagged_for_autostart) [] ;
    start_phase2 w fuel (last ec2_tagged_for_autostart) instance_id_queue
                 operated_instance_count
  else
    logger "INFO" "Auto-Start will Only be triggered at 8 am IST" ;;
    text_append w "Auto-Start will Only be triggered at 8 am IST" "[INFO]" ;;
    mret operated_instance_count.

(** The handler; its result is the ['statusCode'] of the returned dict.
    [fuel] bounds the iterations of each polling loop. *)
Definition lambda_handler (w : world) (fuel : nat) : M nat :=
  start_timestamp ← get_clock ;
  ec2_tagged_for_autostop ← get_tagged_ec2_instances_by_state w "running" ;
  ec2_tagged_for_autostart ← get_tagged_ec2_instances_by_state w "stopped" ;
  append_line "<--------------------LOGS STARTED------------------->" ;;
  text_append w "Lambda Execution Started" "[INFO]" ;;
  count1 ← auto_stop w fuel ec2_tagged_for_autostop 0 ;
  count2 ← auto_start w fuel ec2_tagged_for_autostart count1 ;
  text_append w "Lambda Execution Completed" "[INFO]" ;;
  text_append w ("Total Instances Operated : " +:+ Py.str_nat count2) "[INFO]" ;;
  stop_timestamp ← get_clock ;
  append_line ("Lambda Execution Time : "
               +:+ elapsed_str w (stop_timestamp - start_timestamp) +:+ " seconds") ;;
  append_line "<--------------------LOGS ENDED------------------->" ;;
  text_file_commit w ;;
  clear_text_file_content ;;
  mret 200.

End StartStop.

(** * Trimming and case folding

    What [v.strip().lower() == "true"] says about [v], without reference to
    the two functions: [v] is white space, then the four letters of "true"
    in any case, then white space. *)

Module PyFacts.

Fixpoint all_space (s : string) : bool :=
  match s with
  | EmptyString => true
  | String c r => Py.isspace c && all_space r
  end.

(** [core] is "true" up to the case of its letters. *)
Definition spells_true (core : string) : Prop :=
  exists c1 c2 c3 c4 : ascii,
    core = String c1 (String c2 (String c3 (String c4 EmptyString)))
    /\ (c1 = "t" \/ c1 = "T")%char /\ (c2 = "r" \/ c2 = "R")%char
    /\ (c3 = "u" \/ c3 = "U")%char /\ (c4 = "e" \/ c4 = "E")%char.

(** [v] equals "true" once trimmed, the case of letters set aside. *)
Definition says_true (v : string) : Prop :=
  exists pre core post : string,
    v = pre +:+ core +:+ post
    /\ all_space pre = true /\ all_space post = true /\ spells_true core.

Lemma lower_char_letter (c : ascii) (l u : ascii) :
  Py.lower_char u = l -> Py.lower_char l = l ->
  (forall d, Py.lower_char d = l -> d = l \/ d = u) ->
  Py.lower_char c = l <-> c = l \/ c = u.
Proof.
  intros Hu Hl Hall. split; [apply Hall|]. intros [->| ->]; assumption.
Qed.

Lemma lower_char_t (c : ascii) : Py.lower_char c = "t"%char <-> (c = "t" \/ c = "T")%char.
Proof.
  apply lower_char_letter; [reflexivity | reflexivity |].
  intros d. destruct d as [[] [] [] [] [] [] [] []]; vm_compute; intros H;
    first [discriminate H | auto].
Qed.

Lemma lower_char_r (c : ascii) : Py.lower_char c = "r"%char <-> (c = "r" \/ c = "R")%char.
Proof.
  apply lower_char_letter; [reflexivity | reflexivity |].
  intros d. destruct d as [[] [] [] [] [] [] [] []]; vm_compute; intros H;
    first [discriminate H | auto].
Qed.

Lemma lower_char_u (c : ascii) : Py.lower_char c = "u"%char <-> (c = "u" \/ c = "U")%char.
Proof.
  apply lower_char_letter; [reflexivity | reflexivity |].
  intros d. destruct d as [[] [] [] [] [] [] [] []]; vm_compute; intros H;
    first [discriminate H | auto].
Qed.

Lemma lower_char_e (c : ascii) : Py.lower_char c = "e"%char <-> (c = "e" \/ c = "E")%char.
Proof.
  apply lower_char_letter; [reflexivity | reflexivity |].
  intros d. destruct d as [[] [] [] [] [] [] [] []]; vm_compute; intros H;
    first [discriminate H | auto].
Qed.

Lemma lower_true (core : string) : Py.lower core = "true" <-> spells_true core.
Proof.
  unfold spells_true. split.
  - destruct core as [|c1 [|c2 [|c3 [|c4 [|c5 r]]]]]; simpl; intros H;
      try discriminate H.
    injection H as H1 H2 H3 H4.
    exists c1, c2, c3, c4. split; [reflexivity|].
    rewrite <- lower_char_t, <- lower_char_r, <- lower_char_u, <- lower_char_e. auto.
  - intros (c1 & c2 & c3 & c4 & -> & H1 & H2 & H3 & H4).
    apply lower_char_t in H1. apply lower_char_r in H2.
    apply lower_char_u in H3. apply lower_char_e in H4.
    simpl. rewrite H1, H2, H3, H4. reflexivity.
Qed.

Lemma lstrip_split (s : string) :
  exists pre, s = pre +:+ Py.lstrip s /\ all_space pre = true.
Proof.
  induction s as [|c r IH]; simpl.
  - exists "". auto.
  - destruct (Py.isspace c) eqn:E.
    + destruct IH as (pre & Hr & Hp). exists (String c pre). simpl.
      rewrite E, Hp. split; [|reflexivity].
      change (String c pre +:+ Py.lstrip r) with (String c (pre +:+ Py.lstrip r)).
      f_equal. exact Hr.
    + exists "". auto.
Qed.

Lemma rstrip_split (s : string) :
  exists post, s = Py.rstrip s +:+ post /\ all_space post = true.
Proof.
  induction s as [|c r IH]; simpl.
  - exists "". auto.
  - destruct IH as (post & Hr & Hp).
    destruct (Py.rstrip r) as [|d r'] eqn:Er.
    + simpl in Hr. subst r. destruct (Py.isspace c) eqn:E.
      * exists (String c post). simpl. rewrite E, Hp. auto.
      * exists post. auto.
    + exists post. split; [|exact Hp].
      change (String c (String d r') +:+ post) with (String c (String d r' +:+ post)).
      f_equal. exact Hr.
Qed.

Lemma lstrip_app_space (pre x : string) :
  all_space pre = true -> Py.lstrip (pre +:+ x) = Py.lstrip x.
Proof.
  induction pre as [|c r IH]; simpl; [reflexivity|].
  intros H. apply andb_true_iff in H as [Hc Hr]. rewrite Hc. auto.
Qed.

Lemma rstrip_space (post : string) : all_space post = true -> Py.rstrip post = "".
Proof.
  induction post as [|c r IH]; simpl; [reflexivity|].
  intros H. apply andb_true_iff in H as [Hc Hr]. rewrite (IH Hr), Hc. reflexivity.
Qed.

Lemma rstrip_app_space (x post : string) :
  all_space post = true -> Py.rstrip (x +:+ post) = Py.rstrip x.
Proof.
  intros Hp. induction x as [|c r IH]; simpl.
  - apply rstrip_space. exact Hp.
  - rewrite IH. reflexivity.
Qed.

Lemma spells_true_strip (core : string) : spells_true core -> Py.strip core = core.
Proof.
  intros (c1 & c2 & c3 & c4 & -> & H1 & H2 & H3 & H4).
  destruct H1 as [-> | ->], H2 as [-> | ->], H3 as [-> | ->], H4 as [-> | ->];
    reflexivity.
Qed.

Lemma spells_true_lstrip (core rest : string) :
  spells_true core -> Py.lstrip (core +:+ rest) = core +:+ rest.
Proof.
  intros (c1 & c2 & c3 & c4 & -> & H1 & _). destruct H1 as [-> | ->]; reflexivity.
Qed.

Lemma spells_true_rstrip (core : string) : spells_true core -> Py.rstrip core = core.
Proof.
  intros (c1 & c2 & c3 & c4 & -> & H1 & H2 & H3 & H4).
  destruct H1 as [-> | ->], H2 as [-> | ->], H3 as [-> | ->], H4 as [-> | ->];
    reflexivity.
Qed.

(** The test of the handlers, read on the value itself. *)
Theorem strip_lower_true (v : string) :
  Py.lower (Py.strip v) = "true" <-> says_true v.
Proof.
  unfold says_true. split.
  - intros H. unfold Py.strip in H.
    destruct (lstrip_split v) as (pre & Hv & Hpre).
    destruct (rstrip_split (Py.lstrip v)) as (post & Hl & Hpost).
    exists pre, (Py.rstrip (Py.lstrip v)), post.
    split; [congruence|]. split; [exact Hpre|]. split; [exact Hpost|].
    apply lower_true. exact H.
  - intros (pre & core & post & -> & Hpre & Hpost & Hcore).
    unfold Py.strip.
    rewrite (lstrip_app_space pre _ Hpre), (spells_true_lstrip core post Hcore),
      (rstrip_app_space core post Hpost), (spells_true_rstrip core Hcore).
    apply lower_true. exact Hcore.
Qed.

(** White space is what [str.isspace] says it is: the no-break space and
    NEL are trimmed like the space, and a letter-like sign is not. *)
Example strip_lower_beyond_ascii :
  Py.lower (Py.strip (String (ascii_of_nat 160) ("TRUE" +:+ String (ascii_of_nat 133) "")))
  = "true"
  /\ Py.isspace (ascii_of_nat 160) = true /\ Py.isspace (ascii_of_nat 133) = true
  /\ Py.strip (String (ascii_of_nat 173) "true") = String (ascii_of_nat 173) "true"
  /\ Py.lower (String (ascii_of_nat 201) "T") = String (ascii_of_nat 233) "t".
Proof. repeat split; reflexivity. Qed.

End PyFacts.

(** * Properties of the resize handler *)

Module ResizeProofs.
Import Resize.
Local Open Scope list_scope.

(** The update call both operations issue. *)
Definition update_call (application_name env_name target_type : string) : call :=
  UpdateEnvironment application_name env_name
    "aws:autoscaling:launchconfiguration" "InstanceType" target_type.

(** The gate of a resize: the tag is "true" after trimming and lowering, and
    the current instance type is not the target already. *)
Definition resize_gate (env : environment) (tag_key target_type : string) : bool :=
  tag_is_true (tags env) tag_key
  && negb (bool_decide (current_instance_type env = Some target_type)).

(** What one resize operation does, whatever its log prefix: the result, the
    calls it adds to the trace. *)
Definition resize_result (w : world) (env : environment)
    (application_name tag_key target_type : string) : outcome bool :=
  if negb (Py.truthy tag_key) then Returns false
  else if resize_gate env tag_key target_type then
    match update_environment w application_name (name env) target_type with
    | Returns _ => Returns true
    | Raises e => if is_Exception e then Returns false else Raises e
    end
  else Returns false.

Definition resize_calls (env : environment)
    (application_name tag_key target_type : string) : list call :=
  if Py.truthy tag_key && resize_gate env tag_key target_type
  then [update_call application_name (name env) target_type]
  else [].

Ltac run_M :=
  unfold mbind, M_bind, mret, M_ret, log, record_call, raise; simpl.

(** A tag mapping carries [key] with a string value that says "true":
    the four letters in any case, white space around them set aside. *)
Definition present_true (tags : gmap string (option string)) (key : string) : Prop :=
  exists v : string, tags !! key = Some (Some v) /\ PyFacts.says_true v.

Lemma tag_is_true_present (tags : gmap string (option string)) (key : string) :
  tag_is_true tags key = true <-> present_true tags key.
Proof.
  unfold tag_is_true, present_true. rewrite String.eqb_eq. split.
  - destruct (tags !! key) as [[v|]|] eqn:E; simpl; intros H.
    + exists v. split; [reflexivity | apply PyFacts.strip_lower_true; assumption].
    + vm_compute in H. discriminate.
    + vm_compute in H. discriminate.
  - intros (v & -> & Hv). apply PyFacts.strip_lower_true. exact Hv.
Qed.

Lemma is_ClientError_Exception (e : exn) :
  is_ClientError e = true -> is_Exception e = true.
Proof. unfold is_ClientError, is_Exception. destruct (exn_cls e); congruence. Qed.

Lemma upgrade_result_calls (w : world) (env : environment)
    (application_name tag_key target_type : string) (s : state) :
  fst (initiate_eb_environment_upgrade w env application_name tag_key target_type s)
    = resize_result w env application_name tag_key target_type
  /\ calls (snd (initiate_eb_environment_upgrade w env application_name tag_key
                   target_type s))
    = calls s ++ resize_calls env application_name tag_key target_type.
Proof.
  unfold initiate_eb_environment_upgrade, resize_result, resize_calls, resize_gate.
  destruct (Py.truthy tag_key); run_M.
  2: { split; [reflexivity | now rewrite app_nil_r]. }
  destruct (tag_is_true (tags env) tag_key); run_M.
  2: { split; [reflexivity | now rewrite app_nil_r]. }
  destruct (bool_decide (current_instance_type env = Some target_type)); run_M.
  { split; [reflexivity | now rewrite app_nil_r]. }
  destruct (update_environment w application_name (name env) target_type) as [[]|e]; run_M.
  { split; reflexivity. }
  destruct (is_ClientError e) eqn:Hc; run_M.
  { rewrite (is_ClientError_Exception e Hc). split; reflexivity. }
  destruct (is_Exception e); run_M; split; reflexivity.
Qed.

Lemma downgrade_result_calls (w : world) (env : environment)
    (application_name tag_key target_type : string) (s : state) :
  fst (initiate_eb_environment_downgrade w env application_name tag_key target_type s)
    = resize_result w env application_name tag_key target_type
  /\ calls (snd (initiate_eb_environment_downgrade w env application_name tag_key
                   target_type s))
    = calls s ++ resize_calls env application_name tag_key target_type.
Proof.
  unfold initiate_eb_environment_downgrade, resize_result, resize_calls, resize_gate.
  destruct (Py.truthy tag_key); run_M.
  2: { split; [reflexivity | now rewrite app_nil_r]. }
  destruct (tag_is_true (tags env) tag_key); run_M.
  2: { split; [reflexivity | now rewrite app_nil_r]. }
  destruct (bool_decide (current_instance_type env = Some target_type)); run_M.
  { split; [reflexivity | now rewrite app_nil_r]. }
  destruct (update_environment w application_name (name env) target_type) as [[]|e]; run_M.
  { split; reflexivity. }
  destruct (is_ClientError e) eqn:Hc; run_M.
  { rewrite (is_ClientError_Exception e Hc). split; reflexivity. }
  destruct (is_Exception e); run_M; split; reflexivity.
Qed.

Lemma resize_gate_true (env : environment) (tag_key target_type : string) :
  resize_gate env tag_key target_type = true <->
  present_true (tags env) tag_key /\ current_instance_type env <> Some target_type.
Proof.
  unfold resize_gate.
  rewrite andb_true_iff, negb_true_iff, bool_decide_eq_false, tag_is_true_present.
  reflexivity.
Qed.

(** C1. With a non-empty tag key, each resize operation issues the update
    call exactly when the environment carries the key with a value that is
    "true" (trimmed, case-insensitive) and its current instance type differs
    from the target; otherwise it adds no call and returns [False]. *)
Theorem resize_issues_update_iff_gate (w : world) (env : environment)
    (application_name tag_key target_type : string) (s : state) :
  Py.truthy tag_key = true ->
  let gate := present_true (tags env) tag_key
              /\ current_instance_type env <> Some target_type in
  let u := update_call application_name (name env) target_type in
  let up := initiate_eb_environment_upgrade w env application_name tag_key target_type s in
  let down :=
    initiate_eb_environment_downgrade w env application_name tag_key target_type s in
  (gate -> calls (snd up) = calls s ++ [u] /\ calls (snd down) = calls s ++ [u])
  /\ (~ gate -> calls (snd up) = calls s /\ fst up = Returns false
                /\ calls (snd down) = calls s /\ fst down = Returns false).
Proof.
  intros Hkey gate u up down.
  destruct (upgrade_result_calls w env application_name tag_key target_type s)
    as [Hur Huc].
  destruct (downgrade_result_calls w env application_name tag_key target_type s)
    as [Hdr Hdc].
  fold up in Hur, Huc. fold down in Hdr, Hdc.
  unfold resize_result in Hur, Hdr. unfold resize_calls in Huc, Hdc.
  rewrite Hkey in *. simpl in *.
  split; intros Hg.
  - apply resize_gate_true in Hg. rewrite Hg in *. auto.
  - assert (Hf : resize_gate env tag_key target_type = false).
    { destruct (resize_gate env tag_key target_type) eqn:E; [|reflexivity].
      apply resize_gate_true in E. contradiction. }
    rewrite Hf in *. rewrite app_nil_r in *. auto.
Qed.

Lemma resize_issues_update_iff_gate_witness :
  let env := MkEnv "env-a" "arn:a" {[ "auto-upgrade" := Some " True " ]} (Some "t3a.nano") in
  let w := MkWorld (fun _ => Returns []) (fun _ => Returns [])
             (fun _ _ => Returns []) (fun _ _ _ => Returns tt)
             (fun _ _ _ => Returns tt) "2026/01/01" "00-00-00" in
  calls (snd (initiate_eb_environment_upgrade w env "app" "auto-upgrade" "r6a.large"
                initial_state))
  = [update_call "app" "env-a" "r6a.large"].
Proof.
  intros env w.
  refine (proj1 (proj1 (resize_issues_update_iff_gate w env "app" "auto-upgrade"
                          "r6a.large" initial_state _) _)).
  - reflexivity.
  - split; [|discriminate].
    exists " True ". split; [reflexivity|].
    exists " ", "True", " ". split; [reflexivity|]. split; [reflexivity|].
    split; [reflexivity|].
    exists "T"%char, "r"%char, "u"%char, "e"%char.
    split; [reflexivity|]. split; [right; reflexivity|].
    split; [left; reflexivity|]. split; left; reflexivity.
Defined.

(** ** Upgrade and downgrade differ in their log prefix only *)

Lemma replicate_prefix (n : nat) (p r : string) :
  replicate n (p +:+ r) = map (String.append p) (replicate n r).
Proof. induction n; simpl; congruence. Qed.

(** C10. For every input and every state, the upgrade and the downgrade
    operation return the same result and leave the same trace of calls; the
    log lines they add are the same texts behind the prefix [UPGRADE],
    respectively [DOWNGRADE]. *)
Theorem upgrade_downgrade_same_up_to_prefix (w : world) (env : environment)
    (application_name tag_key target_type : string) (s : state) :
  let up := initiate_eb_environment_upgrade w env application_name tag_key target_type s in
  let down :=
    initiate_eb_environment_downgrade w env application_name tag_key target_type s in
  fst up = fst down
  /\ calls (snd up) = calls (snd down)
  /\ calls (snd up) = calls s ++ resize_calls env application_name tag_key target_type
  /\ mem_handlers (snd up) = mem_handlers (snd down)
  /\ exists texts : list string,
       log_lines (snd up) = log_lines s ++ map (String.append "[UPGRADE]") texts
       /\ log_lines (snd down) = log_lines s ++ map (String.append "[DOWNGRADE]") texts.
Proof.
  intros up down.
  destruct (upgrade_result_calls w env application_name tag_key target_type s)
    as [Hur Huc].
  destruct (downgrade_result_calls w env application_name tag_key target_type s)
    as [Hdr Hdc].
  fold up in Hur, Huc. fold down in Hdr, Hdc.
  split; [congruence|]. split; [congruence|]. split; [assumption|].
  subst up down.
  unfold initiate_eb_environment_upgrade, initiate_eb_environment_downgrade.
  destruct (Py.truthy tag_key); run_M.
  2: { split; [reflexivity|].
       exists (replicate (mem_handlers s)
                 (" " +:+ name env +:+ ": no tag key configured; skipping.")).
       rewrite <- !replicate_prefix. split; reflexivity. }
  destruct (tag_is_true (tags env) tag_key); run_M.
  2: { split; [reflexivity|].
       exists (replicate (mem_handlers s)
                 (" " +:+ name env +:+ ": tag " +:+ tag_key +:+ " != 'true'; skipping.")).
       rewrite <- !replicate_prefix. split; reflexivity. }
  destruct (bool_decide (current_instance_type env = Some target_type)); run_M.
  { split; [reflexivity|].
    exists (replicate (mem_handlers s)
              (" " +:+ name env +:+ ": already "
               +:+ Py.str_opt (current_instance_type env) +:+ "; skipping.")).
    rewrite <- !replicate_prefix. split; reflexivity. }
  destruct (update_environment w application_name (name env) target_type) as [[]|e]; run_M.
  { split; [reflexivity|].
    exists (replicate (mem_handlers s)
              (" Update sent for " +:+ name env +:+ " -> " +:+ target_type)).
    rewrite <- !replicate_prefix. split; reflexivity. }
  destruct (is_ClientError e); run_M.
  { split; [reflexivity|].
    exists (replicate (mem_handlers s)
              (" AWS Client Error for " +:+ name env +:+ ": " +:+ exn_msg e)).
    rewrite <- !replicate_prefix. split; reflexivity. }
  destruct (is_Exception e); run_M.
  { split; [reflexivity|].
    exists (replicate (mem_handlers s)
              (" Unexpected error for " +:+ name env +:+ ": " +:+ exn_msg e)).
    rewrite <- !replicate_prefix. split; reflexivity. }
  split; [reflexivity|]. exists []. simpl. rewrite app_nil_r. split; reflexivity.
Qed.

(** ** The branch taken when no mode is given *)

(** The loop body of that branch, with the inline configuration. *)
Definition step_both (w : world) : environment -> M unit :=
  process_both w APPLICATION_NAME UPGRADE_TAG_KEY UPGRADE_INSTANCE_TYPE
    DEGRADE_TAG_KEY DEGRADE_INSTANCE_TYPE.






(** ** The tag scanner *)

(** At least one of the two supplied (non-empty) keys is present with value
    "true". *)
Definition gated (upgrade_tag_key degrade_tag_key : option string)
    (tags : gmap string (option string)) : Prop :=
  (exists k, upgrade_tag_key = Some k /\ k <> "" /\ present_true tags k)
  \/ (exists k, degrade_tag_key = Some k /\ k <> "" /\ present_true tags k).

Lemma truthy_nonempty (k : string) : Py.truthy k = true <-> k <> "".
Proof. destruct k; simpl; split; congruence. Qed.

Lemma has_true_spec (tags : gmap string (option string)) (k : option string) :
  has_true tags k = true <->
  exists key, k = Some key /\ key <> "" /\ present_true tags key.
Proof.
  unfold has_true. destruct k as [key|].
  - destruct (Py.truthy key) eqn:T.
    + rewrite tag_is_true_present. apply truthy_nonempty in T. split.
      * intros H. exists key. auto.
      * intros (k' & [= <-] & _ & H). exact H.
    + split; [discriminate|]. intros (k' & [= <-] & Hne & _).
      apply truthy_nonempty in Hne. congruence.
  - split; [discriminate|]. intros (k' & [=] & _).
Qed.

Lemma gated_spec (uk dk : option string) (tags : gmap string (option string)) :
  has_true tags uk || has_true tags dk = true <-> gated uk dk tags.
Proof.
  unfold gated. rewrite orb_true_iff, !has_true_spec. reflexivity.
Qed.

(** A descriptor stems from an entry of the listing: its name and ARN are
    the entry's and its tag mapping is built from the tags fetched for that
    ARN. *)
Definition stems_from (w : world) (listing : list env_summary) (d : environment) : Prop :=
  exists (e : env_summary) (resource_tags : list tag_entry),
    In e listing
    /\ name d = EnvironmentName e /\ arn d = EnvironmentArn e
    /\ list_tags_for_resource w (arn d) = Returns resource_tags
    /\ tags d = build_tags resource_tags ∅.

Lemma stems_from_cons (w : world) (e : env_summary) (listing : list env_summary)
    (d : environment) :
  stems_from w listing d -> stems_from w (e :: listing) d.
Proof.
  intros (e' & rt & Hin & H). exists e', rt. split; [right; exact Hin | exact H].
Qed.

Lemma scan_loop_added (w : world) (application_name : string)
    (uk dk : option string) (envs : list env_summary) :
  forall (acc : list environment) (s : state),
  exists added : list environment,
    snd (fst (scan_loop w application_name uk dk envs acc s)) = acc ++ added
    /\ Forall (fun d => gated uk dk (tags d) /\ stems_from w envs d) added.
Proof.
  induction envs as [|e rest IH]; intros acc s; simpl.
  - exists []. split; [now rewrite app_nil_r | constructor].
  - destruct (list_tags_for_resource w (EnvironmentArn e)) as [rt|x] eqn:Ht.
    2: { exists []. split; [now rewrite app_nil_r | constructor]. }
    destruct (has_true (build_tags rt ∅) uk || has_true (build_tags rt ∅) dk) eqn:G;
      simpl.
    + destruct (fetch_current_instance_type w application_name (EnvironmentName e) _)
        as [[cur|x] s2] eqn:Hf.
      * destruct (IH (acc ++ [MkEnv (EnvironmentName e) (EnvironmentArn e)
                                 (build_tags rt ∅) cur]) s2) as (added & Heq & Hall).
        exists (MkEnv (EnvironmentName e) (EnvironmentArn e) (build_tags rt ∅) cur
                :: added).
        split.
        { rewrite Heq, <- app_assoc. reflexivity. }
        constructor.
        { split; [apply gated_spec; exact G|].
          exists e, rt. simpl. repeat split; auto. }
        eapply Forall_impl; [exact Hall|].
        intros d [Hg Hs]. split; [exact Hg | apply stems_from_cons; exact Hs].
      * exists []. split; [now rewrite app_nil_r | constructor].
    + destruct (IH acc (snd (record_call (ListTagsForResource (EnvironmentArn e)) s)))
        as (added & Heq & Hall).
      exists added. split; [exact Heq|].
      eapply Forall_impl; [exact Hall|].
      intros d [Hg Hs]. split; [exact Hg | apply stems_from_cons; exact Hs].
Qed.

(** What [find_tagged_environments] hands back, if it returns: the
    descriptors accumulated by the loop. *)
Lemma find_tagged_environments_cases (w : world) (application_name : string)
    (uk dk : option string) (s : state) :
  match fst (find_tagged_environments w application_name uk dk s) with
  | Returns envs =>
      match describe_environments w application_name with
      | Returns listing =>
          Forall (fun d => gated uk dk (tags d) /\ stems_from w listing d) envs
      | Raises _ => envs = []
      end
  | Raises x => is_Exception x = false
  end.
Proof.
  unfold find_tagged_environments.
  destruct (describe_environments w application_name) as [listing|x] eqn:Hd.
  - pose proof (scan_loop_added w application_name uk dk listing []
                  (snd (record_call (DescribeEnvironments application_name) s)))
      as (added & Heq & Hall).
    destruct (scan_loop w application_name uk dk listing [] _) as [[r acc'] s1].
    simpl in Heq. subst acc'.
    destruct r as [[]|x]; simpl.
    + exact Hall.
    + destruct (is_ClientError x) eqn:Hc; simpl; [exact Hall|].
      destruct (is_Exception x) eqn:He; simpl; [exact Hall | exact He].
  - simpl. destruct (is_ClientError x) eqn:Hc; simpl; [reflexivity|].
    destruct (is_Exception x) eqn:He; simpl; [reflexivity | exact He].
Qed.

(** C4. Every descriptor in the list the scanner returns carries at least
    one of the two supplied tag keys with a value that is "true" after
    trimming and lowering, and stems from a listed environment whose fetched
    tags it holds; hence a listed environment whose tags carry neither has no
    descriptor in the list.  The scanner fails to return a list only on an
    exception that is not an [Exception]. *)
Theorem scanner_returns_only_gated (w : world) (application_name : string)
    (uk dk : option string) (s : state) :
  match fst (find_tagged_environments w application_name uk dk s) with
  | Returns envs =>
      Forall (fun d => gated uk dk (tags d)) envs
      /\ (forall (listing : list env_summary) (e : env_summary)
                 (resource_tags : list tag_entry),
            describe_environments w application_name = Returns listing ->
            In e listing ->
            list_tags_for_resource w (EnvironmentArn e) = Returns resource_tags ->
            ~ gated uk dk (build_tags resource_tags ∅) ->
            ~ exists d, In d envs /\ arn d = EnvironmentArn e)
  | Raises x => is_Exception x = false
  end.
Proof.
  pose proof (find_tagged_environments_cases w application_name uk dk s) as H.
  destruct (fst (find_tagged_environments w application_name uk dk s)) as [envs|x];
    [|exact H].
  destruct (describe_environments w application_name) as [listing|x] eqn:Hd.
  - split.
    + eapply Forall_impl; [exact H|]. intros d [Hg _]. exact Hg.
    + intros listing' e rt [= <-] Hin Ht Hng (d & Hd' & Harn).
      rewrite Forall_forall in H. destruct (H d) as [Hg Hs].
      { apply list_elem_of_In. exact Hd'. }
      destruct Hs as (e' & rt' & _ & _ & _ & Ht' & Htags).
      rewrite Harn, Ht in Ht'. injection Ht' as <-.
      rewrite Htags in Hg. contradiction.
  - subst envs. split; [constructor|].
    intros listing e rt [=].
Qed.

(** The gate of the scanner on a listed environment, read off the tags the
    service holds for it. *)
Definition listed_gate (w : world) (uk dk : option string) (e : env_summary) : bool :=
  match list_tags_for_resource w (EnvironmentArn e) with
  | Returns resource_tags =>
      has_true (build_tags resource_tags ∅) uk || has_true (build_tags resource_tags ∅) dk
  | Raises _ => false
  end.

Lemma fetch_current_returns (w : world) (application_name env_name : string) (s : state) :
  (forall a n x, describe_configuration_settings w a n = Raises x ->
                 is_Exception x = true) ->
  exists cur s', fetch_current_instance_type w application_name env_name s
                 = (Returns cur, s').
Proof.
  intros Hw. unfold fetch_current_instance_type. run_M.
  destruct (describe_configuration_settings w application_name env_name) as [l|x] eqn:E.
  - eauto.
  - destruct (is_ClientError x); run_M; [eauto|].
    rewrite (Hw _ _ _ E). run_M. eauto.
Qed.

Lemma scan_loop_complete (w : world) (application_name : string)
    (uk dk : option string) (envs : list env_summary) :
  (forall e, In e envs ->
     exists rt, list_tags_for_resource w (EnvironmentArn e) = Returns rt) ->
  (forall a n x, describe_configuration_settings w a n = Raises x ->
                 is_Exception x = true) ->
  forall (acc : list environment) (s : state),
  fst (fst (scan_loop w application_name uk dk envs acc s)) = Returns tt
  /\ map arn (snd (fst (scan_loop w application_name uk dk envs acc s)))
     = map arn acc ++ map EnvironmentArn (List.filter (listed_gate w uk dk) envs).
Proof.
  intros Htags Hcfg. induction envs as [|e rest IH]; intros acc s.
  - simpl. rewrite app_nil_r. auto.
  - assert (Hrest : forall e', In e' rest ->
              exists rt, list_tags_for_resource w (EnvironmentArn e') = Returns rt)
      by (intros e' He'; apply Htags; right; exact He').
    specialize (IH Hrest).
    destruct (Htags e (or_introl eq_refl)) as (rt & Hrt).
    cbn [scan_loop List.filter]. unfold listed_gate at 1. rewrite Hrt.
    destruct (has_true (build_tags rt ∅) uk || has_true (build_tags rt ∅) dk) eqn:G;
      cbn [negb].
    + destruct (fetch_current_returns w application_name (EnvironmentName e)
                  (snd (record_call (ListTagsForResource (EnvironmentArn e)) s)) Hcfg)
        as (cur & s2 & Hf).
      rewrite Hf.
      destruct (IH (acc ++ [MkEnv (EnvironmentName e) (EnvironmentArn e)
                                 (build_tags rt ∅) cur]) s2) as [Hr Hm].
      split; [exact Hr|]. rewrite Hm, map_app. simpl. rewrite <- app_assoc. reflexivity.
    + apply IH.
Qed.

(** X24. When the listing, every tag fetch and (up to an [Exception]) every
    configuration fetch answer, the scanner returns one descriptor for each
    listed environment that passes the gate, in the order of the listing. *)
Lemma scanner_keeps_every_gated (w : world) (application_name : string)
    (uk dk : option string) (s : state) (listing : list env_summary) :
  describe_environments w application_name = Returns listing ->
  (forall e, In e listing ->
     exists rt, list_tags_for_resource w (EnvironmentArn e) = Returns rt) ->
  (forall a n x, describe_configuration_settings w a n = Raises x ->
                 is_Exception x = true) ->
  exists envs,
    fst (find_tagged_environments w application_name uk dk s) = Returns envs
    /\ map arn envs = map EnvironmentArn (List.filter (listed_gate w uk dk) listing).
Proof.
  intros Hd Htags Hcfg. unfold find_tagged_environments. rewrite Hd.
  destruct (scan_loop_complete w application_name uk dk listing Htags Hcfg []
              (snd (record_call (DescribeEnvironments application_name) s)))
    as [Hr Hm].
  destruct (scan_loop w application_name uk dk listing [] _) as [[r acc'] s1].
  simpl in Hr, Hm. subst r. simpl. eauto.
Qed.

(** Two environments, the first tagged for an upgrade: the scan keeps the
    first only. *)
Example scan_keeps_tagged_environment :
  let w := MkWorld
             (fun _ => Returns [MkEnvSummary "env-a" "arn:a"; MkEnvSummary "env-b" "arn:b"])
             (fun a => if String.eqb a "arn:a"
                       then Returns [MkTag (Some "auto-upgrade") (Some " TRUE ")]
                       else Returns [MkTag (Some "auto-degrade") (Some "false")])
             (fun _ _ => Returns [[MkOption (Some "aws:autoscaling:launchconfiguration")
                                     (Some "InstanceType") (Some "t3a.nano")]])
             (fun _ _ _ => Returns tt) (fun _ _ _ => Returns tt)
             "2026/01/01" "00-00-00" in
  fst (find_tagged_environments w APPLICATION_NAME (Some "auto-upgrade")
         (Some "auto-degrade") initial_state)
  = Returns [MkEnv "env-a" "arn:a" {[ "auto-upgrade" := Some " TRUE " ]}
               (Some "t3a.nano")].
Proof. vm_compute. reflexivity. Qed.

(** ** What the main body leaves untouched

    [steady s s'] : from [s] to [s'] the log only grew, the trace only grew
    and by no upload, and the attached handlers are the same. *)

Definition is_upload (c : call) : bool :=
  match c with
  | PutObject _ _ _ => true
  | _ => false
  end.

Definition uploads (cs : list call) : list call := List.filter is_upload cs.

Definition steady (s s' : state) : Prop :=
  (exists l, log_lines s' = log_lines s ++ l)
  /\ (exists c, calls s' = calls s ++ c /\ uploads c = [])
  /\ mem_handlers s' = mem_handlers s.

Lemma steady_refl (s : state) : steady s s.
Proof.
  split; [|split].
  - exists []. now rewrite app_nil_r.
  - exists []. split; [now rewrite app_nil_r | reflexivity].
  - reflexivity.
Qed.

Lemma steady_trans (s1 s2 s3 : state) : steady s1 s2 -> steady s2 s3 -> steady s1 s3.
Proof.
  intros ((l1 & H1) & (c1 & Hc1 & Hu1) & Hm1) ((l2 & H2) & (c2 & Hc2 & Hu2) & Hm2).
  repeat split.
  - exists (l1 ++ l2). rewrite H2, H1, app_assoc. reflexivity.
  - exists (c1 ++ c2). split.
    + rewrite Hc2, Hc1, app_assoc. reflexivity.
    + unfold uploads in *. rewrite List.filter_app, Hu1, Hu2. reflexivity.
  - congruence.
Qed.

Lemma steady_log (msg : string) (s : state) : steady s (snd (log msg s)).
Proof.
  repeat split; simpl.
  - eexists; reflexivity.
  - exists []. split; [now rewrite app_nil_r | reflexivity].
Qed.

Lemma steady_record (c : call) (s : state) :
  is_upload c = false -> steady s (snd (record_call c s)).
Proof.
  intros Hc. repeat split; simpl.
  - exists []. now rewrite app_nil_r.
  - exists [c]. split; [reflexivity|]. unfold uploads. simpl. now rewrite Hc.
Qed.

Lemma steady_bind {A B : Type} (m : M A) (f : A -> M B) (s : state) :
  steady s (snd (m s)) ->
  (forall a s1, steady s1 (snd (f a s1))) ->
  steady s (snd ((m ≫= f) s)).
Proof.
  intros Hm Hf. unfold mbind, M_bind.
  destruct (m s) as [[a|e] s1]; simpl in *.
  - eapply steady_trans; [exact Hm | apply Hf].
  - exact Hm.
Qed.

Lemma steady_ret {A : Type} (a : A) (s : state) :
  steady s (snd ((mret a : M A) s)).
Proof. apply steady_refl. Qed.

Lemma steady_raise {A : Type} (e : exn) (s : state) : steady s (snd (@raise A e s)).
Proof. apply steady_refl. Qed.

Ltac steady_step :=
  first
    [ apply steady_bind; [|intros ? ?]
    | apply steady_log
    | apply steady_ret
    | apply steady_raise
    | apply steady_record; reflexivity
    | apply steady_refl ].

Lemma steady_upgrade (w : world) (env : environment)
    (application_name tag_key target_type : string) (s : state) :
  steady s (snd (initiate_eb_environment_upgrade w env application_name tag_key
                   target_type s)).
Proof.
  unfold initiate_eb_environment_upgrade.
  destruct (negb (Py.truthy tag_key)); [repeat steady_step|].
  destruct (negb (tag_is_true (tags env) tag_key)); [repeat steady_step|].
  destruct (bool_decide _); [repeat steady_step|].
  steady_step; [steady_step|].
  destruct (update_environment w application_name (name env) target_type) as [u|e];
    [repeat steady_step|].
  destruct (is_ClientError e); [repeat steady_step|].
  destruct (is_Exception e); repeat steady_step.
Qed.

Lemma steady_downgrade (w : world) (env : environment)
    (application_name tag_key target_type : string) (s : state) :
  steady s (snd (initiate_eb_environment_downgrade w env application_name tag_key
                   target_type s)).
Proof.
  unfold initiate_eb_environment_downgrade.
  destruct (negb (Py.truthy tag_key)); [repeat steady_step|].
  destruct (negb (tag_is_true (tags env) tag_key)); [repeat steady_step|].
  destruct (bool_decide _); [repeat steady_step|].
  steady_step; [steady_step|].
  destruct (update_environment w application_name (name env) target_type) as [u|e];
    [repeat steady_step|].
  destruct (is_ClientError e); [repeat steady_step|].
  destruct (is_Exception e); repeat steady_step.
Qed.

Lemma steady_for_each {A : Type} (f : A -> M unit) (l : list A) :
  (forall a s, steady s (snd (f a s))) ->
  forall s, steady s (snd (for_each f l s)).
Proof.
  intros Hf. induction l as [|x rest IH]; intros s; simpl.
  - apply steady_refl.
  - apply steady_bind; [apply Hf | intros _ s1; apply IH].
Qed.

Lemma steady_fetch (w : world) (application_name env_name : string) (s : state) :
  steady s (snd (fetch_current_instance_type w application_name env_name s)).
Proof.
  unfold fetch_current_instance_type.
  steady_step; [steady_step|].
  destruct (describe_configuration_settings w application_name env_name) as [l|e];
    [repeat steady_step|].
  destruct (is_ClientError e); [repeat steady_step|].
  destruct (is_Exception e); repeat steady_step.
Qed.

Lemma steady_scan_loop (w : world) (application_name : string)
    (uk dk : option string) (envs : list env_summary) :
  forall acc s, steady s (snd (scan_loop w application_name uk dk envs acc s)).
Proof.
  induction envs as [|e rest IH]; intros acc s; simpl.
  - apply steady_refl.
  - assert (H1 : steady s (snd (record_call (ListTagsForResource (EnvironmentArn e)) s)))
      by (apply steady_record; reflexivity).
    simpl in H1.
    destruct (list_tags_for_resource w (EnvironmentArn e)) as [rt|x]; [|exact H1].
    destruct (negb _).
    + eapply steady_trans; [exact H1 | apply IH].
    + pose proof (steady_fetch w application_name (EnvironmentName e)
                    (snd (record_call (ListTagsForResource (EnvironmentArn e)) s)))
        as H2.
      simpl in H2.
      destruct (fetch_current_instance_type w application_name (EnvironmentName e) _)
        as [[cur|x] s2]; simpl in H2.
      * eapply steady_trans; [exact H1|]. eapply steady_trans; [exact H2 | apply IH].
      * simpl. eapply steady_trans; [exact H1 | exact H2].
Qed.

Lemma steady_find (w : world) (application_name : string)
    (uk dk : option string) (s : state) :
  steady s (snd (find_tagged_environments w application_name uk dk s)).
Proof.
  unfold find_tagged_environments.
  assert (H0 : steady s (snd (record_call (DescribeEnvironments application_name) s)))
    by (apply steady_record; reflexivity).
  destruct (describe_environments w application_name) as [listing|x].
  - pose proof (steady_scan_loop w application_name uk dk listing []
                  (snd (record_call (DescribeEnvironments application_name) s))) as H1.
    destruct (scan_loop w application_name uk dk listing [] _) as [[r acc'] s1].
    simpl in H1.
    assert (H : steady s s1) by (eapply steady_trans; eassumption).
    destruct r as [[]|x]; simpl; [exact H|].
    destruct (is_ClientError x); simpl.
    { eapply steady_trans; [exact H | apply steady_log]. }
    destruct (is_Exception x); simpl; [|exact H].
    eapply steady_trans; [exact H | apply steady_log].
  - destruct (is_ClientError x); simpl.
    { eapply steady_trans; [exact H0|].
      exact (steady_log ("AWS Client Error describing environments: " +:+ exn_msg x) _). }
    destruct (is_Exception x); simpl; [|exact H0].
    eapply steady_trans; [exact H0|].
    exact (steady_log ("Error while trying to list environments: " +:+ exn_msg x) _).
Qed.

Lemma steady_process_both (w : world) (a uk ut dk dt : string) (env : environment)
    (s : state) :
  steady s (snd (process_both w a uk ut dk dt env s)).
Proof.
  unfold process_both. apply steady_bind.
  - destruct (_ && _); [apply steady_upgrade | apply steady_ret].
  - intros did s1. destruct (_ && _); [|apply steady_ret].
    apply steady_bind; [apply steady_downgrade | intros; apply steady_ret].
Qed.

Lemma steady_main_body (w : world) (mode : option string) (s : state) :
  steady s (snd (main_body w mode s)).
Proof.
  unfold main_body. apply steady_bind; [|intros; apply steady_log].
  destruct (bool_decide (mode = Some "upgrade")).
  { apply steady_bind; [apply steady_find|]. intros envs s1.
    apply steady_for_each. intros env s2.
    destruct (_ && _); [|apply steady_ret].
    apply steady_bind; [apply steady_upgrade | intros; apply steady_ret]. }
  destruct (bool_decide (mode = Some "downgrade")).
  { apply steady_bind; [apply steady_find|]. intros envs s1.
    apply steady_for_each. intros env s2.
    destruct (_ && _); [|apply steady_ret].
    apply steady_bind; [apply steady_downgrade | intros; apply steady_ret]. }
  apply steady_bind; [apply steady_find|]. intros envs s1.
  apply steady_for_each. intros env s2. apply steady_process_both.
Qed.

(** ** The log flush of the handler *)

(** Every failure of the storage write is a [ClientError], the one exception
    [upload_logs_to_s3] catches. *)
Definition uploads_contained (w : world) : Prop :=
  forall (bucket key data : string) (e : exn),
    put_object w bucket key data = Raises e -> is_ClientError e = true.

Definition archive_upload (w : world) (aws_request_id content : string) : call :=
  PutObject S3_LOG_BUCKET (dated_key w aws_request_id) content.

Definition latest_upload (content : string) : call :=
  PutObject S3_LOG_BUCKET latest_key content.

(** The bytes the [finally] block uploads when it starts in state [s]. *)
Definition flushed_content (s : state) : string :=
  PyText.encode_utf8 (Py.join Py.nl (log_lines s)).

Lemma upload_contained (w : world) (bucket key data description : string) (s : state) :
  uploads_contained w ->
  exists s', upload_logs_to_s3 w bucket key data description s = (Returns tt, s')
    /\ calls s' = calls s ++ [PutObject bucket key data]
    /\ mem_handlers s' = mem_handlers s.
Proof.
  intros Hw. unfold upload_logs_to_s3. run_M.
  destruct (put_object w bucket key data) as [[]|e] eqn:Hp; run_M.
  - eexists. split; [reflexivity|]. simpl. auto.
  - rewrite (Hw _ _ _ _ Hp). simpl. eexists. split; [reflexivity|]. simpl. auto.
Qed.

Lemma finally_block_contained (w : world) (aws_request_id : string) (s : state) :
  uploads_contained w ->
  exists s', finally_block w aws_request_id s = (Returns tt, s')
    /\ calls s' = calls s ++ [archive_upload w aws_request_id (flushed_content s);
                               latest_upload (flushed_content s)]
    /\ mem_handlers s' = pred (mem_handlers s).
Proof.
  intros Hw. unfold finally_block, get_log_lines, flushed_content,
    archive_upload, latest_upload.
  unfold mbind, M_bind.
  destruct (upload_contained w S3_LOG_BUCKET (dated_key w aws_request_id)
              (PyText.encode_utf8 (Py.join Py.nl (log_lines s))) "Archived Log" s Hw)
    as (s1 & E1 & Hc1 & Hm1).
  rewrite E1.
  destruct (upload_contained w S3_LOG_BUCKET latest_key
              (PyText.encode_utf8 (Py.join Py.nl (log_lines s))) "Latest Log" s1 Hw)
    as (s2 & E2 & Hc2 & Hm2).
  rewrite E2.
  unfold removeHandler. eexists. split; [reflexivity|]. simpl.
  rewrite Hc2, Hc1, Hm2, Hm1, <- app_assoc. auto.
Qed.

(** The state in which the [finally] block starts: after the [except]
    clause has logged, when the body raised an [Exception]. *)
Definition before_finally (rb : outcome unit) (sb : state) : state :=
  match rb with
  | Returns _ => sb
  | Raises e =>
      if is_Exception e
      then snd (log ("Something unexpected happened during execution: " +:+ exn_msg e) sb)
      else sb
  end.

Lemma before_finally_calls (rb : outcome unit) (sb : state) :
  calls (before_finally rb sb) = calls sb.
Proof. destruct rb as [u|e]; simpl; [reflexivity|]. destruct (is_Exception e); reflexivity. Qed.

(** The guarded statement around any body: the body's outcome is the
    statement's outcome, and the two uploads follow the body's calls. *)
Lemma guarded_contained (w : world) (aws_request_id : string) (body : M unit)
    (s : state) :
  uploads_contained w ->
  let rb := fst (body s) in
  let sb := snd (body s) in
  let content := flushed_content (before_finally rb sb) in
  fst (guarded w aws_request_id body s) = rb
  /\ calls (snd (guarded w aws_request_id body s))
     = calls sb ++ [archive_upload w aws_request_id content; latest_upload content]
  /\ mem_handlers (snd (guarded w aws_request_id body s)) = pred (mem_handlers sb).
Proof.
  intros Hw rb sb content. subst rb sb content.
  unfold guarded, try_finally, try_except_Exception.
  destruct (body s) as [[u|e] sb]; simpl fst; simpl snd.
  - destruct (finally_block_contained w aws_request_id sb Hw) as (sf & E & Hc & Hm).
    rewrite E. simpl. auto.
  - unfold before_finally. destruct (is_Exception e).
    + unfold mbind, M_bind, raise.
      set (sl := snd (log ("Something unexpected happened during execution: "
                           +:+ exn_msg e) sb)).
      change (log ("Something unexpected happened during execution: " +:+ exn_msg e) sb)
        with (Returns tt, sl).
      cbv beta iota.
      destruct (finally_block_contained w aws_request_id sl Hw) as (sf & E & Hc & Hm).
      rewrite E. simpl. auto.
    + destruct (finally_block_contained w aws_request_id sb Hw) as (sf & E & Hc & Hm).
      rewrite E. simpl. auto.
Qed.

(** The state in which the [try] statement starts. *)
Definition entry_state (event : option (gmap string string)) (s : state) : state :=
  snd (log ("Starting EB updates. mode=" +:+ PyText.repr_opt (default ∅ event !! "mode"))
         (snd (addHandler s))).

Lemma uploads_app (a b : list call) : uploads (a ++ b) = uploads a ++ uploads b.
Proof. unfold uploads. apply List.filter_app. Qed.

Lemma steady_uploads (s s' : state) : steady s s' -> uploads (calls s') = uploads (calls s).
Proof.
  intros (_ & (c & Hc & Hu) & _). rewrite Hc, uploads_app, Hu, app_nil_r. reflexivity.
Qed.

(** C6, amended. When every failure of the storage write is a
    [ClientError]: whether the main body returns or raises, the handler
    issues, after the main body's calls, exactly one archive upload and one
    "latest" upload with the same content, and no other upload; it returns
    status 200 with the fixed body when the main body returned, and raises
    the main body's exception when the main body raised. *)
Theorem flush_when_uploads_contained (w : world) (event : option (gmap string string))
    (aws_request_id : string) (s : state) :
  uploads_contained w ->
  let mode := default ∅ event !! "mode" in
  let s0 := entry_state event s in
  let rb := fst (main_body w mode s0) in
  let sb := snd (main_body w mode s0) in
  let content := flushed_content (before_finally rb sb) in
  let final := lambda_handler w event aws_request_id s in
  fst final = match rb with
              | Returns _ => Returns (MkResponse 200 response_body)
              | Raises e => Raises e
              end
  /\ calls (snd final)
     = calls sb ++ [archive_upload w aws_request_id content; latest_upload content]
  /\ uploads (calls (snd final))
     = uploads (calls s) ++ [archive_upload w aws_request_id content;
                             latest_upload content].
Proof.
  intros Hw mode s0 rb sb content final.
  destruct (guarded_contained w aws_request_id (main_body w mode) s0 Hw)
    as (Hr & Hc & _).
  fold rb sb content in Hr, Hc.
  assert (Hfinal : final =
            match guarded w aws_request_id (main_body w mode) s0 with
            | (Returns _, s') => (Returns (MkResponse 200 response_body), s')
            | (Raises e, s') => (Raises e, s')
            end) by reflexivity.
  destruct (guarded w aws_request_id (main_body w mode) s0) as [rg sg].
  simpl in Hr, Hc. subst rg.
  assert (Hfst : fst final = match rb with
                             | Returns _ => Returns (MkResponse 200 response_body)
                             | Raises e => Raises e
                             end)
    by (rewrite Hfinal; destruct rb; reflexivity).
  assert (Hsnd : snd final = sg) by (rewrite Hfinal; destruct rb; reflexivity).
  split; [exact Hfst|]. rewrite Hsnd. split; [exact Hc|].
  rewrite Hc, uploads_app.
  rewrite (steady_uploads s0 sb (steady_main_body w mode s0)).
  reflexivity.
Qed.

Definition quiet_world : world :=
  MkWorld (fun _ => Returns []) (fun _ => Returns [])
    (fun _ _ => Returns []) (fun _ _ _ => Returns tt)
    (fun _ _ _ => Returns tt) "2026/01/01" "00-00-00".

Lemma quiet_world_contained : uploads_contained quiet_world.
Proof. intros b k d e H. discriminate H. Defined.

Lemma flush_when_uploads_contained_witness :
  uploads (calls (snd (lambda_handler quiet_world None "req-1" initial_state)))
  = [archive_upload quiet_world "req-1"
       (flushed_content
          (before_finally
             (fst (main_body quiet_world None (entry_state None initial_state)))
             (snd (main_body quiet_world None (entry_state None initial_state)))));
     latest_upload
       (flushed_content
          (before_finally
             (fst (main_body quiet_world None (entry_state None initial_state)))
             (snd (main_body quiet_world None (entry_state None initial_state)))))].
Proof.
  exact (proj2 (proj2 (flush_when_uploads_contained quiet_world None "req-1"
                         initial_state quiet_world_contained))).
Defined.

(** A world whose storage write fails with an error that is not a
    [ClientError]. *)
Definition unreachable_storage : world :=
  MkWorld (fun _ => Returns []) (fun _ => Returns [])
    (fun _ _ => Returns []) (fun _ _ _ => Returns tt)
    (fun _ _ _ => Raises (MkExn OtherException "Could not connect to the endpoint URL"))
    "2026/01/01" "00-00-00".

(** C6, as stated, fails: the main body returns, the archive upload raises
    an error [upload_logs_to_s3] does not catch, the "latest" upload is
    never attempted and the handler raises instead of returning. *)
Lemma flush_skips_latest_upload :
  let final := lambda_handler unreachable_storage None "req-1" initial_state in
  fst (main_body unreachable_storage None (entry_state None initial_state)) = Returns tt
  /\ length (uploads (calls (snd final))) = 1
  /\ (forall content, ~ In (latest_upload content) (calls (snd final)))
  /\ fst final = Raises (MkExn OtherException "Could not connect to the endpoint URL").
Proof.
  split; [vm_compute; reflexivity|].
  split; [vm_compute; reflexivity|].
  split; [|vm_compute; reflexivity].
  intros content. vm_compute. intros H.
  repeat (destruct H as [H|H]; [discriminate H|]). exact H.
Qed.

(** ** The accumulator across runs

    [grows s s'] : every line of [log_lines s] is still there, in place. *)

Definition grows (s s' : state) : Prop :=
  exists l, log_lines s' = log_lines s ++ l.

Lemma grows_refl (s : state) : grows s s.
Proof. exists []. now rewrite app_nil_r. Qed.

Lemma grows_trans (s1 s2 s3 : state) : grows s1 s2 -> grows s2 s3 -> grows s1 s3.
Proof.
  intros (l1 & H1) (l2 & H2). exists (l1 ++ l2). rewrite H2, H1, app_assoc. reflexivity.
Qed.

Lemma steady_grows (s s' : state) : steady s s' -> grows s s'.
Proof. intros (H & _). exact H. Qed.

Lemma grows_bind {A B : Type} (m : M A) (f : A -> M B) (s : state) :
  grows s (snd (m s)) ->
  (forall a s1, grows s1 (snd (f a s1))) ->
  grows s (snd ((m ≫= f) s)).
Proof.
  intros Hm Hf. unfold mbind, M_bind.
  destruct (m s) as [[a|e] s1]; simpl in *.
  - eapply grows_trans; [exact Hm | apply Hf].
  - exact Hm.
Qed.

Lemma grows_log (msg : string) (s : state) : grows s (snd (log msg s)).
Proof. apply steady_grows, steady_log. Qed.

Lemma grows_upload (w : world) (bucket key data description : string) (s : state) :
  grows s (snd (upload_logs_to_s3 w bucket key data description s)).
Proof.
  unfold upload_logs_to_s3. apply grows_bind; [exists []; simpl; now rewrite app_nil_r|].
  intros _ s1. destruct (put_object w bucket key data) as [u|e]; [apply grows_log|].
  destruct (is_ClientError e); [apply grows_log | apply grows_refl].
Qed.

Lemma grows_finally_block (w : world) (aws_request_id : string) (s : state) :
  grows s (snd (finally_block w aws_request_id s)).
Proof.
  unfold finally_block. apply grows_bind; [apply grows_refl|]. intros lines s1.
  apply grows_bind; [apply grows_upload|]. intros _ s2.
  apply grows_bind; [apply grows_upload|]. intros _ s3.
  exists []. simpl. now rewrite app_nil_r.
Qed.

Lemma grows_guarded (w : world) (aws_request_id : string) (body : M unit) (s : state) :
  grows s (snd (body s)) -> grows s (snd (guarded w aws_request_id body s)).
Proof.
  intros Hb. unfold guarded, try_finally, try_except_Exception.
  destruct (body s) as [[u|e] sb]; simpl in Hb.
  - pose proof (grows_finally_block w aws_request_id sb) as Hf.
    destruct (finally_block w aws_request_id sb) as [rf sf]; simpl in Hf;
      destruct rf; simpl; eapply grows_trans; eassumption.
  - destruct (is_Exception e).
    + unfold mbind, M_bind, raise.
      set (sl := snd (log ("Something unexpected happened during execution: "
                           +:+ exn_msg e) sb)).
      change (log ("Something unexpected happened during execution: " +:+ exn_msg e) sb)
        with (Returns tt, sl).
      cbv beta iota.
      assert (Hl : grows s sl) by (eapply grows_trans; [exact Hb | apply grows_log]).
      pose proof (grows_finally_block w aws_request_id sl) as Hf.
      destruct (finally_block w aws_request_id sl) as [rf sf]; simpl in Hf;
        destruct rf; simpl; eapply grows_trans; eassumption.
    + pose proof (grows_finally_block w aws_request_id sb) as Hf.
      destruct (finally_block w aws_request_id sb) as [rf sf]; simpl in Hf;
        destruct rf; simpl; eapply grows_trans; eassumption.
Qed.

(** No run of the handler removes a line from [log_lines], and every run
    adds its opening line: after a run the accumulator is not empty. *)
Lemma log_lines_never_cleared (w : world) (event : option (gmap string string))
    (aws_request_id : string) (s : state) :
  exists added,
    log_lines (snd (lambda_handler w event aws_request_id s))
    = log_lines s
      ++ ("Starting EB updates. mode=" +:+ PyText.repr_opt (default ∅ event !! "mode"))
      :: added.
Proof.
  assert (H : grows (entry_state event s)
                (snd (lambda_handler w event aws_request_id s))).
  { change (snd (lambda_handler w event aws_request_id s))
      with (snd ((guarded w aws_request_id
                    (main_body w (default ∅ event !! "mode")) ;;
                  mret (MkResponse 200 response_body)) (entry_state event s))).
    apply grows_bind; [|intros; apply grows_refl].
    apply grows_guarded, steady_grows, steady_main_body. }
  destruct H as (l & Hl). rewrite Hl. unfold entry_state. simpl.
  exists (replicate (mem_handlers s)
            ("Starting EB updates. mode="
             +:+ PyText.repr_opt (default ∅ event !! "mode")) ++ l).
  rewrite <- app_assoc. reflexivity.
Qed.

End ResizeProofs.

(** * Properties of the start/stop handler *)

Module StartStopProofs.
Import StartStop.
Local Open Scope list_scope.

Ltac run_M :=
  unfold mbind, M_bind, mret, M_ret, record_call, logger, append_line, raise,
    get_clock, get_text_file_content; simpl.

(** ** The tagged-instance finder *)

Definition control_tag_key (ec2_state_flag : string) : string :=
  if String.eqb ec2_state_flag "running" then "CNTRL-STOP" else "CNTRL-START".

(** The filters of the single listing call. *)
Definition finder_filters (ec2_state_flag : string) : list filter :=
  [MkFilter ("tag:" +:+ control_tag_key ec2_state_flag) ["true"; "True"];
   MkFilter "instance-state-name" [ec2_state_flag]].

Lemma In_concat_answer (keep : instance -> bool) (rs : list reservation) (i : instance) :
  In i (concat (answer keep rs)) <-> In i (concat rs) /\ keep i = true.
Proof.
  unfold answer. rewrite !in_concat. split.
  - intros (r & Hr & Hi). apply filter_In in Hr as [Hr _].
    apply in_map_iff in Hr as (r0 & <- & Hr0).
    apply filter_In in Hi as [Hi Hk]. split; [|exact Hk]. exists r0. auto.
  - intros [(r0 & Hr0 & Hi) Hk]. exists (List.filter keep r0).
    assert (Hin : In i (List.filter keep r0)) by (apply filter_In; auto).
    split; [|exact Hin]. apply filter_In. split.
    + apply in_map_iff. exists r0. auto.
    + destruct (List.filter keep r0); [destruct Hin | reflexivity].
Qed.

Lemma existsb_eqb_In (v : string) (values : list string) :
  existsb (String.eqb v) values = true <-> In v values.
Proof.
  rewrite existsb_exists. split.
  - intros (x & Hin & Heq). apply String.eqb_eq in Heq. now subst.
  - intros Hin. exists v. split; [exact Hin | apply String.eqb_refl].
Qed.

Lemma has_tag_in_spec (key : string) (values : list string) (i : instance) :
  has_tag_in key values i = true <->
  exists t, In t (Tags i) /\ Key t = key /\ In (Value t) values.
Proof.
  unfold has_tag_in. rewrite existsb_exists. split.
  - intros (t & Hin & H). apply andb_true_iff in H as [Hk Hv].
    apply String.eqb_eq in Hk. apply existsb_eqb_In in Hv. eauto.
  - intros (t & Hin & Hk & Hv). exists t. split; [exact Hin|].
    apply andb_true_iff. split; [now apply String.eqb_eq | now apply existsb_eqb_In].
Qed.

Lemma selects_finder_filters (flag : string) (i : instance) :
  flag = "running" \/ flag = "stopped" ->
  selects (finder_filters flag) i = true <->
  State_Name i = flag
  /\ exists t, In t (Tags i) /\ Key t = control_tag_key flag
               /\ (Value t = "true" \/ Value t = "True").
Proof.
  intros Hflag.
  assert (Hsel : selects (finder_filters flag) i
                 = has_tag_in (control_tag_key flag) ["true"; "True"] i
                   && (existsb (String.eqb (State_Name i)) [flag] && true)).
  { destruct Hflag as [-> | ->]; reflexivity. }
  rewrite Hsel, andb_true_iff, andb_true_r, has_tag_in_spec, existsb_eqb_In.
  simpl. split.
  - intros [(t & Hin & Hk & Hv) Hs]. split; [intuition congruence|].
    exists t. intuition.
  - intros [Hs (t & Hin & Hk & Hv)]. split; [|left; congruence].
    exists t. intuition.
Qed.

(** C8, amended. For a state "running" or "stopped" the finder issues one
    listing call, filtered on the mapped control tag with the values "true"
    and "True" and on the given state; the listing selects exactly the
    instances in that state whose control tag's value is literally "true" or
    "True". *)
Theorem finder_selects_literal_true (w : world) (ec2_state_flag : string) (s : state) :
  ec2_state_flag = "running" \/ ec2_state_flag = "stopped" ->
  let found := get_tagged_ec2_instances_by_state w ec2_state_flag s in
  calls (snd found)
    = calls s ++ [DescribeInstancesFiltered (finder_filters ec2_state_flag)]
  /\ exists rs : list reservation,
      fst found = Done rs
      /\ forall i : instance,
          In i (concat rs) <->
          In i (concat (map (map listed) (fleet w)))
          /\ State_Name i = ec2_state_flag
          /\ exists t, In t (Tags i) /\ Key t = control_tag_key ec2_state_flag
                       /\ (Value t = "true" \/ Value t = "True").
Proof.
  intros Hflag found.
  assert (Hfound : found =
            (Done (describe_filtered w (finder_filters ec2_state_flag)),
             snd (record_call
                    (DescribeInstancesFiltered (finder_filters ec2_state_flag)) s))).
  { subst found. destruct Hflag as [-> | ->]; reflexivity. }
  rewrite Hfound. simpl. split; [reflexivity|].
  eexists. split; [reflexivity|].
  intros i. unfold describe_filtered.
  rewrite In_concat_answer, (selects_finder_filters _ _ Hflag). tauto.
Qed.

Definition no_failures (fleet : list (list machine)) (hour : nat) : world :=
  MkWorld fleet (fun _ => Returns tt) (fun _ => Returns tt) (fun _ _ _ => Returns tt)
    hour (fun t => "t" +:+ Py.str_nat t) (fun d => Py.str_nat d).

Lemma finder_selects_literal_true_witness :
  let m := MkMachine "i-1" [MkTag "CNTRL-STOP" "True"; MkTag "Name" "web"] "running"
             (fun _ => "running") in
  calls (snd (get_tagged_ec2_instances_by_state (no_failures [[m]] 14) "running"
                initial_state))
  = [DescribeInstancesFiltered (finder_filters "running")].
Proof.
  intros m.
  exact (proj1 (finder_selects_literal_true (no_failures [[m]] 14) "running"
                  initial_state (or_introl eq_refl))).
Defined.

(** C8, as stated, fails: a running machine whose control tag is "TRUE",
    which is "true" once trimmed and lowered, is not selected. *)
Lemma finder_misses_uppercase_true :
  let m := MkMachine "i-1" [MkTag "CNTRL-STOP" "TRUE"; MkTag "Name" "web"] "running"
             (fun _ => "running") in
  Py.lower (Py.strip "TRUE") = "true"
  /\ In (listed m) (concat (map (map listed) (fleet (no_failures [[m]] 14))))
  /\ State_Name (listed m) = "running"
  /\ fst (get_tagged_ec2_instances_by_state (no_failures [[m]] 14) "running"
            initial_state) = Done [].
Proof.
  intros m. split; [reflexivity|]. split; [left; reflexivity|].
  split; reflexivity.
Qed.

(** ** A run outside the two scheduled hours *)

(** The text [text_file_commit] uploads for a list of lines. *)
Definition merged (lines : list string) : string :=
  fold_left (fun acc line => acc +:+ line +:+ Py.nl) lines "".

Definition stamped (w : world) (t : nat) (level text : string) : string :=
  level +:+ "  [" +:+ ctime w t +:+ "] " +:+ text.

Definition stop_skipped_line (w : world) (t : nat) : string :=
  stamped w t "[INFO]" "Auto-Stop will Only be triggered at 8 pm IST ".

Definition start_skipped_line (w : world) (t : nat) : string :=
  stamped w t "[INFO]" "Auto-Start will Only be triggered at 8 am IST".

(** The lines a run appends when neither pass is due, the clock reading [t]. *)
Definition off_hours_lines (w : world) (t : nat) : list string :=
  [ "<--------------------LOGS STARTED------------------->";
    stamped w t "[INFO]" "Lambda Execution Started";
    stop_skipped_line w t;
    start_skipped_line w t;
    stamped w t "[INFO]" "Lambda Execution Completed";
    stamped w t "[INFO]" "Total Instances Operated : 0";
    "Lambda Execution Time : " +:+ elapsed_str w 0 +:+ " seconds";
    "<--------------------LOGS ENDED------------------->" ].

Definition commit_bucket : string := "finalyzer-nonprod-lambda-ec2-start-stop-logs".

Definition commit_key (w : world) (t : nat) : string :=
  "Instance_Auto_Start_STOP_Logs/ec2_start_stop_logs_ASYNC-" +:+ ctime w t +:+ ".txt".



(** ** Instances without a 'Name' tag *)

(** What [instance_name_from_id] answers for an id: a function of the fleet. *)
Definition name_of (w : world) (id : string) : option string :=
  name_in_instances (concat (describe_by_id w id)).

(** Some machine of the fleet with this id carries a tag whose key is
    'Name'. *)
Definition has_name_tag (w : world) (id : string) : Prop :=
  exists (m : machine) (t : tag),
    In m (concat (fleet w)) /\ m_id m = id /\ In t (m_tags m) /\ Key t = "Name".

Definition none_type_error : exn :=
  MkExn TypeError
    ("can only concatenate str (not " +:+ Py.dquote +:+ "NoneType" +:+ Py.dquote
     +:+ ") to str").

Lemma instance_name_from_id_eq (w : world) (id : string) (s : state) :
  instance_name_from_id w id s
  = (Done (name_of w id), snd (record_call (DescribeInstancesById id) s)).
Proof. reflexivity. Qed.

Lemma name_in_tags_None (ts : list tag) :
  name_in_tags ts = None <-> forall t, In t ts -> Key t <> "Name".
Proof.
  induction ts as [|t rest IH]; simpl.
  - split; [intros _ t [] | reflexivity].
  - destruct (String.eqb (Key t) "Name") eqn:E.
    + apply String.eqb_eq in E. split; [discriminate|].
      intros H. exfalso. apply (H t); auto.
    + apply String.eqb_neq in E. rewrite IH. split.
      * intros H t' [<-|Hin]; auto.
      * intros H t' Hin. apply H. auto.
Qed.

Lemma name_in_instances_None (l : list instance) :
  name_in_instances l = None <-> forall i, In i l -> name_in_tags (Tags i) = None.
Proof.
  induction l as [|i rest IH]; simpl.
  - split; [intros _ i [] | reflexivity].
  - destruct (name_in_tags (Tags i)) eqn:E.
    + split; [discriminate|]. intros H. specialize (H i (or_introl eq_refl)). congruence.
    + rewrite IH. split.
      * intros H i' [<-|Hin]; auto.
      * intros H i' Hin. apply H. auto.
Qed.

Lemma In_concat_map_listed (w : world) (i : instance) :
  In i (concat (map (map listed) (fleet w))) <->
  exists m, In m (concat (fleet w)) /\ i = listed m.
Proof.
  rewrite in_concat. split.
  - intros (r & Hr & Hi). apply in_map_iff in Hr as (r0 & <- & Hr0).
    apply in_map_iff in Hi as (m & <- & Hm). exists m. split; [|reflexivity].
    apply in_concat. eauto.
  - intros (m & Hm & ->). apply in_concat in Hm as (r0 & Hr0 & Hm).
    exists (map listed r0). split; apply in_map_iff; eauto.
Qed.

Lemma name_of_None (w : world) (id : string) :
  name_of w id = None <-> ~ has_name_tag w id.
Proof.
  unfold name_of, describe_by_id, has_name_tag.
  rewrite name_in_instances_None. split.
  - intros H (m & t & Hm & Hid & Ht & Hk).
    assert (Hin : In (listed m) (concat (answer (fun i => String.eqb (InstanceId i) id)
                                           (map (map listed) (fleet w))))).
    { apply In_concat_answer. split.
      - apply In_concat_map_listed. eauto.
      - simpl. now apply String.eqb_eq. }
    specialize (H _ Hin). simpl in H.
    rewrite name_in_tags_None in H. exact (H t Ht Hk).
  - intros H i Hi. apply In_concat_answer in Hi as [Hi Hid].
    apply In_concat_map_listed in Hi as (m & Hm & ->). simpl in Hid.
    apply String.eqb_eq in Hid.
    apply name_in_tags_None. intros t Ht Hk. apply H. exists m, t. auto.
Qed.

Lemma bind_Done {A B : Type} (m : M A) (f : A -> M B) (s : state) (b : B) (s' : state) :
  (m ≫= f) s = (Done b, s') ->
  exists a s1, m s = (Done a, s1) /\ f a s1 = (Done b, s').
Proof.
  unfold mbind, M_bind. destruct (m s) as [[a|e|] s1]; intros H; try discriminate H.
  eauto.
Qed.

Lemma concat_name_Done (prefix : string) (name : option string) (s : state)
    (r : string) (s' : state) :
  concat_name prefix name s = (Done r, s') -> name <> None.
Proof. destruct name; [discriminate | intros H; discriminate H]. Qed.

(** The first statement of each branch of the phase-2 loops: look the name
    up and build the message. *)
Lemma named_message_Done {B : Type} (w : world) (top prefix : string)
    (k : string -> M B) (s : state) (b : B) (s' : state) :
  (n ← instance_name_from_id w top ; m ← concat_name prefix n ; k m) s = (Done b, s') ->
  name_of w top <> None.
Proof.
  intros H. apply bind_Done in H as (n & s1 & Hn & H).
  rewrite instance_name_from_id_eq in Hn. injection Hn as <- _.
  apply bind_Done in H as (m & s2 & Hm & _).
  eapply concat_name_Done. exact Hm.
Qed.

Lemma named_message_raises {B : Type} (w : world) (top prefix : string)
    (k : string -> M B) (s : state) :
  name_of w top = None ->
  (n ← instance_name_from_id w top ; m ← concat_name prefix n ; k m) s
  = (Raised none_type_error, snd (record_call (DescribeInstancesById top) s)).
Proof.
  intros Hn. unfold mbind, M_bind. rewrite instance_name_from_id_eq, Hn. reflexivity.
Qed.

Lemma named_message_eq {B : Type} (w : world) (top prefix nm : string)
    (k : string -> M B) (s : state) :
  name_of w top = Some nm ->
  (n ← instance_name_from_id w top ; m ← concat_name prefix n ; k m) s
  = k (prefix +:+ nm) (snd (record_call (DescribeInstancesById top) s)).
Proof.
  intros Hn. unfold mbind, M_bind. rewrite instance_name_from_id_eq, Hn. reflexivity.
Qed.

Lemma stop_phase2_raises (w : world) (fuel : nat) (listing : list reservation)
    (confirm_action : option bool) (top_confirm : bool) (cq : list bool)
    (top : string) (iq : list string) (n : nat) (s : state) :
  name_of w top = None ->
  stop_phase2 w fuel listing confirm_action (top_confirm :: cq) (top :: iq) n s
  = (Raised none_type_error, snd (record_call (DescribeInstancesById top) s)).
Proof.
  intros Hn. simpl. destruct top_confirm; simpl; apply named_message_raises; exact Hn.
Qed.

Lemma start_phase2_raises (w : world) (fuel : nat) (r : option reservation)
    (top : string) (iq : list string) (n : nat) (s : state) :
  name_of w top = None ->
  start_phase2 w fuel r (top :: iq) n s
  = (Raised none_type_error, snd (record_call (DescribeInstancesById top) s)).
Proof.
  intros Hn. simpl. apply named_message_raises; exact Hn.
Qed.

Lemma stop_phase2_Done (w : world) (fuel : nat) (listing : list reservation)
    (confirm_action : option bool) (iq : list string) :
  forall (cq : list bool) (n : nat) (s : state) (n' : nat) (s' : state),
  stop_phase2 w fuel listing confirm_action cq iq n s = (Done n', s') ->
  forall id, In id iq -> name_of w id <> None.
Proof.
  induction iq as [|top rest IH]; intros cq n s n' s' H id Hin; [destruct Hin|].
  simpl in H. destruct cq as [|c cq']; [discriminate H|].
  assert (Htop : name_of w top <> None).
  { destruct c; simpl in H; eapply named_message_Done; exact H. }
  destruct Hin as [<-|Hin]; [exact Htop|].
  destruct c; simpl in H.
  - apply bind_Done in H as (? & ? & _ & H). apply bind_Done in H as (? & ? & _ & H).
    apply bind_Done in H as (? & ? & _ & H). apply bind_Done in H as (? & ? & _ & H).
    apply bind_Done in H as (? & ? & _ & H). apply bind_Done in H as (? & ? & _ & H).
    apply bind_Done in H as (? & ? & _ & H).
    eapply IH; eassumption.
  - apply bind_Done in H as (? & ? & _ & H). apply bind_Done in H as (? & ? & _ & H).
    apply bind_Done in H as (? & ? & _ & H). apply bind_Done in H as (? & ? & _ & H).
    apply bind_Done in H as (? & ? & _ & H). apply bind_Done in H as (? & ? & _ & H).
    eapply IH; eassumption.
Qed.

Lemma start_phase2_Done (w : world) (fuel : nat) (r : option reservation)
    (iq : list string) :
  forall (n : nat) (s : state) (n' : nat) (s' : state),
  start_phase2 w fuel r iq n s = (Done n', s') ->
  forall id, In id iq -> name_of w id <> None.
Proof.
  induction iq as [|top rest IH]; intros n s n' s' H id Hin; [destruct Hin|].
  simpl in H.
  assert (Htop : name_of w top <> None) by (eapply named_message_Done; exact H).
  destruct Hin as [<-|Hin]; [exact Htop|].
  apply bind_Done in H as (? & ? & _ & H). apply bind_Done in H as (? & ? & _ & H).
  apply bind_Done in H as (? & ? & _ & H). apply bind_Done in H as (? & ? & _ & H).
  apply bind_Done in H as (? & ? & _ & H). apply bind_Done in H as (? & ? & _ & H).
  apply bind_Done in H as (? & ? & _ & H). apply bind_Done in H as (? & ? & _ & H).
  eapply IH; eassumption.
Qed.

Lemma stop_phase1_Done (w : world) (l : list instance) :
  forall (cq : list bool) (iq : list string) (s : state)
         (cq' : list bool) (iq' : list string) (s' : state),
  stop_phase1 w l cq iq s = (Done (cq', iq'), s') ->
  iq' = rev (map InstanceId l) ++ iq.
Proof.
  induction l as [|i rest IH]; intros cq iq s cq' iq' s' H; simpl in H.
  - injection H as _ <- _. reflexivity.
  - apply bind_Done in H as (c & s1 & _ & H). apply IH in H. subst iq'.
    simpl. rewrite <- app_assoc. reflexivity.
Qed.

Lemma start_phase1_Done (w : world) (l : list instance) :
  forall (iq : list string) (s : state) (iq' : list string) (s' : state),
  start_phase1 w l iq s = (Done iq', s') ->
  iq' = rev (map InstanceId l) ++ iq.
Proof.
  induction l as [|i rest IH]; intros iq s iq' s' H; simpl in H.
  - injection H as <- _. reflexivity.
  - apply bind_Done in H as (c & s1 & _ & H). apply IH in H. subst iq'.
    simpl. rewrite <- app_assoc. reflexivity.
Qed.

Lemma name_in_tags_Some (ts : list tag) (n : string) :
  name_in_tags ts = Some n -> exists t, In t ts /\ Key t = "Name".
Proof.
  induction ts as [|t rest IH]; simpl; [discriminate|].
  destruct (String.eqb (Key t) "Name") eqn:E.
  - apply String.eqb_eq in E. intros _. exists t. auto.
  - intros H. destruct (IH H) as (t' & Hin & Hk). exists t'. auto.
Qed.

Lemma name_in_instances_Some (l : list instance) (n : string) :
  name_in_instances l = Some n ->
  exists i t, In i l /\ In t (Tags i) /\ Key t = "Name".
Proof.
  induction l as [|i rest IH]; simpl; [discriminate|].
  destruct (name_in_tags (Tags i)) as [n'|] eqn:E.
  - intros _. destruct (name_in_tags_Some _ _ E) as (t & Ht & Hk). exists i, t. auto.
  - intros H. destruct (IH H) as (i' & t & Hi & Ht & Hk). exists i', t. auto.
Qed.

Lemma name_of_not_None (w : world) (id : string) :
  name_of w id <> None -> has_name_tag w id.
Proof.
  unfold name_of, describe_by_id. intros H.
  destruct (name_in_instances _) as [n|] eqn:E; [|congruence].
  apply name_in_instances_Some in E as (i & t & Hi & Ht & Hk).
  apply In_concat_answer in Hi as [Hi Hid].
  apply In_concat_map_listed in Hi as (m & Hm & ->). simpl in Hid, Ht.
  apply String.eqb_eq in Hid. exists m, t. auto.
Qed.

Lemma auto_stop_Done (w : world) (fuel : nat) (listing : list reservation)
    (n : nat) (s : state) (n' : nat) (s' : state) :
  gm_hour w = 14 ->
  auto_stop w fuel listing n s = (Done n', s') ->
  forall i, In i (concat listing) -> has_name_tag w (InstanceId i).
Proof.
  intros Hh H i Hi. unfold auto_stop in H. rewrite Hh in H. simpl in H.
  apply bind_Done in H as (? & ? & _ & H). apply bind_Done in H as (? & ? & _ & H).
  apply bind_Done in H as ([cq iq] & s1 & H1 & H).
  apply stop_phase1_Done in H1. simpl in H.
  apply name_of_not_None. eapply stop_phase2_Done; [exact H|].
  subst iq. rewrite app_nil_r. apply in_rev. rewrite rev_involutive.
  apply in_map. exact Hi.
Qed.

Lemma auto_start_Done (w : world) (fuel : nat) (listing : list reservation)
    (n : nat) (s : state) (n' : nat) (s' : state) :
  gm_hour w = 2 ->
  auto_start w fuel listing n s = (Done n', s') ->
  forall i, In i (concat listing) -> has_name_tag w (InstanceId i).
Proof.
  intros Hh H i Hi. unfold auto_start in H. rewrite Hh in H. simpl in H.
  apply bind_Done in H as (? & ? & _ & H). apply bind_Done in H as (? & ? & _ & H).
  apply bind_Done in H as (iq & s1 & H1 & H).
  apply start_phase1_Done in H1.
  apply name_of_not_None. eapply start_phase2_Done; [exact H|].
  subst iq. rewrite app_nil_r. apply in_rev. rewrite rev_involutive.
  apply in_map. exact Hi.
Qed.

(** C9. For an instance without a 'Name' tag, [instance_name_from_id]
    returns [None]; the iteration of either phase-2 loop that has this
    instance on top of the queue raises the [TypeError] of concatenating
    [None] to a string; and a run that completes has found a 'Name' tag on
    every instance it processed: every stop candidate at hour 14, every
    start candidate at hour 2. *)
Theorem nameless_instance_aborts_run (w : world) :
  (forall (id : string) (s : state),
     ~ has_name_tag w id -> fst (instance_name_from_id w id s) = Done None)
  /\ (forall (fuel : nat) (listing : list reservation) (confirm_action : option bool)
             (top_confirm : bool) (cq : list bool) (top : string) (iq : list string)
             (n : nat) (s : state),
        ~ has_name_tag w top ->
        fst (stop_phase2 w fuel listing confirm_action (top_confirm :: cq) (top :: iq)
               n s) = Raised none_type_error)
  /\ (forall (fuel : nat) (r : option reservation) (top : string) (iq : list string)
             (n : nat) (s : state),
        ~ has_name_tag w top ->
        fst (start_phase2 w fuel r (top :: iq) n s) = Raised none_type_error)
  /\ (forall (fuel : nat) (s : state) (code : nat),
        fst (lambda_handler w fuel s) = Done code ->
        (gm_hour w = 14 ->
         forall i, In i (concat (describe_filtered w (finder_filters "running"))) ->
                   has_name_tag w (InstanceId i))
        /\ (gm_hour w = 2 ->
            forall i, In i (concat (describe_filtered w (finder_filters "stopped"))) ->
                      has_name_tag w (InstanceId i))).
Proof.
  split; [|split; [|split]].
  - intros id s H. apply name_of_None in H.
    rewrite instance_name_from_id_eq, H. reflexivity.
  - intros fuel listing ca c cq top iq n s H. apply name_of_None in H.
    rewrite stop_phase2_raises by exact H. reflexivity.
  - intros fuel r top iq n s H. apply name_of_None in H.
    rewrite start_phase2_raises by exact H. reflexivity.
  - intros fuel s code H.
    destruct (lambda_handler w fuel s) as [r s'] eqn:E. simpl in H. subst r.
    unfold lambda_handler in E.
    apply bind_Done in E as (t0 & s1 & _ & E).
    apply bind_Done in E as (l1 & s2 & H1 & E).
    apply bind_Done in E as (l2 & s3 & H2 & E).
    assert (Hl1 : l1 = describe_filtered w (finder_filters "running"))
      by (injection H1 as <- _; reflexivity).
    assert (Hl2 : l2 = describe_filtered w (finder_filters "stopped"))
      by (injection H2 as <- _; reflexivity).
    apply bind_Done in E as (? & s4 & _ & E).
    apply bind_Done in E as (? & s5 & _ & E).
    apply bind_Done in E as (c1 & s6 & Hstop & E).
    apply bind_Done in E as (c2 & s7 & Hstart & _).
    subst l1 l2. split; intros Hh.
    + eapply auto_stop_Done; eassumption.
    + eapply auto_start_Done; eassumption.
Qed.

Definition nameless_fleet : list (list machine) :=
  [[MkMachine "i-1" [MkTag "CNTRL-STOP" "true"] "running" (fun _ => "stopped")]].

Lemma nameless_instance_aborts_run_witness :
  fst (instance_name_from_id (no_failures nameless_fleet 14) "i-1" initial_state)
  = Done None.
Proof.
  refine (proj1 (nameless_instance_aborts_run (no_failures nameless_fleet 14))
            "i-1" initial_state _).
  apply name_of_None. reflexivity.
Defined.

(** At hour 14 the run over that fleet stops the instance, then raises
    before any log is committed; the accumulator keeps its lines. *)
Lemma nameless_stop_candidate_run :
  let final := lambda_handler (no_failures nameless_fleet 14) 5 initial_state in
  fst final = Raised none_type_error
  /\ calls (snd final)
     = [DescribeInstancesFiltered (finder_filters "running");
        DescribeInstancesFiltered (finder_filters "stopped");
        StopInstances "i-1"; DescribeInstancesById "i-1"]
  /\ length (text_file_content (snd final)) = 4.
Proof. vm_compute. auto. Qed.

(** ** The convergence polls *)

(** The state the [k]-th state query of a run reports for an id. *)
Definition observed (w : world) (id : string) (k : nat) : string :=
  match state_in_instances id (concat (describe_all w k)) with
  | Some st => st
  | None => "Instance Not Found"
  end.


Definition count_state_queries (cs : list call) : nat :=
  length (List.filter (fun c => match c with DescribeInstancesAll => true | _ => false end)
            cs).

Lemma refresh_eq (w : world) (id : string) (s : state) :
  refresh_instance_state w id true s
  = (Done (observed w id (state_queries s)), snd (next_state_query s)).
Proof.
  unfold refresh_instance_state, observed. simpl. unfold mbind, M_bind. simpl.
  destruct (state_in_instances id _); reflexivity.
Qed.

(** Both polling loops are one loop, up to the awaited state and the text
    of the confirmation. *)
Fixpoint poll (w : world) (target label : string) (fuel : nat) (top : string) : M unit :=
  match fuel with
  | 0 => out_of_fuel
  | S fuel' =>
      sleep 1 ;;
      instance_new_state ← refresh_instance_state w top true ;
      if String.eqb instance_new_state target then
        n1 ← instance_name_from_id w top ;
        m1 ← concat_name (label +:+ top +:+ ", Name : ") n1 ;
        logger "INFO" m1 ;;
        n2 ← instance_name_from_id w top ;
        m2 ← concat_name (label +:+ top +:+ ", Name : ") n2 ;
        text_append w m2 "[INFO]"
      else poll w target label fuel' top
  end.

Lemma poll_stopped_eq (w : world) (fuel : nat) (top : string) :
  poll_stopped w fuel top = poll w "stopped" "CONFIRMED STOPPED STATE :" fuel top.
Proof. induction fuel as [|f IH]; simpl; [reflexivity|]. rewrite IH. reflexivity. Qed.

Lemma poll_running_eq (w : world) (fuel : nat) (top : string) :
  poll_running w fuel top = poll w "running" "CONFIRMED STARTED STATE :" fuel top.
Proof. induction fuel as [|f IH]; simpl; [reflexivity|]. rewrite IH. reflexivity. Qed.

(** One iteration, the query answered. *)
Lemma poll_step (w : world) (target label : string) (fuel : nat) (top : string)
    (s : state) :
  poll w target label (S fuel) top s =
  let s1 := snd (next_state_query (snd (sleep 1 s))) in
  if String.eqb (observed w top (state_queries s)) target then
    (n1 ← instance_name_from_id w top ;
     m1 ← concat_name (label +:+ top +:+ ", Name : ") n1 ;
     logger "INFO" m1 ;;
     n2 ← instance_name_from_id w top ;
     m2 ← concat_name (label +:+ top +:+ ", Name : ") n2 ;
     text_append w m2 "[INFO]") s1
  else poll w target label fuel top s1.
Proof.
  simpl. unfold mbind at 1, M_bind at 1. simpl.
  unfold mbind at 1, M_bind at 1. rewrite refresh_eq. simpl.
  destruct (String.eqb (observed w top (state_queries s)) target); reflexivity.
Qed.

Ltac reindex n :=
  match goal with
  | |- context [observed _ _ ?a] => replace a with n by (simpl; lia)
  end.



(** While no query reports the target the loop does not return. *)
Lemma poll_starves (w : world) (target label : string) (top : string) :
  forall (fuel : nat) (s : state),
  (forall j, j < fuel -> observed w top (state_queries s + j) <> target) ->
  fst (poll w target label fuel top s) = OutOfFuel.
Proof.
  induction fuel as [|fuel IH]; intros s Hnever; [reflexivity|].
  rewrite poll_step. cbv zeta.
  assert (E : String.eqb (observed w top (state_queries s)) target = false).
  { apply String.eqb_neq. rewrite <- (Nat.add_0_r (state_queries s)).
    apply Hnever. lia. }
  rewrite E. apply IH. intros j Hj.
  reindex (state_queries s + S j). apply Hnever. lia.
Qed.

(** [same_trace s s'] : only the logs may differ. *)
Definition same_trace (s s' : state) : Prop :=
  calls s' = calls s /\ state_queries s' = state_queries s /\ clock s' = clock s.

Lemma log_state_for_tag_quiet (w : world) (new_state : string) (t : tag) (s : state) :
  exists s', log_state_for_tag w new_state t s = (Done tt, s') /\ same_trace s s'.
Proof.
  unfold log_state_for_tag, text_append, same_trace.
  destruct (String.eqb (Key t) "Name"); [|run_M; eauto].
  destruct (String.eqb new_state "pending" || String.eqb new_state "stopping");
    destruct (String.eqb new_state "shutting-down"); run_M; eauto.
Qed.

Lemma log_refreshed_quiet (w : world) (i : instance) (new_state : string) (s : state) :
  exists s', log_refreshed_instance_state w i new_state s = (Done tt, s')
             /\ same_trace s s'.
Proof.
  unfold log_refreshed_instance_state. generalize (Tags i) as ts. intros ts.
  revert s. induction ts as [|t rest IH]; intros s; simpl.
  - exists s. unfold same_trace. auto.
  - destruct (log_state_for_tag_quiet w new_state t s) as (s1 & E1 & H1 & H2 & H3).
    unfold mbind, M_bind. rewrite E1.
    destruct (IH s1) as (s2 & E2 & H4 & H5 & H6).
    exists s2. split; [exact E2|]. unfold same_trace. repeat split; congruence.
Qed.









(** An instance whose stop call failed leaves the queue after two name
    lookups, without any state query. *)
Lemma denied_stop_not_polled (w : world) (fuel : nat) (listing : list reservation)
    (confirm_action : option bool) (cq : list bool) (top : string) (iq : list string)
    (n : nat) (s : state) :
  name_of w top <> None ->
  exists s1,
    calls s1 = calls s ++ [DescribeInstancesById top; DescribeInstancesById top]
    /\ state_queries s1 = state_queries s
    /\ stop_phase2 w fuel listing confirm_action (false :: cq) (top :: iq) n s
       = stop_phase2 w fuel listing confirm_action cq iq n s1.
Proof.
  intros Hname. destruct (name_of w top) as [nm|] eqn:En; [|congruence].
  cbn [stop_phase2 negb].
  rewrite (named_message_eq w top _ nm _ s En).
  unfold mbind at 1, M_bind at 1. cbn [logger].
  rewrite (named_message_eq w top _ nm _ _ En).
  unfold mbind at 1, M_bind at 1, text_append. run_M.
  eexists. split; [|split; [|reflexivity]]; simpl.
  - rewrite <- app_assoc. reflexivity.
  - reflexivity.
Qed.

Lemma has_name_tag_name_of (w : world) (id : string) :
  has_name_tag w id -> name_of w id <> None.
Proof. intros H Hn. apply name_of_None in Hn. contradiction. Qed.


(** A machine that reports the given states in turn to the state queries,
    and [last_state] from then on. *)
Definition scripted (id : string) (tags : list tag) (listed_as : string)
    (script : list string) (last_state : string) : machine :=
  MkMachine id tags listed_as (fun k => nth k script last_state).

Definition web_machine : machine :=
  scripted "i-1" [MkTag "CNTRL-STOP" "true"; MkTag "Name" "web"] "running"
    ["pending"; "pending"; "stopped"] "stopped".


(** The whole run at hour 14 over that machine: three state queries, each
    poll query one second after the previous one, and status 200. *)
Lemma scripted_stop_run :
  let final := lambda_handler (no_failures [[web_machine]] 14) 5 initial_state in
  fst final = Done 200
  /\ count_state_queries (calls (snd final)) = 3
  /\ List.filter (fun c => match c with
                           | DescribeInstancesAll | Sleep _ => true
                           | _ => false
                           end) (calls (snd final))
     = [DescribeInstancesAll; Sleep 1; DescribeInstancesAll; Sleep 1;
        DescribeInstancesAll].
Proof. vm_compute. auto. Qed.

(** A world in which every stop call is refused. *)
Definition stop_refused (fleet : list (list machine)) (hour : nat) : world :=
  MkWorld fleet
    (fun _ => Raises (MkExn ClientError "UnauthorizedOperation"))
    (fun _ => Returns tt) (fun _ _ _ => Returns tt)
    hour (fun t => "t" +:+ Py.str_nat t) (fun d => Py.str_nat d).

Definition stuck_machine : machine :=
  MkMachine "i-1" [MkTag "CNTRL-STOP" "true"; MkTag "Name" "web"] "running"
    (fun _ => "running").


(** Two effects of loop variables that outlive their loop, outside the
    amended claim.

    The guard of the stop poll reads [confirm_action] as phase 1 left it:
    when the last stop call of the pass was refused, an instance whose own
    stop call succeeded is queried once and not polled. *)
Example stale_confirm_flag_skips_poll :
  let a := MkMachine "i-1" [MkTag "CNTRL-STOP" "true"; MkTag "Name" "web"] "running"
             (fun _ => "stopping") in
  let b := MkMachine "i-2" [MkTag "CNTRL-STOP" "true"; MkTag "Name" "db"] "running"
             (fun _ => "running") in
  let w := MkWorld [[a]; [b]]
             (fun id => if String.eqb id "i-2"
                        then Raises (MkExn ClientError "UnauthorizedOperation")
                        else Returns tt)
             (fun _ => Returns tt) (fun _ _ _ => Returns tt)
             14 (fun t => "t" +:+ Py.str_nat t) (fun d => Py.str_nat d) in
  let final := lambda_handler w 5 initial_state in
  fst final = Done 200
  /\ List.filter (fun c => match c with
                           | StopInstances _ | DescribeInstancesAll | Sleep _ => true
                           | _ => false
                           end) (calls (snd final))
     = [StopInstances "i-1"; StopInstances "i-2"; DescribeInstancesAll].
Proof. vm_compute. auto. Qed.

(** The start pass looks the instance up in [reservation] as phase 1 left
    it, the last reservation of the listing: an instance of an earlier
    reservation is queried once and not polled. *)
Example earlier_reservation_not_polled :
  let a := MkMachine "i-1" [MkTag "CNTRL-START" "true"; MkTag "Name" "web"] "stopped"
             (fun _ => "pending") in
  let b := MkMachine "i-2" [MkTag "CNTRL-START" "true"; MkTag "Name" "db"] "stopped"
             (fun _ => "running") in
  let final := lambda_handler (no_failures [[a]; [b]] 2) 5 initial_state in
  fst final = Done 200
  /\ List.filter (fun c => match c with
                           | StartInstances _ | DescribeInstancesAll | Sleep _ => true
                           | _ => false
                           end) (calls (snd final))
     = [StartInstances "i-1"; StartInstances "i-2";
        DescribeInstancesAll; DescribeInstancesAll; Sleep 1; DescribeInstancesAll;
        DescribeInstancesAll].
Proof. vm_compute. auto. Qed.

(** A run that completes leaves the accumulator empty. *)
Lemma completed_run_clears (w : world) (fuel : nat) (s : state) (code : nat)
    (s' : state) :
  lambda_handler w fuel s = (Done code, s') -> text_file_content s' = [].
Proof.
  intros H. unfold lambda_handler in H.
  do 13 (apply bind_Done in H as (? & ? & _ & H)).
  apply bind_Done in H as (? & s1 & Hc & H).
  injection H as _ <-. injection Hc as _ <-. reflexivity.
Qed.

End StartStopProofs.

(** * Two runs in one process *)

Module CrossRun.
Local Open Scope list_scope.

Ltac find_in_list := repeat first [left; reflexivity | right].

(** C2 fails on the code.  The resize handler never clears [log_lines]:
    every run leaves what it found and adds to it, so that the second of two
    runs uploads the lines of the first.  The start/stop handler clears
    [text_file_content] only at the end of a run that completes: after a run
    that raised, the next run uploads the earlier lines. *)
Theorem accumulator_leaks_across_runs :
  (forall (w : Resize.world) (event : option (gmap string string))
          (aws_request_id : string) (s : Resize.state),
     exists added,
       Resize.log_lines (snd (Resize.lambda_handler w event aws_request_id s))
       = Resize.log_lines s
         ++ ("Starting EB updates. mode="
             +:+ PyText.repr_opt (default ∅ event !! "mode")) :: added)
  /\ (let run1 := Resize.lambda_handler ResizeProofs.quiet_world
                    (Some {[ "mode" := "upgrade" ]}) "req-1" Resize.initial_state in
      let run2 := Resize.lambda_handler ResizeProofs.quiet_world
                    (Some {[ "mode" := "downgrade" ]}) "req-2" (snd run1) in
      fst run1 = Returns (Resize.MkResponse 200 Resize.response_body)
      /\ exists lines,
           In "Starting EB updates. mode='upgrade'" lines
           /\ In "Starting EB updates. mode='downgrade'" lines
           /\ In (ResizeProofs.latest_upload (PyText.encode_utf8 (Py.join Py.nl lines)))
                 (Resize.calls (snd run2)))
  /\ (let w1 := StartStopProofs.no_failures StartStopProofs.nameless_fleet 14 in
      let w2 := StartStopProofs.no_failures StartStopProofs.nameless_fleet 10 in
      let run1 := StartStop.lambda_handler w1 5 StartStop.initial_state in
      let run2 := StartStop.lambda_handler w2 5 (snd run1) in
      fst run1 = StartStop.Raised StartStopProofs.none_type_error
      /\ fst run2 = StartStop.Done 200
      /\ exists lines,
           In (StartStopProofs.stamped w1 0 "[INFO]" "Auto-Stop passed Time check") lines
           /\ In (StartStop.PutObject (StartStopProofs.merged lines)
                    StartStopProofs.commit_bucket (StartStopProofs.commit_key w2 0))
                 (StartStop.calls (snd run2))).
Proof.
  split; [exact ResizeProofs.log_lines_never_cleared|]. split.
  - split; [vm_compute; reflexivity|].
    exists (Resize.log_lines
              (snd (Resize.lambda_handler ResizeProofs.quiet_world
                      (Some {[ "mode" := "upgrade" ]}) "req-1" Resize.initial_state))
            ++ ["Starting EB updates. mode='downgrade'";
                "All applicable update commands have been sent. Lambda will now exit."]).
    split; [vm_compute; find_in_list|].
    split; vm_compute; find_in_list.
  - split; [vm_compute; reflexivity|]. split; [vm_compute; reflexivity|].
    exists (StartStop.text_file_content
              (snd (StartStop.lambda_handler
                      (StartStopProofs.no_failures StartStopProofs.nameless_fleet 14)
                      5 StartStop.initial_state))
            ++ StartStopProofs.off_hours_lines
                 (StartStopProofs.no_failures StartStopProofs.nameless_fleet 10) 0).
    split; vm_compute; find_in_list.
Qed.

End CrossRun.

(** * Further properties of the resize handler *)

Module ResizeExtras.
Import Resize ResizeProofs.
Local Open Scope list_scope.

(** ** The tag mapping built by the scanner *)

Lemma build_tags_app (l1 l2 : list tag_entry) :
  forall acc, build_tags (l1 ++ l2) acc = build_tags l2 (build_tags l1 acc).
Proof.
  induction l1 as [|t rest IH]; intros acc; simpl; [reflexivity|].
  destruct (tag_Key t) as [k|]; [destruct (Py.truthy k)|]; apply IH.
Qed.

Lemma build_tags_other (k : string) (l : list tag_entry) :
  (forall t, In t l -> tag_Key t <> Some k) ->
  forall acc, build_tags l acc !! k = acc !! k.
Proof.
  induction l as [|t rest IH]; intros Hl acc; simpl; [reflexivity|].
  assert (Hrest : forall t', In t' rest -> tag_Key t' <> Some k)
    by (intros t' Ht'; apply Hl; right; exact Ht').
  destruct (tag_Key t) as [k'|] eqn:Ek; [|apply IH; exact Hrest].
  destruct (Py.truthy k'); [|apply IH; exact Hrest].
  rewrite (IH Hrest). apply lookup_insert_ne.
  intros ->. apply (Hl t); [left; reflexivity | exact Ek].
Qed.

(** X1. Looking a key up in the mapping built from the fetched tags gives
    the value of the last entry with that key; a key no entry carries is
    absent; an entry whose key is empty is never stored. *)
Theorem build_tags_last_entry_wins (k : string) :
  (forall (l1 l2 : list tag_entry) (t : tag_entry),
     tag_Key t = Some k -> k <> "" ->
     (forall t', In t' l2 -> tag_Key t' <> Some k) ->
     build_tags (l1 ++ t :: l2) ∅ !! k = Some (tag_Value t))
  /\ (forall l : list tag_entry,
        (forall t, In t l -> tag_Key t <> Some k) -> build_tags l ∅ !! k = None)
  /\ (forall l : list tag_entry, build_tags l ∅ !! "" = None).
Proof.
  split; [|split].
  - intros l1 l2 t Hk Hne Hl2. rewrite build_tags_app. simpl. rewrite Hk.
    apply truthy_nonempty in Hne. rewrite Hne.
    rewrite (build_tags_other k l2 Hl2). apply lookup_insert_eq.
  - intros l Hl. rewrite (build_tags_other k l Hl). apply lookup_empty.
  - intros l. generalize (∅ : gmap string (option string)) (lookup_empty (M:=gmap string) (A:=option string) "").
    induction l as [|t rest IH]; intros acc Hacc; simpl; [exact Hacc|].
    destruct (tag_Key t) as [k'|]; [|apply IH; exact Hacc].
    destruct (Py.truthy k') eqn:T; [|apply IH; exact Hacc].
    apply IH. rewrite lookup_insert_ne; [exact Hacc|].
    intros ->. discriminate T.
Qed.

Lemma build_tags_last_entry_wins_witness :
  build_tags ([MkTag (Some "auto-upgrade") (Some "false")]
              ++ MkTag (Some "auto-upgrade") (Some "true")
                 :: [MkTag (Some "owner") None]) ∅ !! "auto-upgrade"
  = Some (Some "true").
Proof.
  refine (proj1 (build_tags_last_entry_wins "auto-upgrade") _ _
            (MkTag (Some "auto-upgrade") (Some "true")) _ _ _).
  - reflexivity.
  - discriminate.
  - intros t' [<-|[]]. discriminate.
Defined.

(** X2. The test both the scanner and the resize operations apply to a tag:
    it holds exactly when the key is present with a string value that is
    white space, "true" in any case, white space; a missing key and a key
    whose value is [None] fail it. *)
Theorem tag_test_reads_trimmed_true (tags : gmap string (option string)) (key : string) :
  (tag_is_true tags key = true <->
   exists v, tags !! key = Some (Some v) /\ PyFacts.says_true v)
  /\ (tags !! key = None -> tag_is_true tags key = false)
  /\ (tags !! key = Some None -> tag_is_true tags key = false).
Proof.
  split; [apply tag_is_true_present|].
  unfold tag_is_true. split; intros ->; reflexivity.
Qed.

Lemma tag_test_reads_trimmed_true_witness :
  tag_is_true {[ "auto-degrade" := None ]} "auto-degrade" = false.
Proof.
  refine (proj2 (proj2 (tag_test_reads_trimmed_true
                          {[ "auto-degrade" := None ]} "auto-degrade")) _).
  reflexivity.
Defined.

(** ** The current instance type *)

Lemma first_instance_type_found (o1 o2 : list option_setting) (o : option_setting) :
  is_instance_type_option o = true ->
  (forall o', In o' o1 -> is_instance_type_option o' = false) ->
  first_instance_type (o1 ++ o :: o2) = Some (opt_Value o).
Proof.
  intros Ho. induction o1 as [|x rest IH]; intros H1; simpl.
  - rewrite Ho. reflexivity.
  - rewrite (H1 x (or_introl eq_refl)). apply IH. intros o' Ho'. apply H1. right. exact Ho'.
Qed.

Lemma first_instance_type_none (opts : list option_setting) :
  (forall o, In o opts -> is_instance_type_option o = false) ->
  first_instance_type opts = None.
Proof.
  induction opts as [|x rest IH]; intros H; simpl; [reflexivity|].
  rewrite (H x (or_introl eq_refl)). apply IH. intros o Ho. apply H. right. exact Ho.
Qed.

Lemma scan_settings_none (settings : list (list option_setting)) :
  (forall opts o, In opts settings -> In o opts -> is_instance_type_option o = false) ->
  forall cur, scan_settings settings cur = cur.
Proof.
  induction settings as [|opts rest IH]; intros H cur; simpl; [reflexivity|].
  rewrite first_instance_type_none by (intros o Ho; eapply H; [left; reflexivity | exact Ho]).
  apply IH. intros opts' o Hin Ho. eapply H; [right; exact Hin | exact Ho].
Qed.

Lemma scan_settings_app (pre post : list (list option_setting)) :
  forall cur, scan_settings (pre ++ post) cur = scan_settings post (scan_settings pre cur).
Proof.
  induction pre as [|opts rest IH]; intros cur; simpl; [reflexivity|].
  destruct (first_instance_type opts); apply IH.
Qed.

(** X3. When the configuration call answers, the current instance type is
    the value of the first launch-configuration InstanceType option of the
    last setting that has one, and it is unset when no setting has one. *)
Theorem current_type_from_last_setting (w : world) (application_name env_name : string)
    (s : state) (settings : list (list option_setting)) :
  describe_configuration_settings w application_name env_name = Returns settings ->
  (forall (pre post : list (list option_setting)) (o1 o2 : list option_setting)
          (o : option_setting),
     settings = pre ++ (o1 ++ o :: o2) :: post ->
     is_instance_type_option o = true ->
     (forall o', In o' o1 -> is_instance_type_option o' = false) ->
     (forall opts o', In opts post -> In o' opts -> is_instance_type_option o' = false) ->
     fst (fetch_current_instance_type w application_name env_name s)
     = Returns (opt_Value o))
  /\ ((forall opts o, In opts settings -> In o opts ->
                      is_instance_type_option o = false) ->
      fst (fetch_current_instance_type w application_name env_name s) = Returns None).
Proof.
  intros Hd.
  assert (Hf : fst (fetch_current_instance_type w application_name env_name s)
               = Returns (scan_settings settings None)).
  { unfold fetch_current_instance_type. run_M. rewrite Hd. reflexivity. }
  rewrite Hf. split.
  - intros pre post o1 o2 o -> Ho H1 Hpost.
    rewrite scan_settings_app. simpl.
    rewrite (first_instance_type_found o1 o2 o Ho H1).
    rewrite (scan_settings_none post Hpost). reflexivity.
  - intros Hnone. rewrite (scan_settings_none settings Hnone). reflexivity.
Qed.

Definition instance_type_option (v : string) : option_setting :=
  MkOption (Some "aws:autoscaling:launchconfiguration") (Some "InstanceType") (Some v).

Lemma current_type_from_last_setting_witness :
  let settings := [[instance_type_option "t3a.nano"];
                   [MkOption (Some "aws:elasticbeanstalk:environment")
                      (Some "EnvironmentType") (Some "SingleInstance");
                    instance_type_option "r6a.large";
                    instance_type_option "m5.large"]] in
  let w := MkWorld (fun _ => Returns []) (fun _ => Returns [])
             (fun _ _ => Returns settings) (fun _ _ _ => Returns tt)
             (fun _ _ _ => Returns tt) "2026/01/01" "00-00-00" in
  fst (fetch_current_instance_type w "app" "env-a" initial_state)
  = Returns (Some "r6a.large").
Proof.
  intros settings w.
  refine (proj1 (current_type_from_last_setting w "app" "env-a" initial_state settings _)
            [[instance_type_option "t3a.nano"]] []
            [MkOption (Some "aws:elasticbeanstalk:environment")
               (Some "EnvironmentType") (Some "SingleInstance")]
            [instance_type_option "m5.large"]
            (instance_type_option "r6a.large") _ _ _ _).
  - reflexivity.
  - reflexivity.
  - reflexivity.
  - intros o' [<-|[]]. reflexivity.
  - intros opts o' [].
Defined.

(** X4. An environment whose instance type could not be read is resized:
    when the configuration call raises an [Exception] the scanner logs it and
    leaves the type unset, and an operation whose tag test holds issues the
    update for a descriptor with an unset type. *)
Theorem unread_type_is_resized (w : world) (env : environment)
    (application_name tag_key target_type : string) (s : state) :
  (forall (env_name : string) (x : exn),
     describe_configuration_settings w application_name env_name = Raises x ->
     is_Exception x = true ->
     fst (fetch_current_instance_type w application_name env_name s) = Returns None
     /\ calls (snd (fetch_current_instance_type w application_name env_name s))
        = calls s ++ [DescribeConfigurationSettings application_name env_name])
  /\ (Py.truthy tag_key = true ->
      present_true (tags env) tag_key ->
      current_instance_type env = None ->
      calls (snd (initiate_eb_environment_upgrade w env application_name tag_key
                    target_type s))
      = calls s ++ [update_call application_name (name env) target_type]
      /\ calls (snd (initiate_eb_environment_downgrade w env application_name tag_key
                       target_type s))
         = calls s ++ [update_call application_name (name env) target_type]).
Proof.
  split.
  - intros env_name x Hd Hx. unfold fetch_current_instance_type. run_M. rewrite Hd.
    destruct (is_ClientError x); run_M; [auto|]. rewrite Hx. run_M. auto.
  - intros Hk Ht Hc.
    assert (Hg : resize_gate env tag_key target_type = true).
    { apply resize_gate_true. split; [exact Ht|]. rewrite Hc. discriminate. }
    destruct (upgrade_result_calls w env application_name tag_key target_type s)
      as [_ Hu].
    destruct (downgrade_result_calls w env application_name tag_key target_type s)
      as [_ Hd].
    unfold resize_calls in Hu, Hd. rewrite Hk, Hg in Hu, Hd. simpl in Hu, Hd. auto.
Qed.

Lemma unread_type_is_resized_witness :
  let env := MkEnv "env-a" "arn:a" {[ "auto-degrade" := Some "true" ]} None in
  calls (snd (initiate_eb_environment_downgrade quiet_world env "app" "auto-degrade"
                "t3a.nano" initial_state))
  = [update_call "app" "env-a" "t3a.nano"].
Proof.
  intros env.
  refine (proj2 (proj2 (unread_type_is_resized quiet_world env "app" "auto-degrade"
                          "t3a.nano" initial_state) _ _ _)).
  - reflexivity.
  - apply tag_is_true_present. vm_compute. reflexivity.
  - reflexivity.
Defined.

(** ** Which calls a computation adds

    [adds P s s'] : from [s] to [s'] the trace only grew, by calls that
    satisfy [P]. *)

Definition adds (P : call -> Prop) (s s' : state) : Prop :=
  exists c, calls s' = calls s ++ c /\ List.Forall P c.

Lemma adds_refl (P : call -> Prop) (s : state) : adds P s s.
Proof. exists []. split; [now rewrite app_nil_r | constructor]. Qed.

Lemma adds_trans (P : call -> Prop) (s1 s2 s3 : state) :
  adds P s1 s2 -> adds P s2 s3 -> adds P s1 s3.
Proof.
  intros (c1 & H1 & F1) (c2 & H2 & F2). exists (c1 ++ c2). split.
  - rewrite H2, H1, app_assoc. reflexivity.
  - apply List.Forall_app. auto.
Qed.

Lemma adds_same_calls (P : call -> Prop) (s s' : state) :
  calls s' = calls s -> adds P s s'.
Proof. intros H. exists []. split; [now rewrite app_nil_r | constructor]. Qed.

Lemma adds_log (P : call -> Prop) (msg : string) (s : state) :
  adds P s (snd (log msg s)).
Proof. apply adds_same_calls. reflexivity. Qed.

Lemma adds_record (P : call -> Prop) (c : call) (s : state) :
  P c -> adds P s (snd (record_call c s)).
Proof. intros Hc. exists [c]. split; [reflexivity | repeat constructor; exact Hc]. Qed.

Lemma adds_bind {A B : Type} (P : call -> Prop) (m : M A) (f : A -> M B) (s : state) :
  adds P s (snd (m s)) ->
  (forall a s1, adds P s1 (snd (f a s1))) ->
  adds P s (snd ((m ≫= f) s)).
Proof.
  intros Hm Hf. unfold mbind, M_bind.
  destruct (m s) as [[a|e] s1]; simpl in *.
  - eapply adds_trans; [exact Hm | apply Hf].
  - exact Hm.
Qed.

Lemma adds_ret {A : Type} (P : call -> Prop) (a : A) (s : state) :
  adds P s (snd ((mret a : M A) s)).
Proof. apply adds_refl. Qed.

Lemma adds_for_each {A : Type} (P : call -> Prop) (f : A -> M unit) (l : list A) :
  (forall a s, adds P s (snd (f a s))) ->
  forall s, adds P s (snd (for_each f l s)).
Proof.
  intros Hf. induction l as [|x rest IH]; intros s; simpl.
  - apply adds_refl.
  - apply adds_bind; [apply Hf | intros _ s1; apply IH].
Qed.

Lemma adds_upgrade (P : call -> Prop) (w : world) (env : environment)
    (application_name tag_key target_type : string) (s : state) :
  P (update_call application_name (name env) target_type) ->
  adds P s (snd (initiate_eb_environment_upgrade w env application_name tag_key
                   target_type s)).
Proof.
  intros HP.
  destruct (upgrade_result_calls w env application_name tag_key target_type s) as [_ Hc].
  exists (resize_calls env application_name tag_key target_type). split; [exact Hc|].
  unfold resize_calls. destruct (_ && _); repeat constructor. exact HP.
Qed.

Lemma adds_downgrade (P : call -> Prop) (w : world) (env : environment)
    (application_name tag_key target_type : string) (s : state) :
  P (update_call application_name (name env) target_type) ->
  adds P s (snd (initiate_eb_environment_downgrade w env application_name tag_key
                   target_type s)).
Proof.
  intros HP.
  destruct (downgrade_result_calls w env application_name tag_key target_type s)
    as [_ Hc].
  exists (resize_calls env application_name tag_key target_type). split; [exact Hc|].
  unfold resize_calls. destruct (_ && _); repeat constructor. exact HP.
Qed.

(** The reads of a scan of [application_name], the listing apart. *)
Definition is_scan_read (application_name : string) (c : call) : Prop :=
  (exists resource_arn, c = ListTagsForResource resource_arn)
  \/ (exists env_name, c = DescribeConfigurationSettings application_name env_name).

Lemma fetch_calls (w : world) (application_name env_name : string) (s : state) :
  calls (snd (fetch_current_instance_type w application_name env_name s))
  = calls s ++ [DescribeConfigurationSettings application_name env_name].
Proof.
  unfold fetch_current_instance_type. run_M.
  destruct (describe_configuration_settings w application_name env_name) as [l|x];
    [reflexivity|].
  destruct (is_ClientError x); [reflexivity|]. destruct (is_Exception x); reflexivity.
Qed.

Lemma adds_scan_loop (w : world) (application_name : string)
    (uk dk : option string) (envs : list env_summary) :
  forall acc s,
  adds (is_scan_read application_name) s
    (snd (scan_loop w application_name uk dk envs acc s)).
Proof.
  induction envs as [|e rest IH]; intros acc s; simpl.
  - apply adds_refl.
  - assert (H1 : adds (is_scan_read application_name) s
                   (snd (record_call (ListTagsForResource (EnvironmentArn e)) s))).
    { apply adds_record. left. eauto. }
    simpl in H1.
    destruct (list_tags_for_resource w (EnvironmentArn e)) as [rt|x]; [|exact H1].
    destruct (negb _).
    + eapply adds_trans; [exact H1 | apply IH].
    + pose proof (fetch_calls w application_name (EnvironmentName e)
                    (snd (record_call (ListTagsForResource (EnvironmentArn e)) s)))
        as H2.
      simpl in H2.
      destruct (fetch_current_instance_type w application_name (EnvironmentName e) _)
        as [[cur|x] s2]; simpl in H2.
      * eapply adds_trans; [exact H1|]. eapply adds_trans; [|apply IH].
        eexists. split; [exact H2|].
        apply List.Forall_cons; [right; eauto | constructor].
      * simpl. eapply adds_trans; [exact H1|].
        eexists. split; [exact H2|].
        apply List.Forall_cons; [right; eauto | constructor].
Qed.

Lemma find_calls (w : world) (application_name : string)
    (uk dk : option string) (s : state) :
  exists c,
    calls (snd (find_tagged_environments w application_name uk dk s))
    = calls s ++ DescribeEnvironments application_name :: c
    /\ List.Forall (is_scan_read application_name) c.
Proof.
  unfold find_tagged_environments.
  destruct (describe_environments w application_name) as [listing|x].
  - destruct (adds_scan_loop w application_name uk dk listing []
                (snd (record_call (DescribeEnvironments application_name) s)))
      as (c & Hc & Fc).
    destruct (scan_loop w application_name uk dk listing [] _) as [[r acc'] s1].
    simpl in Hc. exists c. split; [|exact Fc].
    assert (Hs1 : calls s1 = calls s ++ DescribeEnvironments application_name :: c).
    { rewrite Hc, <- app_assoc. reflexivity. }
    destruct r as [[]|x]; simpl; [exact Hs1|].
    destruct (is_ClientError x); simpl; [exact Hs1|].
    destruct (is_Exception x); simpl; exact Hs1.
  - exists []. split; [|constructor].
    destruct (is_ClientError x); simpl; [reflexivity|].
    destruct (is_Exception x); reflexivity.
Qed.

(** X5. A scan only reads: the calls it issues are the listing of the
    application's environments, first, then tag fetches and configuration
    fetches for that application; no update, no upload; and it leaves the
    attached log handlers as they were. *)
Theorem scanner_only_reads (w : world) (application_name : string)
    (uk dk : option string) (s : state) :
  let s' := snd (find_tagged_environments w application_name uk dk s) in
  (exists c,
     calls s' = calls s ++ DescribeEnvironments application_name :: c
     /\ List.Forall (is_scan_read application_name) c)
  /\ mem_handlers s' = mem_handlers s.
Proof.
  split; [apply find_calls|].
  destruct (steady_find w application_name uk dk s) as (_ & _ & H). exact H.
Qed.

(** X6. When the listing call raises an [Exception], the scanner returns
    the empty list after that one call and one log record, which names a
    client error as such. *)
Theorem listing_failure_gives_empty_scan (w : world) (application_name : string)
    (uk dk : option string) (s : state) (x : exn) :
  describe_environments w application_name = Raises x ->
  is_Exception x = true ->
  let r := find_tagged_environments w application_name uk dk s in
  fst r = Returns []
  /\ calls (snd r) = calls s ++ [DescribeEnvironments application_name]
  /\ log_lines (snd r)
     = log_lines s
       ++ replicate (mem_handlers s)
            ((if is_ClientError x
              then "AWS Client Error describing environments: "
              else "Error while trying to list environments: ") +:+ exn_msg x).
Proof.
  intros Hd Hx r. subst r. unfold find_tagged_environments. rewrite Hd.
  destruct (is_ClientError x); simpl; [auto|]. rewrite Hx. simpl. auto.
Qed.

Lemma listing_failure_gives_empty_scan_witness :
  let w := MkWorld (fun _ => Raises (MkExn ClientError "AccessDenied"))
             (fun _ => Returns []) (fun _ _ => Returns []) (fun _ _ _ => Returns tt)
             (fun _ _ _ => Returns tt) "2026/01/01" "00-00-00" in
  fst (find_tagged_environments w "app" (Some "auto-upgrade") None initial_state)
  = Returns [].
Proof.
  intros w.
  refine (proj1 (listing_failure_gives_empty_scan w "app" (Some "auto-upgrade") None
                   initial_state (MkExn ClientError "AccessDenied") _ _)).
  - reflexivity.
  - reflexivity.
Defined.

Lemma scan_loop_app (w : world) (application_name : string)
    (uk dk : option string) (pre rest : list env_summary) :
  forall acc s,
  fst (fst (scan_loop w application_name uk dk pre acc s)) = Returns tt ->
  scan_loop w application_name uk dk (pre ++ rest) acc s
  = scan_loop w application_name uk dk rest
      (snd (fst (scan_loop w application_name uk dk pre acc s)))
      (snd (scan_loop w application_name uk dk pre acc s)).
Proof.
  induction pre as [|e pre' IH]; intros acc s H; [reflexivity|].
  cbn [scan_loop app] in *.
  destruct (list_tags_for_resource w (EnvironmentArn e)) as [rt|x]; [|discriminate H].
  destruct (negb _); [apply IH; exact H|].
  destruct (fetch_current_instance_type w application_name (EnvironmentName e) _)
    as [[cur|x] s2]; [apply IH; exact H | discriminate H].
Qed.

(** X7. When the tag fetch of one listed environment raises an [Exception],
    the scan stops there: the scanner returns the descriptors of the gated
    environments listed before it, in order, and its last call is that tag
    fetch, so that no later environment is visited. *)
Theorem tag_fetch_failure_gives_partial_scan (w : world) (application_name : string)
    (uk dk : option string) (s : state)
    (pre post : list env_summary) (e : env_summary) (x : exn) :
  describe_environments w application_name = Returns (pre ++ e :: post) ->
  (forall e', In e' pre ->
     exists rt, list_tags_for_resource w (EnvironmentArn e') = Returns rt) ->
  (forall a n y, describe_configuration_settings w a n = Raises y ->
                 is_Exception y = true) ->
  list_tags_for_resource w (EnvironmentArn e) = Raises x ->
  is_Exception x = true ->
  exists envs c,
    fst (find_tagged_environments w application_name uk dk s) = Returns envs
    /\ map arn envs = map EnvironmentArn (List.filter (listed_gate w uk dk) pre)
    /\ calls (snd (find_tagged_environments w application_name uk dk s))
       = calls s ++ c ++ [ListTagsForResource (EnvironmentArn e)].
Proof.
  intros Hd Hpre Hcfg He Hx. unfold find_tagged_environments. rewrite Hd.
  set (s0 := snd (record_call (DescribeEnvironments application_name) s)).
  destruct (scan_loop_complete w application_name uk dk pre Hpre Hcfg [] s0)
    as [Hr Hm].
  destruct (adds_scan_loop w application_name uk dk pre [] s0) as (c & Hc & _).
  rewrite (scan_loop_app w application_name uk dk pre (e :: post) [] s0 Hr).
  destruct (scan_loop w application_name uk dk pre [] s0) as [[r acc'] s1].
  simpl in Hr, Hm, Hc. cbn [fst snd scan_loop]. rewrite He.
  exists acc', (DescribeEnvironments application_name :: c).
  assert (Hcalls : calls s1 ++ [ListTagsForResource (EnvironmentArn e)]
                   = calls s ++ (DescribeEnvironments application_name :: c)
                     ++ [ListTagsForResource (EnvironmentArn e)]).
  { rewrite Hc. subst s0. simpl. rewrite <- !app_assoc. reflexivity. }
  destruct (is_ClientError x); simpl; [auto|]. rewrite Hx. simpl. auto.
Qed.

Lemma tag_fetch_failure_gives_partial_scan_witness :
  let w := MkWorld
             (fun _ => Returns ([MkEnvSummary "env-a" "arn:a"]
                                ++ MkEnvSummary "env-b" "arn:b"
                                   :: [MkEnvSummary "env-c" "arn:c"]))
             (fun a => if String.eqb a "arn:a"
                       then Returns [MkTag (Some "auto-upgrade") (Some "true")]
                       else Raises (MkExn ClientError "Throttling"))
             (fun _ _ => Returns []) (fun _ _ _ => Returns tt)
             (fun _ _ _ => Returns tt) "2026/01/01" "00-00-00" in
  exists envs c,
    fst (find_tagged_environments w "app" (Some "auto-upgrade") None initial_state)
    = Returns envs
    /\ map arn envs
       = map EnvironmentArn
           (List.filter (listed_gate w (Some "auto-upgrade") None)
              [MkEnvSummary "env-a" "arn:a"])
    /\ calls (snd (find_tagged_environments w "app" (Some "auto-upgrade") None
                     initial_state))
       = calls initial_state ++ c ++ [ListTagsForResource "arn:b"].
Proof.
  intros w.
  refine (tag_fetch_failure_gives_partial_scan w "app" (Some "auto-upgrade") None
            initial_state [MkEnvSummary "env-a" "arn:a"] [MkEnvSummary "env-c" "arn:c"]
            (MkEnvSummary "env-b" "arn:b") (MkExn ClientError "Throttling") _ _ _ _ _).
  - reflexivity.
  - intros e' [<-|[]]. eexists. reflexivity.
  - intros a n y H. discriminate H.
  - reflexivity.
  - reflexivity.
Defined.

(** ** The updates a run may issue *)

(** An update call is allowed for a mode when it sets the launch
    configuration's InstanceType of an environment of the configured
    application to the upgrade type, the mode not being "downgrade", or to
    the degrade type, the mode not being "upgrade".  Other calls are not
    constrained. *)
Definition allowed (mode : option string) (c : call) : Prop :=
  match c with
  | UpdateEnvironment a _ ns on v =>
      a = APPLICATION_NAME
      /\ ns = "aws:autoscaling:launchconfiguration" /\ on = "InstanceType"
      /\ ((v = UPGRADE_INSTANCE_TYPE /\ mode <> Some "downgrade")
          \/ (v = DEGRADE_INSTANCE_TYPE /\ mode <> Some "upgrade"))
  | _ => True
  end.

Lemma adds_find_allowed (mode : option string) (w : world) (application_name : string)
    (uk dk : option string) (s : state) :
  adds (allowed mode) s (snd (find_tagged_environments w application_name uk dk s)).
Proof.
  destruct (find_calls w application_name uk dk s) as (c & Hc & Fc).
  exists (DescribeEnvironments application_name :: c). split; [exact Hc|].
  constructor; [exact I|].
  eapply List.Forall_impl; [|exact Fc].
  intros a [(r & ->)|(n & ->)]; exact I.
Qed.

Lemma adds_main_body (w : world) (mode : option string) (s : state) :
  adds (allowed mode) s (snd (main_body w mode s)).
Proof.
  unfold main_body. apply adds_bind; [|intros; apply adds_log].
  destruct (bool_decide (mode = Some "upgrade")) eqn:Eu.
  { apply bool_decide_eq_true in Eu. subst mode.
    apply adds_bind; [apply adds_find_allowed|]. intros envs s1.
    apply adds_for_each. intros env s2.
    destruct (_ && _); [|apply adds_ret].
    apply adds_bind; [|intros; apply adds_ret].
    apply adds_upgrade. simpl. repeat split. left. split; [reflexivity | discriminate]. }
  apply bool_decide_eq_false in Eu.
  destruct (bool_decide (mode = Some "downgrade")) eqn:Ed.
  { apply bool_decide_eq_true in Ed. subst mode.
    apply adds_bind; [apply adds_find_allowed|]. intros envs s1.
    apply adds_for_each. intros env s2.
    destruct (_ && _); [|apply adds_ret].
    apply adds_bind; [|intros; apply adds_ret].
    apply adds_downgrade. simpl. repeat split. right. split; [reflexivity | discriminate]. }
  apply bool_decide_eq_false in Ed.
  apply adds_bind; [apply adds_find_allowed|]. intros envs s1.
  apply adds_for_each. intros env s2. unfold process_both.
  apply adds_bind.
  - destruct (_ && _); [|apply adds_ret].
    apply adds_upgrade. simpl. repeat split. left. split; [reflexivity | exact Ed].
  - intros did s3. destruct (_ && _); [|apply adds_ret].
    apply adds_bind; [|intros; apply adds_ret].
    apply adds_downgrade. simpl. repeat split. right. split; [reflexivity | exact Eu].
Qed.

Lemma adds_upload (P : call -> Prop) (w : world) (bucket key data description : string)
    (s : state) :
  P (PutObject bucket key data) ->
  adds P s (snd (upload_logs_to_s3 w bucket key data description s)).
Proof.
  intros HP. unfold upload_logs_to_s3.
  apply adds_bind; [apply adds_record; exact HP|]. intros _ s1.
  destruct (put_object w bucket key data) as [u|e]; [apply adds_log|].
  destruct (is_ClientError e); [apply adds_log | apply adds_refl].
Qed.

Lemma adds_finally_block (P : call -> Prop) (w : world) (aws_request_id : string)
    (s : state) :
  (forall b k d, P (PutObject b k d)) ->
  adds P s (snd (finally_block w aws_request_id s)).
Proof.
  intros HP. unfold finally_block. apply adds_bind; [apply adds_refl|]. intros lines s1.
  apply adds_bind; [apply adds_upload, HP|]. intros _ s2.
  apply adds_bind; [apply adds_upload, HP|]. intros _ s3.
  apply adds_same_calls. reflexivity.
Qed.

Lemma adds_guarded (P : call -> Prop) (w : world) (aws_request_id : string)
    (body : M unit) (s : state) :
  (forall b k d, P (PutObject b k d)) ->
  adds P s (snd (body s)) -> adds P s (snd (guarded w aws_request_id body s)).
Proof.
  intros HP Hb. unfold guarded, try_finally, try_except_Exception.
  destruct (body s) as [[u|e] sb]; simpl in Hb.
  - pose proof (adds_finally_block P w aws_request_id sb HP) as Hf.
    destruct (finally_block w aws_request_id sb) as [rf sf]; simpl in Hf;
      destruct rf; simpl; eapply adds_trans; eassumption.
  - destruct (is_Exception e).
    + unfold mbind, M_bind, raise.
      set (sl := snd (log ("Something unexpected happened during execution: "
                           +:+ exn_msg e) sb)).
      change (log ("Something unexpected happened during execution: " +:+ exn_msg e) sb)
        with (Returns tt, sl).
      cbv beta iota.
      assert (Hl : adds P s sl) by (eapply adds_trans; [exact Hb | apply adds_log]).
      pose proof (adds_finally_block P w aws_request_id sl HP) as Hf.
      destruct (finally_block w aws_request_id sl) as [rf sf]; simpl in Hf;
        destruct rf; simpl; eapply adds_trans; eassumption.
    + pose proof (adds_finally_block P w aws_request_id sb HP) as Hf.
      destruct (finally_block w aws_request_id sb) as [rf sf]; simpl in Hf;
        destruct rf; simpl; eapply adds_trans; eassumption.
Qed.

(** X8. Whatever the services answer, every update a run issues sets the
    launch configuration's InstanceType of an environment of the configured
    application to r6a.large or to t3a.nano; with mode "upgrade" only to
    r6a.large, with mode "downgrade" only to t3a.nano. *)
Theorem updates_follow_the_mode (w : world) (event : option (gmap string string))
    (aws_request_id : string) (s : state) :
  exists c,
    calls (snd (lambda_handler w event aws_request_id s)) = calls s ++ c
    /\ List.Forall (allowed (default ∅ event !! "mode")) c.
Proof.
  change (snd (lambda_handler w event aws_request_id s))
    with (snd ((guarded w aws_request_id (main_body w (default ∅ event !! "mode")) ;;
                mret (MkResponse 200 response_body)) (entry_state event s))).
  assert (H : adds (allowed (default ∅ event !! "mode")) (entry_state event s)
                (snd ((guarded w aws_request_id
                         (main_body w (default ∅ event !! "mode")) ;;
                       mret (MkResponse 200 response_body)) (entry_state event s)))).
  { apply adds_bind; [|intros; apply adds_ret].
    apply adds_guarded; [intros; exact I | apply adds_main_body]. }
  exact H.
Qed.

(** ** A run with an explicit mode *)

(** The updates never fail with something that is not an [Exception]. *)
Definition updates_raise_exceptions_only (w : world) : Prop :=
  forall a n t x, update_environment w a n t = Raises x -> is_Exception x = true.

(** The environments of a list that are not at [target_type] yet. *)
Definition not_at (target_type : string) (envs : list environment) : list environment :=
  List.filter (fun e => negb (bool_decide (current_instance_type e = Some target_type)))
    envs.

Lemma resize_result_returns (w : world) (env : environment)
    (application_name tag_key target_type : string) :
  updates_raise_exceptions_only w ->
  exists b, resize_result w env application_name tag_key target_type = Returns b.
Proof.
  intros Hw. unfold resize_result.
  destruct (negb (Py.truthy tag_key)); [eauto|].
  destruct (resize_gate env tag_key target_type); [|eauto].
  destruct (update_environment w application_name (name env) target_type) as [u|x] eqn:E;
    [eauto|].
  rewrite (Hw _ _ _ _ E). eauto.
Qed.

(** A loop that applies one resize operation to every environment of a
    list, all of which pass the tag test. *)
Lemma resize_loop_calls (w : world) (op : environment -> M bool)
    (application_name tag_key target_type : string) :
  updates_raise_exceptions_only w ->
  Py.truthy tag_key = true ->
  (forall env s,
     fst (op env s) = resize_result w env application_name tag_key target_type
     /\ calls (snd (op env s))
        = calls s ++ resize_calls env application_name tag_key target_type) ->
  forall (envs : list environment) (s : state),
  List.Forall (fun e => present_true (tags e) tag_key) envs ->
  fst (for_each (fun env => op env ;; mret tt) envs s) = Returns tt
  /\ calls (snd (for_each (fun env => op env ;; mret tt) envs s))
     = calls s ++ map (fun e => update_call application_name (name e) target_type)
                    (not_at target_type envs).
Proof.
  intros Hw Hk Hop envs. set (f := fun env => op env ;; mret tt).
  induction envs as [|e rest IH]; intros s Hall.
  - simpl. rewrite app_nil_r. auto.
  - inversion Hall as [|? ? He Hrest]; subst.
    destruct (Hop e s) as [Hr Hc].
    destruct (resize_result_returns w e application_name tag_key target_type Hw)
      as (b & Hb).
    rewrite Hb in Hr.
    destruct (op e s) as [r s1] eqn:Eop. simpl in Hr, Hc. subst r.
    assert (Hfe : f e s = (Returns tt, s1)).
    { unfold f, mbind, M_bind. rewrite Eop. reflexivity. }
    assert (Hstep : for_each f (e :: rest) s = for_each f rest s1).
    { cbn [for_each]. unfold mbind at 1, M_bind at 1. rewrite Hfe. reflexivity. }
    rewrite Hstep.
    destruct (IH s1 Hrest) as [IHr IHc].
    split; [exact IHr|]. rewrite IHc, Hc. unfold resize_calls, resize_gate, not_at.
    rewrite Hk. apply tag_is_true_present in He. rewrite He. cbn [andb List.filter].
    destruct (negb (bool_decide (current_instance_type e = Some target_type)));
      simpl; rewrite <- app_assoc; reflexivity.
Qed.

Lemma scanned_for_one_key (w : world) (application_name key : string) (s : state)
    (envs : list environment) :
  (fst (find_tagged_environments w application_name (Some key) None s) = Returns envs
   \/ fst (find_tagged_environments w application_name None (Some key) s) = Returns envs) ->
  List.Forall (fun e => present_true (tags e) key) envs.
Proof.
  intros [H|H].
  - pose proof (find_tagged_environments_cases w application_name (Some key) None s) as C.
    rewrite H in C. destruct (describe_environments w application_name).
    + eapply List.Forall_impl; [|exact C].
      intros e [[(k & [= <-] & _ & Hp)|(k & [=] & _)] _]. exact Hp.
    + subst envs. constructor.
  - pose proof (find_tagged_environments_cases w application_name None (Some key) s) as C.
    rewrite H in C. destruct (describe_environments w application_name).
    + eapply List.Forall_impl; [|exact C].
      intros e [[(k & [=] & _)|(k & [= <-] & _ & Hp)] _]. exact Hp.
    + subst envs. constructor.
Qed.

(** X9. With mode "upgrade" (respectively "downgrade") the scan is made
    with that one tag key, so every scanned environment passes the tag test
    of the operation: when no update fails with more than an [Exception], the
    main body returns, and the updates it issues are exactly one per scanned
    environment that is not at the target type already, in scan order. *)
Theorem explicit_mode_updates_every_scanned (w : world) (s : state) :
  updates_raise_exceptions_only w ->
  (forall envs s1,
     find_tagged_environments w APPLICATION_NAME (Some UPGRADE_TAG_KEY) None s
     = (Returns envs, s1) ->
     fst (main_body w (Some "upgrade") s) = Returns tt
     /\ calls (snd (main_body w (Some "upgrade") s))
        = calls s1 ++ map (fun e => update_call APPLICATION_NAME (name e)
                                      UPGRADE_INSTANCE_TYPE)
                        (not_at UPGRADE_INSTANCE_TYPE envs))
  /\ (forall envs s1,
        find_tagged_environments w APPLICATION_NAME None (Some DEGRADE_TAG_KEY) s
        = (Returns envs, s1) ->
        fst (main_body w (Some "downgrade") s) = Returns tt
        /\ calls (snd (main_body w (Some "downgrade") s))
           = calls s1 ++ map (fun e => update_call APPLICATION_NAME (name e)
                                         DEGRADE_INSTANCE_TYPE)
                           (not_at DEGRADE_INSTANCE_TYPE envs)).
Proof.
  intros Hw. split; intros envs s1 Hf.
  - assert (Hall : List.Forall (fun e => present_true (tags e) UPGRADE_TAG_KEY) envs).
    { eapply scanned_for_one_key. left. rewrite Hf. reflexivity. }
    destruct (resize_loop_calls w
                (fun env => initiate_eb_environment_upgrade w env APPLICATION_NAME
                              UPGRADE_TAG_KEY UPGRADE_INSTANCE_TYPE)
                APPLICATION_NAME UPGRADE_TAG_KEY UPGRADE_INSTANCE_TYPE Hw eq_refl
                (fun env s0 => upgrade_result_calls w env _ _ _ s0) envs s1 Hall)
      as [Hr Hc].
    unfold main_body.
    rewrite bool_decide_eq_true_2 by reflexivity.
    change (Py.truthy UPGRADE_TAG_KEY && Py.truthy UPGRADE_INSTANCE_TYPE) with true.
    cbv beta iota. unfold mbind, M_bind in *. rewrite Hf.
    destruct (for_each _ envs s1) as [r s2]. simpl in Hr, Hc. subst r. simpl. auto.
  - assert (Hall : List.Forall (fun e => present_true (tags e) DEGRADE_TAG_KEY) envs).
    { eapply scanned_for_one_key. right. rewrite Hf. reflexivity. }
    destruct (resize_loop_calls w
                (fun env => initiate_eb_environment_downgrade w env APPLICATION_NAME
                              DEGRADE_TAG_KEY DEGRADE_INSTANCE_TYPE)
                APPLICATION_NAME DEGRADE_TAG_KEY DEGRADE_INSTANCE_TYPE Hw eq_refl
                (fun env s0 => downgrade_result_calls w env _ _ _ s0) envs s1 Hall)
      as [Hr Hc].
    unfold main_body.
    rewrite bool_decide_eq_false_2 by discriminate.
    rewrite bool_decide_eq_true_2 by reflexivity.
    change (Py.truthy DEGRADE_TAG_KEY && Py.truthy DEGRADE_INSTANCE_TYPE) with true.
    cbv beta iota. unfold mbind, M_bind in *. rewrite Hf.
    destruct (for_each _ envs s1) as [r s2]. simpl in Hr, Hc. subst r. simpl. auto.
Qed.

Definition two_tagged_environments : world :=
  MkWorld
    (fun _ => Returns [MkEnvSummary "env-a" "arn:a"; MkEnvSummary "env-b" "arn:b"])
    (fun _ => Returns [MkTag (Some "auto-upgrade") (Some "true")])
    (fun _ n => if String.eqb n "env-a"
                then Returns [[instance_type_option "r6a.large"]]
                else Returns [[instance_type_option "t3a.nano"]])
    (fun _ _ _ => Returns tt) (fun _ _ _ => Returns tt) "2026/01/01" "00-00-00".

Lemma two_tagged_environments_updates :
  updates_raise_exceptions_only two_tagged_environments.
Proof. intros a n t x H. discriminate H. Defined.

Lemma explicit_mode_updates_every_scanned_witness :
  List.filter (fun c => match c with UpdateEnvironment _ _ _ _ _ => true | _ => false end)
    (calls (snd (main_body two_tagged_environments (Some "upgrade") initial_state)))
  = [update_call APPLICATION_NAME "env-b" "r6a.large"].
Proof.
  destruct (proj1 (explicit_mode_updates_every_scanned two_tagged_environments
                     initial_state two_tagged_environments_updates)
              _ _ eq_refl) as [_ Hc].
  rewrite Hc. vm_compute. reflexivity.
Defined.

(** ** The in-memory log handler *)

Lemma entry_state_handlers (event : option (gmap string string)) (s : state) :
  mem_handlers (entry_state event s) = S (mem_handlers s)
  /\ calls (entry_state event s) = calls s.
Proof. split; reflexivity. Qed.

Lemma handler_after_guarded (w : world) (event : option (gmap string string))
    (aws_request_id : string) (s : state) :
  snd (lambda_handler w event aws_request_id s)
  = snd (guarded w aws_request_id (main_body w (default ∅ event !! "mode"))
           (entry_state event s))
  /\ fst (lambda_handler w event aws_request_id s)
     = match fst (guarded w aws_request_id (main_body w (default ∅ event !! "mode"))
                    (entry_state event s)) with
       | Returns _ => Returns (MkResponse 200 response_body)
       | Raises e => Raises e
       end.
Proof.
  change (lambda_handler w event aws_request_id s)
    with ((guarded w aws_request_id (main_body w (default ∅ event !! "mode")) ;;
           mret (MkResponse 200 response_body)) (entry_state event s)).
  unfold mbind, M_bind.
  destruct (guarded w aws_request_id (main_body w (default ∅ event !! "mode"))
              (entry_state event s)) as [[u|e] sg]; split; reflexivity.
Qed.

(** X10. The handler attaches its in-memory log handler when a run begins
    and detaches it in the [finally] block.  When every failure of the
    storage write is a [ClientError] the run leaves as many handlers attached
    as it found.  When the archive write fails with another exception the
    [finally] block is left before the detach: the run raises that exception
    after a single upload and leaves one more handler attached, so that the
    next run records each of its lines once more than this one did. *)
Theorem log_handler_detached_unless_upload_escapes (w : world)
    (event : option (gmap string string)) (aws_request_id : string) (s : state) :
  (uploads_contained w ->
   mem_handlers (snd (lambda_handler w event aws_request_id s)) = mem_handlers s)
  /\ (forall e : exn,
        (forall key data, put_object w S3_LOG_BUCKET key data = Raises e) ->
        is_ClientError e = false ->
        let final := lambda_handler w event aws_request_id s in
        fst final = Raises e
        /\ mem_handlers (snd final) = S (mem_handlers s)
        /\ (exists content,
              uploads (calls (snd final))
              = uploads (calls s) ++ [archive_upload w aws_request_id content])
        /\ forall msg, log_lines (snd (log msg (snd final)))
                        = log_lines (snd final) ++ replicate (S (mem_handlers s)) msg).
Proof.
  destruct (handler_after_guarded w event aws_request_id s) as [Hs Hr].
  set (mode := default ∅ event !! "mode") in *.
  set (s0 := entry_state event s) in *.
  pose proof (steady_main_body w mode s0) as Hst.
  split.
  - intros Hw.
    destruct (guarded_contained w aws_request_id (main_body w mode) s0 Hw)
      as (_ & _ & Hm).
    rewrite Hs, Hm. destruct Hst as (_ & _ & Hh). rewrite Hh. reflexivity.
  - intros e Hput He final. subst final.
    assert (Hfin : forall st,
              finally_block w aws_request_id st
              = (Raises e,
                 snd (record_call (archive_upload w aws_request_id (flushed_content st))
                        st))).
    { intros st. unfold finally_block, get_log_lines, upload_logs_to_s3.
      unfold mbind, M_bind. simpl. rewrite Hput, He. reflexivity. }
    assert (Hg : exists st,
              steady s0 st
              /\ guarded w aws_request_id (main_body w mode) s0
                 = (Raises e,
                    snd (record_call
                           (archive_upload w aws_request_id (flushed_content st)) st))).
    { unfold guarded, try_finally, try_except_Exception.
      destruct (main_body w mode s0) as [[u|x] sb]; simpl in Hst.
      - exists sb. rewrite Hfin. auto.
      - destruct (is_Exception x).
        + unfold mbind, M_bind, raise.
          set (sl := snd (log ("Something unexpected happened during execution: "
                               +:+ exn_msg x) sb)).
          change (log ("Something unexpected happened during execution: "
                       +:+ exn_msg x) sb) with (Returns tt, sl).
          cbv beta iota. exists sl. rewrite Hfin. split; [|reflexivity].
          eapply steady_trans; [exact Hst | apply steady_log].
        + exists sb. rewrite Hfin. auto. }
    destruct Hg as (st & Hsteady & Hg).
    rewrite Hg in Hs, Hr. simpl in Hs, Hr. rewrite Hs, Hr.
    destruct Hsteady as (_ & (c & Hc & Hu) & Hh).
    split; [reflexivity|]. split; [simpl; rewrite Hh; reflexivity|]. split.
    + exists (flushed_content st). simpl. rewrite Hc, !uploads_app, Hu, app_nil_r.
      reflexivity.
    + intros msg. simpl. rewrite Hh. reflexivity.
Qed.

Lemma log_handler_detached_unless_upload_escapes_witness :
  mem_handlers (snd (lambda_handler quiet_world None "req-1" initial_state)) = 0
  /\ mem_handlers (snd (lambda_handler unreachable_storage None "req-1" initial_state))
     = 1.
Proof.
  split.
  - exact (proj1 (log_handler_detached_unless_upload_escapes quiet_world None "req-1"
                    initial_state) quiet_world_contained).
  - refine (proj1 (proj2 (proj2 (log_handler_detached_unless_upload_escapes
                                   unreachable_storage None "req-1" initial_state)
                            (MkExn OtherException "Could not connect to the endpoint URL")
                            _ _))).
    + intros key data. reflexivity.
    + reflexivity.
Defined.

(** ** The scanner on a listing that answers *)

Definition mixed_tags : world :=
  MkWorld
    (fun _ => Returns [MkEnvSummary "env-a" "arn:a"; MkEnvSummary "env-b" "arn:b"])
    (fun a => if String.eqb a "arn:a"
              then Returns [MkTag (Some "auto-upgrade") (Some " TRUE ")]
              else Returns [MkTag (Some "auto-degrade") (Some "false")])
    (fun _ _ => Returns [[instance_type_option "t3a.nano"]])
    (fun _ _ _ => Returns tt) (fun _ _ _ => Returns tt) "2026/01/01" "00-00-00".

Lemma scanner_keeps_every_gated_witness :
  exists envs,
    fst (find_tagged_environments mixed_tags APPLICATION_NAME (Some "auto-upgrade")
           (Some "auto-degrade") initial_state) = Returns envs
    /\ map arn envs
       = map EnvironmentArn
           (List.filter (listed_gate mixed_tags (Some "auto-upgrade") (Some "auto-degrade"))
              [MkEnvSummary "env-a" "arn:a"; MkEnvSummary "env-b" "arn:b"]).
Proof.
  refine (scanner_keeps_every_gated mixed_tags APPLICATION_NAME (Some "auto-upgrade")
            (Some "auto-degrade") initial_state
            [MkEnvSummary "env-a" "arn:a"; MkEnvSummary "env-b" "arn:b"] _ _ _).
  - reflexivity.
  - intros e [<-|[<-|[]]]; eexists; reflexivity.
  - intros a n x H. simpl in H. discriminate H.
Defined.

(** ** A tag value padded with a no-break space

    [str.strip] removes the no-break space (0xa0), so such a value passes the
    tag test: the operation issues the update, the scanner keeps the
    environment, and without a mode the downgrade follows an upgrade that
    found the environment at its target. *)

Definition nbsp_true : string := String (ascii_of_nat 160) "true".

Definition nbsp_tagged : world :=
  MkWorld
    (fun _ => Returns [MkEnvSummary "env-a" "arn:a"])
    (fun _ => Returns [MkTag (Some "auto-upgrade") (Some nbsp_true)])
    (fun _ _ => Returns [[instance_type_option "t3a.nano"]])
    (fun _ _ _ => Returns tt) (fun _ _ _ => Returns tt) "2026/01/01" "00-00-00".

Example no_break_space_tag_passes :
  (let env := MkEnv "env-a" "arn:a" {[ "auto-upgrade" := Some nbsp_true ]}
                (Some "t3a.nano") in
   let r := initiate_eb_environment_upgrade quiet_world env "app" "auto-upgrade"
              "r6a.large" initial_state in
   fst r = Returns true /\ calls (snd r) = [update_call "app" "env-a" "r6a.large"])
  /\ fst (find_tagged_environments nbsp_tagged APPLICATION_NAME (Some "auto-upgrade")
            None initial_state)
     = Returns [MkEnv "env-a" "arn:a" {[ "auto-upgrade" := Some nbsp_true ]}
                  (Some "t3a.nano")]
  /\ (let env := MkEnv "env-a" "arn:a" {[ "auto-degrade" := Some nbsp_true ]}
                   (Some "r6a.large") in
      calls (snd (step_both quiet_world env initial_state))
      = [update_call APPLICATION_NAME "env-a" "t3a.nano"]).
Proof. vm_compute. auto. Qed.

End ResizeExtras.

(** * Further properties of the start/stop handler *)

Module StartStopExtras.
Import StartStop StartStopProofs.
Local Open Scope list_scope.

(** ** The helpers, case by case *)

(** X11. For a state other than "running" and "stopped" the finder has no
    tag key to filter on: it raises [UnboundLocalError] before any call. *)
Theorem finder_needs_running_or_stopped (w : world) (ec2_state_flag : string)
    (s : state) :
  ec2_state_flag <> "running" -> ec2_state_flag <> "stopped" ->
  exists msg,
    get_tagged_ec2_instances_by_state w ec2_state_flag s
    = (Raised (MkExn UnboundLocalError msg), s).
Proof.
  intros Hr Hs. unfold get_tagged_ec2_instances_by_state.
  apply String.eqb_neq in Hr, Hs. rewrite Hr, Hs. eexists. reflexivity.
Qed.

Lemma finder_needs_running_or_stopped_witness :
  exists msg,
    get_tagged_ec2_instances_by_state (no_failures [] 14) "terminated" initial_state
    = (Raised (MkExn UnboundLocalError msg), initial_state).
Proof.
  refine (finder_needs_running_or_stopped (no_failures [] 14) "terminated"
            initial_state _ _); discriminate.
Defined.

(** Whether the service accepts a stop, respectively a start, of an id. *)
Definition stop_accepted (w : world) (id : string) : bool :=
  match stop_instances w id with Returns _ => true | Raises _ => false end.

Definition start_accepted (w : world) (id : string) : bool :=
  match start_instances w id with Returns _ => true | Raises _ => false end.

Lemma stop_single_cases (w : world) (id : string) (s : state) :
  calls (snd (stop_single_ec2_instance w id s)) = calls s ++ [StopInstances id]
  /\ state_queries (snd (stop_single_ec2_instance w id s)) = state_queries s
  /\ clock (snd (stop_single_ec2_instance w id s)) = clock s
  /\ match stop_instances w id with
     | Returns _ =>
         fst (stop_single_ec2_instance w id s) = Done true
         /\ text_file_content (snd (stop_single_ec2_instance w id s))
            = text_file_content s
              ++ [stamped w (clock s) "[INFO]" ("ATTEMPTING STOP ON INSTANCE ID :" +:+ id)]
     | Raises e =>
         if is_Exception e then
           fst (stop_single_ec2_instance w id s) = Done false
           /\ text_file_content (snd (stop_single_ec2_instance w id s))
              = text_file_content s
                ++ [stamped w (clock s) "[ERROR]" ("ERROR STOPPING INSTANCE ID :" +:+ id);
                    stamped w (clock s) "[ERROR]"
                      ("ERROR STOPPING INSTANCE ID : " +:+ id +:+ " | Exception: "
                       +:+ exn_msg e)]
         else
           fst (stop_single_ec2_instance w id s) = Raised e
           /\ text_file_content (snd (stop_single_ec2_instance w id s))
              = text_file_content s
     end.
Proof.
  unfold stop_single_ec2_instance, text_append, stamped.
  destruct (stop_instances w id) as [[]|e]; [run_M; auto|].
  destruct (is_Exception e); run_M; [|auto].
  rewrite <- app_assoc. auto.
Qed.

Lemma start_single_cases (w : world) (id : string) (s : state) :
  calls (snd (start_single_ec2_instance w id s)) = calls s ++ [StartInstances id]
  /\ state_queries (snd (start_single_ec2_instance w id s)) = state_queries s
  /\ clock (snd (start_single_ec2_instance w id s)) = clock s
  /\ match start_instances w id with
     | Returns _ =>
         fst (start_single_ec2_instance w id s) = Done true
         /\ text_file_content (snd (start_single_ec2_instance w id s))
            = text_file_content s
              ++ [stamped w (clock s) "[INFO]"
                    ("ATTEMPTING START ON INSTANCE ID :" +:+ id)]
     | Raises e =>
         if is_Exception e then
           fst (start_single_ec2_instance w id s) = Done false
           /\ text_file_content (snd (start_single_ec2_instance w id s))
              = text_file_content s
                ++ [stamped w (clock s) "[ERROR]" ("ERROR STARTING INSTANCE ID :" +:+ id);
                    stamped w (clock s) "[ERROR]"
                      ("ERROR STARTING INSTANCE ID : " +:+ id +:+ " | Exception: "
                       +:+ exn_msg e)]
         else
           fst (start_single_ec2_instance w id s) = Raised e
           /\ text_file_content (snd (start_single_ec2_instance w id s))
              = text_file_content s
     end.
Proof.
  unfold start_single_ec2_instance, text_append, stamped.
  destruct (start_instances w id) as [[]|e]; [run_M; auto|].
  destruct (is_Exception e); run_M; [|auto].
  rewrite <- app_assoc. auto.
Qed.

Ltac call_cases :=
  repeat split; intros; try discriminate; try congruence; auto;
  try (rewrite length_app; reflexivity).

(** X12. A stop (respectively start) of one instance issues exactly one
    stop (start) call.  It returns [True] when the service accepts the call
    and records one line; when the call raises an [Exception] it returns
    [False] ([None] for a start) and records two error lines instead of
    raising; it raises only what is not an [Exception]. *)
Theorem single_call_contains_its_failure (w : world) (id : string) (s : state) :
  (calls (snd (stop_single_ec2_instance w id s)) = calls s ++ [StopInstances id]
   /\ (fst (stop_single_ec2_instance w id s) = Done true <-> stop_accepted w id = true)
   /\ (forall e, fst (stop_single_ec2_instance w id s) = Raised e ->
                 is_Exception e = false)
   /\ (forall e, stop_instances w id = Raises e -> is_Exception e = true ->
                 fst (stop_single_ec2_instance w id s) = Done false
                 /\ length (text_file_content (snd (stop_single_ec2_instance w id s)))
                    = length (text_file_content s) + 2))
  /\ (calls (snd (start_single_ec2_instance w id s)) = calls s ++ [StartInstances id]
      /\ (fst (start_single_ec2_instance w id s) = Done true
          <-> start_accepted w id = true)
      /\ (forall e, fst (start_single_ec2_instance w id s) = Raised e ->
                    is_Exception e = false)
      /\ (forall e, start_instances w id = Raises e -> is_Exception e = true ->
                    fst (start_single_ec2_instance w id s) = Done false
                    /\ length (text_file_content (snd (start_single_ec2_instance w id s)))
                       = length (text_file_content s) + 2)).
Proof.
  split.
  - destruct (stop_single_cases w id s) as (Hc & _ & _ & H).
    unfold stop_accepted. split; [exact Hc|].
    destruct (stop_instances w id) as [u|e]; [|destruct (is_Exception e) eqn:E];
      destruct H as [Hr Ht]; rewrite Hr, Ht; call_cases.
  - destruct (start_single_cases w id s) as (Hc & _ & _ & H).
    unfold start_accepted. split; [exact Hc|].
    destruct (start_instances w id) as [u|e]; [|destruct (is_Exception e) eqn:E];
      destruct H as [Hr Ht]; rewrite Hr, Ht; call_cases.
Qed.

Lemma single_call_contains_its_failure_witness :
  fst (stop_single_ec2_instance (stop_refused [] 14) "i-1" initial_state) = Done false
  /\ length (text_file_content
               (snd (stop_single_ec2_instance (stop_refused [] 14) "i-1" initial_state)))
     = length (text_file_content initial_state) + 2.
Proof.
  refine (proj2 (proj2 (proj2 (proj1
            (single_call_contains_its_failure (stop_refused [] 14) "i-1" initial_state))))
            (MkExn ClientError "UnauthorizedOperation") _ _); reflexivity.
Defined.

(** The id belongs to no machine of the fleet. *)
Definition unknown_id (w : world) (id : string) : Prop :=
  forall m, In m (concat (fleet w)) -> m_id m <> id.

Lemma state_in_instances_None (id : string) (l : list instance) :
  (forall i, In i l -> InstanceId i <> id) -> state_in_instances id l = None.
Proof.
  induction l as [|i rest IH]; intros H; simpl; [reflexivity|].
  assert (E : String.eqb (InstanceId i) id = false)
    by (apply String.eqb_neq, H; left; reflexivity).
  rewrite E. apply IH. intros i' Hi'. apply H. right. exact Hi'.
Qed.

Lemma state_in_instances_first (id : string) (l1 l2 : list instance) (i : instance) :
  InstanceId i = id ->
  (forall i', In i' l1 -> InstanceId i' <> id) ->
  state_in_instances id (l1 ++ i :: l2) = Some (State_Name i).
Proof.
  intros Hi. induction l1 as [|x rest IH]; intros H; simpl.
  - rewrite Hi, String.eqb_refl. reflexivity.
  - assert (E : String.eqb (InstanceId x) id = false)
      by (apply String.eqb_neq, H; left; reflexivity).
    rewrite E. apply IH. intros i' Hi'. apply H. right. exact Hi'.
Qed.

Lemma In_concat_describe_all (w : world) (k : nat) (i : instance) :
  In i (concat (describe_all w k)) ->
  exists m, In m (concat (fleet w)) /\ i = live k m.
Proof.
  unfold describe_all. rewrite in_concat. intros (r & Hr & Hi).
  apply in_map_iff in Hr as (r0 & <- & Hr0).
  apply in_map_iff in Hi as (m & <- & Hm). exists m. split; [|reflexivity].
  apply in_concat. eauto.
Qed.

Lemma observed_unknown (w : world) (id : string) (k : nat) :
  unknown_id w id -> observed w id k = "Instance Not Found".
Proof.
  intros Hu. unfold observed. rewrite state_in_instances_None; [reflexivity|].
  intros i Hi. apply In_concat_describe_all in Hi as (m & Hm & ->). simpl.
  apply Hu. exact Hm.
Qed.

(** X13. Re-reading an instance's state: with the confirm flag [False] no
    call is made and a fixed text is returned; otherwise one unfiltered
    listing is issued and the answer is the state of the first listed
    instance with the id, or 'Instance Not Found' when no listed instance
    has it. *)
Theorem refresh_reads_first_match (w : world) (id : string) (s : state) :
  refresh_instance_state w id false s = (Done "This instance cannot be stopped ", s)
  /\ calls (snd (refresh_instance_state w id true s)) = calls s ++ [DescribeInstancesAll]
  /\ (forall (l1 l2 : list instance) (i : instance),
        concat (describe_all w (state_queries s)) = l1 ++ i :: l2 ->
        InstanceId i = id ->
        (forall i', In i' l1 -> InstanceId i' <> id) ->
        fst (refresh_instance_state w id true s) = Done (State_Name i))
  /\ (unknown_id w id ->
      fst (refresh_instance_state w id true s) = Done "Instance Not Found").
Proof.
  split; [reflexivity|]. rewrite refresh_eq. split; [reflexivity|]. split.
  - intros l1 l2 i Hl Hi H1. simpl. unfold observed.
    rewrite Hl, (state_in_instances_first id l1 l2 i Hi H1). reflexivity.
  - intros Hu. simpl. rewrite (observed_unknown w id _ Hu). reflexivity.
Qed.

Lemma refresh_reads_first_match_witness :
  fst (refresh_instance_state (no_failures [[web_machine]] 14) "i-9" true initial_state)
  = Done "Instance Not Found".
Proof.
  refine (proj2 (proj2 (proj2 (refresh_reads_first_match
                                 (no_failures [[web_machine]] 14) "i-9"
                                 initial_state))) _).
  intros m [<-|[]]. discriminate.
Defined.

(** X14. The polls have no way out but the awaited state: for an instance
    that never reports "stopped" (respectively "running") - in particular
    one that is no longer listed, which reads as 'Instance Not Found' - the
    poll does not return, whatever the number of iterations allowed. *)
Theorem poll_never_gives_up (w : world) (id : string) :
  ((forall k, observed w id k <> "stopped") ->
   forall fuel s, fst (poll_stopped w fuel id s) = OutOfFuel)
  /\ ((forall k, observed w id k <> "running") ->
      forall fuel s, fst (poll_running w fuel id s) = OutOfFuel)
  /\ (unknown_id w id ->
      forall fuel s, fst (poll_stopped w fuel id s) = OutOfFuel
                     /\ fst (poll_running w fuel id s) = OutOfFuel).
Proof.
  assert (Hs : (forall k, observed w id k <> "stopped") ->
               forall fuel s, fst (poll_stopped w fuel id s) = OutOfFuel).
  { intros H fuel s. rewrite poll_stopped_eq. apply poll_starves. intros j _. apply H. }
  assert (Hr : (forall k, observed w id k <> "running") ->
               forall fuel s, fst (poll_running w fuel id s) = OutOfFuel).
  { intros H fuel s. rewrite poll_running_eq. apply poll_starves. intros j _. apply H. }
  split; [exact Hs|]. split; [exact Hr|].
  intros Hu fuel s. split.
  - apply Hs. intros k. rewrite (observed_unknown w id k Hu). discriminate.
  - apply Hr. intros k. rewrite (observed_unknown w id k Hu). discriminate.
Qed.

Lemma poll_never_gives_up_witness :
  fst (poll_stopped (no_failures [[web_machine]] 14) 50 "i-9" initial_state) = OutOfFuel.
Proof.
  refine (proj1 (proj2 (proj2 (poll_never_gives_up (no_failures [[web_machine]] 14)
                                 "i-9")) _ 50 initial_state)).
  intros m [<-|[]]. discriminate.
Defined.

(** X15. The state report of an instance is keyed on its 'Name' tag: for an
    instance without one nothing is logged and nothing is recorded, and no
    call is made in either case. *)
Theorem state_report_needs_name (w : world) (i : instance) (new_state : string)
    (s : state) :
  (name_in_tags (Tags i) = None ->
   log_refreshed_instance_state w i new_state s = (Done tt, s))
  /\ (exists s', log_refreshed_instance_state w i new_state s = (Done tt, s')
                 /\ calls s' = calls s /\ state_queries s' = state_queries s).
Proof.
  split.
  - unfold log_refreshed_instance_state. intros H.
    rewrite name_in_tags_None in H. revert H.
    generalize (Tags i) as ts. induction ts as [|t rest IH]; intros H; [reflexivity|].
    cbn [for_each]. unfold mbind, M_bind, log_state_for_tag.
    assert (E : String.eqb (Key t) "Name" = false)
      by (apply String.eqb_neq, H; left; reflexivity).
    rewrite E. cbn [mret M_ret]. apply IH. intros t' Ht'. apply H. right. exact Ht'.
  - destruct (log_refreshed_quiet w i new_state s) as (s' & E & Hc & Hq & _). eauto.
Qed.

Lemma state_report_needs_name_witness :
  log_refreshed_instance_state (no_failures nameless_fleet 14)
    (MkInstance "i-1" [MkTag "CNTRL-STOP" "true"] "running") "stopping" initial_state
  = (Done tt, initial_state).
Proof.
  refine (proj1 (state_report_needs_name (no_failures nameless_fleet 14)
                   (MkInstance "i-1" [MkTag "CNTRL-STOP" "true"] "running")
                   "stopping" initial_state) _).
  reflexivity.
Defined.

(** ** The two phases of a pass *)

(** No stop, respectively start, call fails with something that is not an
    [Exception]. *)
Definition stops_raise_exceptions_only (w : world) : Prop :=
  forall id e, stop_instances w id = Raises e -> is_Exception e = true.

Definition starts_raise_exceptions_only (w : world) : Prop :=
  forall id e, start_instances w id = Raises e -> is_Exception e = true.

Lemma stop_single_runs (w : world) (id : string) (s : state) :
  stops_raise_exceptions_only w ->
  exists s', stop_single_ec2_instance w id s = (Done (stop_accepted w id), s')
    /\ calls s' = calls s ++ [StopInstances id]
    /\ state_queries s' = state_queries s.
Proof.
  intros Hw. destruct (stop_single_cases w id s) as (Hc & Hq & _ & H).
  unfold stop_accepted.
  destruct (stop_single_ec2_instance w id s) as [r s']. simpl in *.
  exists s'. destruct (stop_instances w id) as [u|e] eqn:E.
  - destruct H as [-> _]. auto.
  - rewrite (Hw id e E) in H. destruct H as [-> _]. auto.
Qed.

Lemma start_single_runs (w : world) (id : string) (s : state) :
  starts_raise_exceptions_only w ->
  exists s', start_single_ec2_instance w id s = (Done (start_accepted w id), s')
    /\ calls s' = calls s ++ [StartInstances id]
    /\ state_queries s' = state_queries s.
Proof.
  intros Hw. destruct (start_single_cases w id s) as (Hc & Hq & _ & H).
  unfold start_accepted.
  destruct (start_single_ec2_instance w id s) as [r s']. simpl in *.
  exists s'. destruct (start_instances w id) as [u|e] eqn:E.
  - destruct H as [-> _]. auto.
  - rewrite (Hw id e E) in H. destruct H as [-> _]. auto.
Qed.

Lemma stop_phase1_runs (w : world) (l : list instance) :
  stops_raise_exceptions_only w ->
  forall (cq : list bool) (iq : list string) (s : state),
  exists s',
    stop_phase1 w l cq iq s
    = (Done (rev (map (fun i => stop_accepted w (InstanceId i)) l) ++ cq,
             rev (map InstanceId l) ++ iq), s')
    /\ calls s' = calls s ++ map (fun i => StopInstances (InstanceId i)) l
    /\ state_queries s' = state_queries s.
Proof.
  intros Hw. induction l as [|i rest IH]; intros cq iq s.
  - exists s. simpl. rewrite app_nil_r. auto.
  - destruct (stop_single_runs w (InstanceId i) s Hw) as (s1 & E1 & Hc1 & Hq1).
    destruct (IH (stop_accepted w (InstanceId i) :: cq) (InstanceId i :: iq) s1)
      as (s2 & E2 & Hc2 & Hq2).
    exists s2. cbn [stop_phase1]. unfold mbind at 1, M_bind at 1. rewrite E1, E2.
    split; [|split].
    + simpl. rewrite <- !app_assoc. reflexivity.
    + rewrite Hc2, Hc1. simpl. rewrite <- app_assoc. reflexivity.
    + congruence.
Qed.

Lemma start_phase1_runs (w : world) (l : list instance) :
  starts_raise_exceptions_only w ->
  forall (iq : list string) (s : state),
  exists s',
    start_phase1 w l iq s = (Done (rev (map InstanceId l) ++ iq), s')
    /\ calls s' = calls s ++ map (fun i => StartInstances (InstanceId i)) l
    /\ state_queries s' = state_queries s.
Proof.
  intros Hw. induction l as [|i rest IH]; intros iq s.
  - exists s. simpl. rewrite app_nil_r. auto.
  - destruct (start_single_runs w (InstanceId i) s Hw) as (s1 & E1 & Hc1 & Hq1).
    destruct (IH (InstanceId i :: iq) s1) as (s2 & E2 & Hc2 & Hq2).
    exists s2. cbn [start_phase1]. unfold mbind at 1, M_bind at 1. rewrite E1, E2.
    split; [|split].
    + simpl. rewrite <- !app_assoc. reflexivity.
    + rewrite Hc2, Hc1. simpl. rewrite <- app_assoc. reflexivity.
    + congruence.
Qed.

(** X16. Phase 1 of either pass handles every listed candidate exactly
    once, in listing order, and only issues the stop (start) calls: when no
    call fails with more than an [Exception] it returns the queue of all ids
    with the last listed on top, next to, for a stop, the outcome of each
    call; a refused start is queued like an accepted one. *)
Theorem phase1_handles_every_candidate_once (w : world) (l : list instance) (s : state) :
  (stops_raise_exceptions_only w ->
   exists s',
     stop_phase1 w l [] [] s
     = (Done (rev (map (fun i => stop_accepted w (InstanceId i)) l),
              rev (map InstanceId l)), s')
     /\ calls s' = calls s ++ map (fun i => StopInstances (InstanceId i)) l)
  /\ (starts_raise_exceptions_only w ->
      exists s',
        start_phase1 w l [] s = (Done (rev (map InstanceId l)), s')
        /\ calls s' = calls s ++ map (fun i => StartInstances (InstanceId i)) l).
Proof.
  split; intros Hw.
  - destruct (stop_phase1_runs w l Hw [] [] s) as (s' & E & Hc & _).
    rewrite !app_nil_r in E. eauto.
  - destruct (start_phase1_runs w l Hw [] s) as (s' & E & Hc & _).
    rewrite !app_nil_r in E. eauto.
Qed.

Lemma no_failures_stops (fleet : list (list machine)) (hour : nat) :
  stops_raise_exceptions_only (no_failures fleet hour).
Proof. intros id e H. discriminate H. Defined.

Lemma stop_refused_stops (fleet : list (list machine)) (hour : nat) :
  stops_raise_exceptions_only (stop_refused fleet hour).
Proof. intros id e [= <-]. reflexivity. Defined.

Lemma phase1_handles_every_candidate_once_witness :
  exists s',
    stop_phase1 (no_failures [[web_machine]; [stuck_machine]] 14)
      [listed web_machine; listed stuck_machine] [] [] initial_state
    = (Done ([true; true], ["i-1"; "i-1"]), s')
    /\ calls s' = [StopInstances "i-1"; StopInstances "i-1"].
Proof.
  exact (proj1 (phase1_handles_every_candidate_once
                  (no_failures [[web_machine]; [stuck_machine]] 14)
                  [listed web_machine; listed stuck_machine] initial_state)
           (no_failures_stops _ _)).
Defined.

(** The name lookups of the iterations that drop refused instances. *)
Definition denied_lookups (iq : list string) : list call :=
  concat (map (fun id => [DescribeInstancesById id; DescribeInstancesById id]) iq).

Lemma stop_phase2_all_denied (w : world) (fuel : nat) (listing : list reservation)
    (confirm_action : option bool) (iq : list string) :
  (forall id, In id iq -> has_name_tag w id) ->
  forall (n : nat) (s : state),
  exists s',
    stop_phase2 w fuel listing confirm_action (map (fun _ => false) iq) iq n s
    = (Done n, s')
    /\ calls s' = calls s ++ denied_lookups iq
    /\ state_queries s' = state_queries s.
Proof.
  induction iq as [|top rest IH]; intros Hn n s.
  - exists s. simpl. rewrite app_nil_r. auto.
  - destruct (denied_stop_not_polled w fuel listing confirm_action
                (map (fun _ => false) rest) top rest n s) as (s1 & Hc1 & Hq1 & E1).
    { apply has_name_tag_name_of, Hn. left. reflexivity. }
    destruct (IH (fun id H => Hn id (or_intror H)) n s1) as (s2 & E2 & Hc2 & Hq2).
    exists s2. cbn [map]. rewrite E1, E2. split; [reflexivity|]. split.
    + rewrite Hc2, Hc1. unfold denied_lookups. simpl. rewrite <- app_assoc. reflexivity.
    + congruence.
Qed.

(** X17. A stop pass in which the service refuses every stop call (with an
    [Exception]) polls nothing: at hour 14, the candidates all carrying a
    'Name' tag, it issues one stop call per candidate in listing order, then
    two name lookups per candidate, last listed first, and no state query;
    the count of operated instances is unchanged. *)
Theorem refused_stop_pass_polls_nothing (w : world) (fuel : nat)
    (listing : list reservation) (n : nat) (s : state) :
  gm_hour w = 14 ->
  (forall id, exists e, stop_instances w id = Raises e /\ is_Exception e = true) ->
  (forall i, In i (concat listing) -> has_name_tag w (InstanceId i)) ->
  exists s',
    auto_stop w fuel listing n s = (Done n, s')
    /\ calls s' = calls s
                  ++ map (fun i => StopInstances (InstanceId i)) (concat listing)
                  ++ denied_lookups (rev (map InstanceId (concat listing)))
    /\ state_queries s' = state_queries s.
Proof.
  intros Hh Hrefused Hnames.
  assert (Hw : stops_raise_exceptions_only w).
  { intros id e He. destruct (Hrefused id) as (e' & He' & Hx). congruence. }
  assert (Hacc : forall id, stop_accepted w id = false).
  { intros id. unfold stop_accepted. destruct (Hrefused id) as (e & -> & _). reflexivity. }
  destruct (stop_phase1_runs w (concat listing) Hw [] []
              (snd ((logger "INFO" "Auto-Stop passed Time check" ;;
                     text_append w "Auto-Stop passed Time check" "[INFO]") s)))
    as (s1 & E1 & Hc1 & Hq1).
  rewrite !app_nil_r in E1.
  assert (Hcq : rev (map (fun i => stop_accepted w (InstanceId i)) (concat listing))
                = map (fun _ => false) (rev (map InstanceId (concat listing)))).
  { rewrite <- !map_rev, map_map. apply map_ext. intros i. apply Hacc. }
  rewrite Hcq in E1.
  destruct (stop_phase2_all_denied w fuel listing
              (head (map (fun _ : string => false)
                       (rev (map InstanceId (concat listing)))))
              (rev (map InstanceId (concat listing)))) with (n := n) (s := s1)
    as (s2 & E2 & Hc2 & Hq2).
  { intros id Hid. apply in_rev in Hid. apply in_map_iff in Hid as (i & <- & Hi).
    apply Hnames. exact Hi. }
  exists s2. split; [|split].
  - unfold auto_stop. rewrite Hh. cbn [Nat.eqb].
    unfold text_append in *. unfold mbind, M_bind in *. simpl in E1. simpl.
    rewrite E1. simpl. exact E2.
  - rewrite Hc2, Hc1. simpl. rewrite <- app_assoc. reflexivity.
  - rewrite Hq2, Hq1. reflexivity.
Qed.

Lemma refused_stop_pass_polls_nothing_witness :
  exists s',
    auto_stop (stop_refused [[stuck_machine]] 14) 5 [[listed stuck_machine]] 0
      initial_state = (Done 0, s')
    /\ calls s' = calls initial_state
                  ++ map (fun i => StopInstances (InstanceId i))
                       (concat [[listed stuck_machine]])
                  ++ denied_lookups
                       (rev (map InstanceId (concat [[listed stuck_machine]])))
    /\ state_queries s' = state_queries initial_state.
Proof.
  refine (refused_stop_pass_polls_nothing (stop_refused [[stuck_machine]] 14) 5
            [[listed stuck_machine]] 0 initial_state _ _ _).
  - reflexivity.
  - intros id. eexists. split; reflexivity.
  - intros i [<-|[]]. exists stuck_machine, (MkTag "Name" "web").
    repeat split; cbv; auto.
Defined.

(** ** Loop variables read after their loop *)

(** X18. In phase 2 of a stop pass the guard of the poll is the flag left
    by phase 1, the outcome of the last stop call of the pass, not the
    outcome of the instance's own call.  Monitoring a listed instance that is
    not the one on top of the queue does nothing; for the one on top, with
    the flag [False], the state is queried once and the poll is skipped: no
    sleep, no further query, and the instance is not counted. *)
Theorem poll_guard_is_last_stop_outcome (w : world) (fuel : nat) (top : string)
    (count : nat) (i : instance) (s : state) :
  (InstanceId i <> top ->
   forall flag top_confirm,
     monitor_stop w fuel flag top top_confirm count i s = (Done count, s))
  /\ (InstanceId i = top ->
      exists s',
        monitor_stop w fuel (Some false) top true count i s = (Done count, s')
        /\ calls s' = calls s ++ [DescribeInstancesAll]
        /\ clock s' = clock s).
Proof.
  split.
  - intros Hne flag top_confirm. unfold monitor_stop.
    apply String.eqb_neq in Hne. rewrite Hne. reflexivity.
  - intros Hid. unfold monitor_stop. rewrite Hid, String.eqb_refl.
    unfold mbind at 1, M_bind at 1. rewrite refresh_eq.
    destruct (log_refreshed_quiet w i (observed w top (state_queries s))
                (snd (next_state_query s))) as (s1 & E & Hc & _ & Hk).
    unfold mbind at 1, M_bind at 1. rewrite E.
    exists s1. simpl in Hc, Hk. auto.
Qed.

Lemma poll_guard_is_last_stop_outcome_witness :
  exists s',
    monitor_stop (no_failures [[stuck_machine]] 14) 5 (Some false) "i-1" true 0
      (listed stuck_machine) initial_state = (Done 0, s')
    /\ calls s' = calls initial_state ++ [DescribeInstancesAll]
    /\ clock s' = clock initial_state.
Proof.
  exact (proj2 (poll_guard_is_last_stop_outcome (no_failures [[stuck_machine]] 14) 5
                  "i-1" 0 (listed stuck_machine) initial_state) eq_refl).
Defined.

Lemma monitor_start_unmatched (w : world) (fuel : nat) (top : string)
    (r : list instance) (s : state) :
  (forall i, In i r -> InstanceId i <> top) ->
  for_each (monitor_start w fuel top) r s = (Done tt, s).
Proof.
  induction r as [|i rest IH]; intros H; [reflexivity|].
  cbn [for_each]. unfold mbind, M_bind, monitor_start.
  assert (E : String.eqb (InstanceId i) top = false)
    by (apply String.eqb_neq, H; left; reflexivity).
  rewrite E. cbn [mret M_ret]. apply IH. intros i' Hi'. apply H. right. exact Hi'.
Qed.

(** X19. In phase 2 of a start pass an instance is looked up in the
    reservation left by phase 1, the last one of the listing.  A started
    instance that is not in that reservation is counted as operated after two
    name lookups and a single state query, without any poll. *)
Theorem start_outside_last_reservation_not_polled (w : world) (fuel : nat)
    (r : reservation) (top : string) (iq : list string) (n : nat) (s : state) :
  has_name_tag w top ->
  (forall i, In i r -> InstanceId i <> top) ->
  exists s',
    calls s' = calls s ++ [DescribeInstancesById top; DescribeInstancesById top;
                           DescribeInstancesAll]
    /\ clock s' = clock s
    /\ start_phase2 w fuel (Some r) (top :: iq) n s
       = start_phase2 w fuel (Some r) iq (S n) s'.
Proof.
  intros Hname Hr. apply has_name_tag_name_of in Hname.
  destruct (name_of w top) as [nm|] eqn:En; [|congruence].
  cbn [start_phase2].
  rewrite (named_message_eq w top _ nm _ s En).
  unfold mbind at 1, M_bind at 1. cbn [logger].
  rewrite (named_message_eq w top _ nm _ _ En).
  unfold mbind at 1, M_bind at 1, text_append. run_M.
  rewrite refresh_eq. cbv beta iota.
  rewrite (monitor_start_unmatched w fuel top r _ Hr).
  eexists. split; [|split; [|reflexivity]]; simpl.
  - rewrite <- !app_assoc. reflexivity.
  - reflexivity.
Qed.

(** Two stopped instances in two reservations: phase 1 leaves the second
    reservation, and "i-1" of the first is then on the queue below "i-2". *)
Definition first_listed : machine :=
  MkMachine "i-1" [MkTag "CNTRL-START" "true"; MkTag "Name" "web"] "stopped"
    (fun _ => "pending").

Definition second_listed : machine :=
  MkMachine "i-2" [MkTag "CNTRL-START" "true"; MkTag "Name" "db"] "stopped"
    (fun _ => "running").

Lemma start_outside_last_reservation_not_polled_witness :
  exists s',
    calls s' = calls initial_state
               ++ [DescribeInstancesById "i-1"; DescribeInstancesById "i-1";
                   DescribeInstancesAll]
    /\ clock s' = clock initial_state
    /\ start_phase2 (no_failures [[first_listed]; [second_listed]] 2) 5
         (Some [listed second_listed]) ("i-1" :: []) 1 initial_state
       = start_phase2 (no_failures [[first_listed]; [second_listed]] 2) 5
           (Some [listed second_listed]) [] 2 s'.
Proof.
  refine (start_outside_last_reservation_not_polled
            (no_failures [[first_listed]; [second_listed]] 2) 5
            [listed second_listed] "i-1" [] 1 initial_state _ _).
  - exists first_listed, (MkTag "Name" "web"). repeat split; cbv; auto.
  - intros i [<-|[]]. discriminate.
Defined.

(** ** What a run adds to the trace and to the accumulator

    [evolves P s s'] : from [s] to [s'] the trace grew by calls that satisfy
    [P], and the accumulator only grew. *)

Definition evolves (P : call -> Prop) (s s' : state) : Prop :=
  (exists c, calls s' = calls s ++ c /\ List.Forall P c)
  /\ (exists l, text_file_content s' = text_file_content s ++ l).

Section Evolves.

Variable P : call -> Prop.
Variable w : world.

Lemma evolves_refl (s : state) : evolves P s s.
Proof.
  split; exists []; [split; [now rewrite app_nil_r | constructor] | now rewrite app_nil_r].
Qed.

Lemma evolves_trans (s1 s2 s3 : state) :
  evolves P s1 s2 -> evolves P s2 s3 -> evolves P s1 s3.
Proof.
  intros [(c1 & H1 & F1) (l1 & T1)] [(c2 & H2 & F2) (l2 & T2)]. split.
  - exists (c1 ++ c2). split; [rewrite H2, H1, app_assoc; reflexivity|].
    apply List.Forall_app. auto.
  - exists (l1 ++ l2). rewrite T2, T1, app_assoc. reflexivity.
Qed.

Lemma evolves_bind {A B : Type} (m : M A) (f : A -> M B) (s : state) :
  evolves P s (snd (m s)) ->
  (forall a s1, evolves P s1 (snd (f a s1))) ->
  evolves P s (snd ((m ≫= f) s)).
Proof.
  intros Hm Hf. unfold mbind, M_bind.
  destruct (m s) as [[a|e|] s1]; simpl in *; [|exact Hm|exact Hm].
  eapply evolves_trans; [exact Hm | apply Hf].
Qed.

Lemma evolves_ret {A : Type} (a : A) (s : state) : evolves P s (snd ((mret a : M A) s)).
Proof. apply evolves_refl. Qed.

Lemma evolves_raise {A : Type} (e : exn) (s : state) : evolves P s (snd (@raise A e s)).
Proof. apply evolves_refl. Qed.

Lemma evolves_out_of_fuel {A : Type} (s : state) : evolves P s (snd (@out_of_fuel A s)).
Proof. apply evolves_refl. Qed.

Lemma evolves_get_clock (s : state) : evolves P s (snd (get_clock s)).
Proof. apply evolves_refl. Qed.

Lemma evolves_get_text (s : state) : evolves P s (snd (get_text_file_content s)).
Proof. apply evolves_refl. Qed.

Lemma evolves_logger (level msg : string) (s : state) :
  evolves P s (snd (logger level msg s)).
Proof.
  split; exists []; simpl; [split; [now rewrite app_nil_r | constructor]
                           | now rewrite app_nil_r].
Qed.

Lemma evolves_append_line (line : string) (s : state) :
  evolves P s (snd (append_line line s)).
Proof.
  split; [exists []; simpl; split; [now rewrite app_nil_r | constructor]|].
  exists [line]. reflexivity.
Qed.

Lemma evolves_record (c : call) (s : state) :
  P c -> evolves P s (snd (record_call c s)).
Proof.
  intros Hc. split; [|exists []; simpl; now rewrite app_nil_r].
  exists [c]. split; [reflexivity|]. apply List.Forall_cons; [exact Hc | constructor].
Qed.

Lemma evolves_text_append (text level : string) (s : state) :
  evolves P s (snd (text_append w text level s)).
Proof.
  unfold text_append. apply evolves_bind; [apply evolves_get_clock|].
  intros now s1. apply evolves_append_line.
Qed.

Lemma evolves_concat_name (prefix : string) (name : option string) (s : state) :
  evolves P s (snd (concat_name prefix name s)).
Proof. destruct name; apply evolves_refl. Qed.

Hypothesis P_filtered : forall f, P (DescribeInstancesFiltered f).
Hypothesis P_by_id : forall id, P (DescribeInstancesById id).
Hypothesis P_all : P DescribeInstancesAll.
Hypothesis P_sleep : forall n, P (Sleep n).

Lemma evolves_sleep (n : nat) (s : state) : evolves P s (snd (sleep n s)).
Proof.
  split; [|exists []; simpl; now rewrite app_nil_r].
  exists [Sleep n]. split; [reflexivity|].
  apply List.Forall_cons; [apply P_sleep | constructor].
Qed.

Lemma evolves_next_state_query (s : state) : evolves P s (snd (next_state_query s)).
Proof.
  split; [|exists []; simpl; now rewrite app_nil_r].
  exists [DescribeInstancesAll]. split; [reflexivity|].
  apply List.Forall_cons; [apply P_all | constructor].
Qed.

Lemma evolves_finder (flag : string) (s : state) :
  evolves P s (snd (get_tagged_ec2_instances_by_state w flag s)).
Proof.
  unfold get_tagged_ec2_instances_by_state. apply evolves_bind.
  - destruct (String.eqb flag "running"); [apply evolves_ret|].
    destruct (String.eqb flag "stopped"); [apply evolves_ret | apply evolves_raise].
  - intros key s1. apply evolves_bind; [apply evolves_record, P_filtered|].
    intros _ s2. apply evolves_ret.
Qed.

Lemma evolves_name (id : string) (s : state) :
  evolves P s (snd (instance_name_from_id w id s)).
Proof.
  unfold instance_name_from_id. apply evolves_bind; [apply evolves_record, P_by_id|].
  intros _ s1. apply evolves_ret.
Qed.

Lemma evolves_refresh (id : string) (confirm : bool) (s : state) :
  evolves P s (snd (refresh_instance_state w id confirm s)).
Proof.
  unfold refresh_instance_state. destruct (negb confirm); [apply evolves_ret|].
  apply evolves_bind; [apply evolves_next_state_query|]. intros k s1.
  destruct (state_in_instances id _); apply evolves_ret.
Qed.

Lemma evolves_for_each {A : Type} (f : A -> M unit) (l : list A) :
  (forall a s, evolves P s (snd (f a s))) ->
  forall s, evolves P s (snd (for_each f l s)).
Proof.
  intros Hf. induction l as [|x rest IH]; intros s; simpl.
  - apply evolves_refl.
  - apply evolves_bind; [apply Hf | intros _ s1; apply IH].
Qed.

Lemma evolves_for_fold {A S : Type} (f : S -> A -> M S) (l : list A) :
  (forall acc a s, evolves P s (snd (f acc a s))) ->
  forall acc s, evolves P s (snd (for_fold f acc l s)).
Proof.
  intros Hf. induction l as [|x rest IH]; intros acc s; simpl.
  - apply evolves_refl.
  - apply evolves_bind; [apply Hf | intros acc' s1; apply IH].
Qed.

Lemma evolves_log_state_for_tag (new_state : string) (t : tag) (s : state) :
  evolves P s (snd (log_state_for_tag w new_state t s)).
Proof.
  unfold log_state_for_tag. destruct (String.eqb (Key t) "Name"); [|apply evolves_ret].
  apply evolves_bind; [apply evolves_logger|]. intros _ s1.
  apply evolves_bind; [apply evolves_text_append|]. intros _ s2.
  apply evolves_bind.
  - destruct (_ || _); [|apply evolves_ret].
    apply evolves_bind; [apply evolves_logger|]. intros _ s3. apply evolves_text_append.
  - intros _ s3. destruct (String.eqb new_state "shutting-down"); [|apply evolves_ret].
    apply evolves_bind; [apply evolves_logger|]. intros _ s4. apply evolves_text_append.
Qed.

Lemma evolves_log_refreshed (i : instance) (new_state : string) (s : state) :
  evolves P s (snd (log_refreshed_instance_state w i new_state s)).
Proof.
  unfold log_refreshed_instance_state. apply evolves_for_each.
  intros t s1. apply evolves_log_state_for_tag.
Qed.

(** A name lookup, the message built on it, and what follows. *)
Lemma evolves_named {B : Type} (top prefix : string) (k : string -> M B) (s : state) :
  (forall m s1, evolves P s1 (snd (k m s1))) ->
  evolves P s
    (snd ((n ← instance_name_from_id w top ; m ← concat_name prefix n ; k m) s)).
Proof.
  intros Hk. apply evolves_bind; [apply evolves_name|]. intros n s1.
  apply evolves_bind; [apply evolves_concat_name|]. intros m s2. apply Hk.
Qed.

Lemma evolves_poll (target label : string) (top : string) :
  forall fuel s, evolves P s (snd (poll w target label fuel top s)).
Proof.
  induction fuel as [|fuel IH]; intros s; [apply evolves_out_of_fuel|].
  cbn [poll]. apply evolves_bind; [apply evolves_sleep|]. intros _ s1.
  apply evolves_bind; [apply evolves_refresh|]. intros st s2.
  destruct (String.eqb st target); [|apply IH].
  apply evolves_named. intros m1 s3.
  apply evolves_bind; [apply evolves_logger|]. intros _ s4.
  apply evolves_named. intros m2 s5. apply evolves_text_append.
Qed.

Lemma evolves_monitor_stop (fuel : nat) (flag : option bool) (top : string)
    (top_confirm : bool) (count : nat) (i : instance) (s : state) :
  evolves P s (snd (monitor_stop w fuel flag top top_confirm count i s)).
Proof.
  unfold monitor_stop. destruct (String.eqb (InstanceId i) top); [|apply evolves_ret].
  apply evolves_bind; [apply evolves_refresh|]. intros st s1.
  apply evolves_bind; [apply evolves_log_refreshed|]. intros _ s2.
  destruct flag as [[]|]; [|apply evolves_ret|apply evolves_raise].
  apply evolves_bind; [|intros; apply evolves_ret].
  rewrite poll_stopped_eq. apply evolves_poll.
Qed.

Lemma evolves_monitor_start (fuel : nat) (top : string) (i : instance) (s : state) :
  evolves P s (snd (monitor_start w fuel top i s)).
Proof.
  unfold monitor_start. destruct (String.eqb (InstanceId i) top); [|apply evolves_ret].
  apply evolves_bind; [apply evolves_refresh|]. intros st s1.
  apply evolves_bind; [apply evolves_log_refreshed|]. intros _ s2.
  rewrite poll_running_eq. apply evolves_poll.
Qed.

Lemma evolves_stop_phase2 (fuel : nat) (listing : list reservation)
    (flag : option bool) (iq : list string) :
  forall (cq : list bool) (n : nat) (s : state),
  evolves P s (snd (stop_phase2 w fuel listing flag cq iq n s)).
Proof.
  induction iq as [|top rest IH]; intros cq n s; [apply evolves_ret|].
  cbn [stop_phase2]. destruct cq as [|c cq']; [apply evolves_raise|].
  destruct (negb c).
  - apply evolves_named. intros m1 s1.
    apply evolves_bind; [apply evolves_logger|]. intros _ s2.
    apply evolves_named. intros m2 s3.
    apply evolves_bind; [apply evolves_text_append|]. intros _ s4. apply IH.
  - apply evolves_named. intros m1 s1.
    apply evolves_bind; [apply evolves_logger|]. intros _ s2.
    apply evolves_named. intros m2 s3.
    apply evolves_bind; [apply evolves_text_append|]. intros _ s4.
    apply evolves_bind; [|intros count s5; apply IH].
    apply evolves_for_fold. intros acc i s5. apply evolves_monitor_stop.
Qed.

Lemma evolves_start_phase2 (fuel : nat) (r : option reservation) (iq : list string) :
  forall (n : nat) (s : state),
  evolves P s (snd (start_phase2 w fuel r iq n s)).
Proof.
  induction iq as [|top rest IH]; intros n s; [apply evolves_ret|].
  cbn [start_phase2].
  apply evolves_named. intros m1 s1.
  apply evolves_bind; [apply evolves_logger|]. intros _ s2.
  apply evolves_named. intros m2 s3.
  apply evolves_bind; [apply evolves_text_append|]. intros _ s4.
  apply evolves_bind; [apply evolves_refresh|]. intros st s5.
  apply evolves_bind; [|intros _ s6; apply IH].
  destruct r as [r|]; [|apply evolves_raise].
  apply evolves_for_each. intros i s6. apply evolves_monitor_start.
Qed.

Lemma evolves_stop_single (id : string) (s : state) :
  P (StopInstances id) -> evolves P s (snd (stop_single_ec2_instance w id s)).
Proof.
  intros HP. unfold stop_single_ec2_instance.
  apply evolves_bind; [apply evolves_record, HP|]. intros _ s1.
  destruct (stop_instances w id) as [u|e].
  - apply evolves_bind; [apply evolves_logger|]. intros _ s2.
    apply evolves_bind; [apply evolves_text_append|]. intros _ s3. apply evolves_ret.
  - destruct (is_Exception e); [|apply evolves_raise].
    apply evolves_bind; [apply evolves_logger|]. intros _ s2.
    apply evolves_bind; [apply evolves_logger|]. intros _ s3.
    apply evolves_bind; [apply evolves_text_append|]. intros _ s4.
    apply evolves_bind; [apply evolves_text_append|]. intros _ s5. apply evolves_ret.
Qed.

Lemma evolves_start_single (id : string) (s : state) :
  P (StartInstances id) -> evolves P s (snd (start_single_ec2_instance w id s)).
Proof.
  intros HP. unfold start_single_ec2_instance.
  apply evolves_bind; [apply evolves_record, HP|]. intros _ s1.
  destruct (start_instances w id) as [u|e].
  - apply evolves_bind; [apply evolves_logger|]. intros _ s2.
    apply evolves_bind; [apply evolves_text_append|]. intros _ s3. apply evolves_ret.
  - destruct (is_Exception e); [|apply evolves_raise].
    apply evolves_bind; [apply evolves_logger|]. intros _ s2.
    apply evolves_bind; [apply evolves_logger|]. intros _ s3.
    apply evolves_bind; [apply evolves_text_append|]. intros _ s4.
    apply evolves_bind; [apply evolves_text_append|]. intros _ s5. apply evolves_ret.
Qed.

Lemma evolves_auto_stop (fuel : nat) (listing : list reservation) (n : nat) (s : state) :
  (gm_hour w = 14 -> forall id, P (StopInstances id)) ->
  evolves P s (snd (auto_stop w fuel listing n s)).
Proof.
  intros HP. unfold auto_stop. destruct (Nat.eqb (gm_hour w) 14) eqn:Eh.
  - apply Nat.eqb_eq in Eh. specialize (HP Eh).
    apply evolves_bind; [apply evolves_logger|]. intros _ s1.
    apply evolves_bind; [apply evolves_text_append|]. intros _ s2.
    apply evolves_bind; [|intros q s3; apply evolves_stop_phase2].
    generalize (@nil bool) (@nil string). generalize (concat listing) as l.
    intros l. revert s2. induction l as [|i rest IH]; intros s2 cq iq;
      [apply evolves_ret|].
    cbn [stop_phase1]. apply evolves_bind; [apply evolves_stop_single, HP|].
    intros c s3. apply IH.
  - apply evolves_bind; [apply evolves_logger|]. intros _ s1.
    apply evolves_bind; [apply evolves_text_append|]. intros _ s2. apply evolves_ret.
Qed.

Lemma evolves_auto_start (fuel : nat) (listing : list reservation) (n : nat) (s : state) :
  (gm_hour w = 2 -> forall id, P (StartInstances id)) ->
  evolves P s (snd (auto_start w fuel listing n s)).
Proof.
  intros HP. unfold auto_start. destruct (Nat.eqb (gm_hour w) 2) eqn:Eh.
  - apply Nat.eqb_eq in Eh. specialize (HP Eh).
    apply evolves_bind; [apply evolves_logger|]. intros _ s1.
    apply evolves_bind; [apply evolves_text_append|]. intros _ s2.
    apply evolves_bind; [|intros q s3; apply evolves_start_phase2].
    generalize (@nil string). generalize (concat listing) as l.
    intros l. revert s2. induction l as [|i rest IH]; intros s2 iq;
      [apply evolves_ret|].
    cbn [start_phase1].
    apply evolves_bind; [apply evolves_start_single, HP|].
    intros c s3. apply IH.
  - apply evolves_bind; [apply evolves_logger|]. intros _ s1.
    apply evolves_bind; [apply evolves_text_append|]. intros _ s2. apply evolves_ret.
Qed.

End Evolves.

(** ** The log commit *)





Lemma commit_cases (w : world) (s : state) :
  let upload := PutObject (merged (text_file_content s)) commit_bucket
                  (commit_key w (clock s)) in
  calls (snd (text_file_commit w s)) = calls s ++ [upload]
  /\ text_file_content (snd (text_file_commit w s)) = text_file_content s
  /\ fst (text_file_commit w s)
     = match put_object w (merged (text_file_content s)) commit_bucket
               (commit_key w (clock s)) with
       | Returns _ => Done tt
       | Raises e => if is_Exception e then Done tt else Raised e
       end.
Proof.
  unfold text_file_commit, merged, commit_bucket, commit_key. run_M.
  destruct (put_object w _ _ _) as [[]|e]; [auto|].
  destruct (is_Exception e); run_M; auto.
Qed.




(** ** The run as a whole *)

(** The statements of the handler before the log commit. *)
Definition before_commit (w : world) (fuel : nat) : M unit :=
  start_timestamp ← get_clock ;
  ec2_tagged_for_autostop ← get_tagged_ec2_instances_by_state w "running" ;
  ec2_tagged_for_autostart ← get_tagged_ec2_instances_by_state w "stopped" ;
  append_line "<--------------------LOGS STARTED------------------->" ;;
  text_append w "Lambda Execution Started" "[INFO]" ;;
  count1 ← auto_stop w fuel ec2_tagged_for_autostop 0 ;
  count2 ← auto_start w fuel ec2_tagged_for_autostart count1 ;
  text_append w "Lambda Execution Completed" "[INFO]" ;;
  text_append w ("Total Instances Operated : " +:+ Py.str_nat count2) "[INFO]" ;;
  stop_timestamp ← get_clock ;
  append_line ("Lambda Execution Time : "
               +:+ elapsed_str w (stop_timestamp - start_timestamp) +:+ " seconds") ;;
  append_line "<--------------------LOGS ENDED------------------->".

Lemma bind_assoc_at {A B C : Type} (m : M A) (f : A -> M B) (g : B -> M C) (s : state) :
  ((m ≫= f) ≫= g) s = (m ≫= (fun a => f a ≫= g)) s.
Proof. unfold mbind, M_bind. destruct (m s) as [[a|e|] s1]; reflexivity. Qed.

Lemma bind_ext_at {A B : Type} (m : M A) (f g : A -> M B) (s : state) :
  (forall a s1, f a s1 = g a s1) -> (m ≫= f) s = (m ≫= g) s.
Proof. intros H. unfold mbind, M_bind. destruct (m s) as [[a|e|] s1]; auto. Qed.

Lemma handler_split (w : world) (fuel : nat) (s : state) :
  lambda_handler w fuel s
  = (before_commit w fuel ≫=
     (fun _ => text_file_commit w ;; clear_text_file_content ;; mret 200)) s.
Proof.
  unfold lambda_handler, before_commit. symmetry.
  do 11 (rewrite bind_assoc_at; apply bind_ext_at; intros).
  reflexivity.
Qed.

Lemma before_commit_evolves (P : call -> Prop) (w : world) (fuel : nat) (s : state) :
  (forall f, P (DescribeInstancesFiltered f)) ->
  (forall id, P (DescribeInstancesById id)) ->
  P DescribeInstancesAll ->
  (forall n, P (Sleep n)) ->
  (gm_hour w = 14 -> forall id, P (StopInstances id)) ->
  (gm_hour w = 2 -> forall id, P (StartInstances id)) ->
  evolves P s (snd (before_commit w fuel s)).
Proof.
  intros Hf Hi Ha Hsl Hstop Hstart. unfold before_commit.
  apply evolves_bind; [apply evolves_get_clock|]. intros t0 s1.
  apply evolves_bind; [apply evolves_finder, Hf|]. intros l1 s2.
  apply evolves_bind; [apply evolves_finder, Hf|]. intros l2 s3.
  apply evolves_bind; [apply evolves_append_line|]. intros _ s4.
  apply evolves_bind; [apply evolves_text_append|]. intros _ s5.
  apply evolves_bind; [apply evolves_auto_stop; assumption|]. intros c1 s6.
  apply evolves_bind; [apply evolves_auto_start; assumption|]. intros c2 s7.
  apply evolves_bind; [apply evolves_text_append|]. intros _ s8.
  apply evolves_bind; [apply evolves_text_append|]. intros _ s9.
  apply evolves_bind; [apply evolves_get_clock|]. intros t1 s10.
  apply evolves_bind; [apply evolves_append_line|]. intros _ s11.
  apply evolves_append_line.
Qed.

(** The end of a run, from the state [sb] in which the commit starts. *)
Lemma handler_end (w : world) (fuel : nat) (s : state) :
  match before_commit w fuel s with
  | (Done _, sb) =>
      calls (snd (lambda_handler w fuel s))
      = calls sb ++ [PutObject (merged (text_file_content sb)) commit_bucket
                       (commit_key w (clock sb))]
      /\ (forall code s', lambda_handler w fuel s = (Done code, s') ->
                          code = 200 /\ text_file_content s' = [])
  | (_, sb) =>
      snd (lambda_handler w fuel s) = sb
      /\ forall code, fst (lambda_handler w fuel s) <> Done code
  end.
Proof.
  rewrite handler_split. unfold mbind, M_bind.
  destruct (before_commit w fuel s) as [[u|e|] sb].
  - destruct (commit_cases w sb) as (Hc & _ & _).
    destruct (text_file_commit w sb) as [[u'|e|] sc]; simpl in Hc; simpl.
    + split; [exact Hc|]. intros code s' Heq. inversion Heq; subst. auto.
    + split; [exact Hc|]. intros code s' [=].
    + split; [exact Hc|]. intros code s' [=].
  - split; [reflexivity | discriminate].
  - split; [reflexivity | discriminate].
Qed.

Lemma handler_adds (P : call -> Prop) (w : world) (fuel : nat) (s : state) :
  (forall f, P (DescribeInstancesFiltered f)) ->
  (forall id, P (DescribeInstancesById id)) ->
  P DescribeInstancesAll ->
  (forall n, P (Sleep n)) ->
  (forall b k d, P (PutObject b k d)) ->
  (gm_hour w = 14 -> forall id, P (StopInstances id)) ->
  (gm_hour w = 2 -> forall id, P (StartInstances id)) ->
  exists c, calls (snd (lambda_handler w fuel s)) = calls s ++ c /\ List.Forall P c.
Proof.
  intros Hf Hi Ha Hsl Hput Hstop Hstart.
  destruct (before_commit_evolves P w fuel s Hf Hi Ha Hsl Hstop Hstart)
    as [(c & Hc & Fc) _].
  pose proof (handler_end w fuel s) as He.
  destruct (before_commit w fuel s) as [[u|e|] sb]; simpl in Hc.
  - destruct He as [He _]. eexists. rewrite He, Hc, <- app_assoc. split; [reflexivity|].
    apply List.Forall_app. split; [exact Fc|].
    apply List.Forall_cons; [apply Hput | constructor].
  - destruct He as [-> _]. eauto.
  - destruct He as [-> _]. eauto.
Qed.

(** X21. The pass follows the hour: whatever the fleet, the answers of the
    services and the number of poll iterations, a run at an hour other than
    14 issues no stop call, and a run at an hour other than 2 issues no
    start call. *)
Theorem calls_follow_the_hour (w : world) (fuel : nat) (s : state) :
  (gm_hour w <> 14 ->
   exists c, calls (snd (lambda_handler w fuel s)) = calls s ++ c
             /\ forall id, ~ In (StopInstances id) c)
  /\ (gm_hour w <> 2 ->
      exists c, calls (snd (lambda_handler w fuel s)) = calls s ++ c
                /\ forall id, ~ In (StartInstances id) c).
Proof.
  split; intros Hh.
  - destruct (handler_adds (fun c => forall id, c <> StopInstances id) w fuel s)
      as (c & Hc & Fc); try (intros; discriminate); try contradiction.
    exists c. split; [exact Hc|]. intros id Hin.
    rewrite List.Forall_forall in Fc. exact (Fc _ Hin id eq_refl).
  - destruct (handler_adds (fun c => forall id, c <> StartInstances id) w fuel s)
      as (c & Hc & Fc); try (intros; discriminate); try contradiction.
    exists c. split; [exact Hc|]. intros id Hin.
    rewrite List.Forall_forall in Fc. exact (Fc _ Hin id eq_refl).
Qed.

Lemma calls_follow_the_hour_witness :
  exists c,
    calls (snd (lambda_handler (no_failures [[web_machine]] 14) 5 initial_state))
    = calls initial_state ++ c
    /\ forall id, ~ In (StartInstances id) c.
Proof.
  refine (proj2 (calls_follow_the_hour (no_failures [[web_machine]] 14) 5
                   initial_state) _).
  simpl. lia.
Defined.

Definition is_put (c : call) : Prop :=
  match c with PutObject _ _ _ => True | _ => False end.

(** X22. A run that completes returns status 200, has issued exactly one
    upload, as its last call - the accumulated lines merged, to the log
    bucket - and leaves the accumulator empty. *)
Theorem completed_run_uploads_once (w : world) (fuel : nat) (s : state)
    (code : nat) (s' : state) :
  lambda_handler w fuel s = (Done code, s') ->
  code = 200
  /\ text_file_content s' = []
  /\ exists (c : list call) (lines : list string) (key : string),
       calls s' = calls s ++ c ++ [PutObject (merged lines) commit_bucket key]
       /\ List.Forall (fun x => ~ is_put x) c
       /\ exists added, lines = text_file_content s ++ added.
Proof.
  intros H.
  assert (Hev : evolves (fun x => ~ is_put x) s (snd (before_commit w fuel s))).
  { apply before_commit_evolves; simpl; auto. }
  pose proof (handler_end w fuel s) as He.
  destruct (before_commit w fuel s) as [[u|e|] sb]; simpl in Hev.
  - destruct He as [Hc Hd]. destruct (Hd code s' H) as [-> Ht].
    split; [reflexivity|]. split; [exact Ht|].
    destruct Hev as [(c & Hcb & Fc) (added & Ha)].
    exists c, (text_file_content sb), (commit_key w (clock sb)).
    rewrite H in Hc. simpl in Hc. rewrite Hc, Hcb, <- app_assoc.
    split; [reflexivity|]. split; [exact Fc|]. eauto.
  - destruct He as [_ Hn]. rewrite H in Hn. exfalso. apply (Hn code). reflexivity.
  - destruct He as [_ Hn]. rewrite H in Hn. exfalso. apply (Hn code). reflexivity.
Qed.

Lemma completed_run_uploads_once_witness :
  text_file_content
    (snd (lambda_handler (no_failures [[web_machine]] 14) 5 initial_state)) = [].
Proof.
  refine (proj1 (proj2 (completed_run_uploads_once (no_failures [[web_machine]] 14) 5
                          initial_state 200 _ _))).
  vm_compute. reflexivity.
Defined.

Lemma text_grows_trans (s1 s2 s3 : state) :
  (exists l, text_file_content s2 = text_file_content s1 ++ l) ->
  (exists l, text_file_content s3 = text_file_content s2 ++ l) ->
  exists l, text_file_content s3 = text_file_content s1 ++ l.
Proof.
  intros (l1 & H1) (l2 & H2). exists (l1 ++ l2). rewrite H2, H1, app_assoc. reflexivity.
Qed.

Lemma before_commit_frame (w : world) (fuel : nat) (s sb : state) :
  before_commit w fuel s = (Done tt, sb) ->
  exists (middle : list string) (d : nat),
    text_file_content sb
    = text_file_content s
      ++ ["<--------------------LOGS STARTED------------------->";
          stamped w (clock s) "[INFO]" "Lambda Execution Started"]
      ++ middle
      ++ ["Lambda Execution Time : " +:+ elapsed_str w d +:+ " seconds";
          "<--------------------LOGS ENDED------------------->"].
Proof.
  intros H. unfold before_commit in H.
  apply bind_Done in H as (t0 & s1 & H1 & H). injection H1 as <- <-.
  apply bind_Done in H as (l1 & s2 & H2 & H).
  apply bind_Done in H as (l2 & s3 & H3 & H).
  assert (Ht3 : text_file_content s3 = text_file_content s /\ clock s3 = clock s).
  { injection H2 as _ <-. injection H3 as _ <-. split; reflexivity. }
  destruct Ht3 as [Ht3 Hk3].
  apply bind_Done in H as (? & s4 & H4 & H). injection H4 as _ <-.
  apply bind_Done in H as (? & s5 & H5 & H).
  unfold text_append in H5. apply bind_Done in H5 as (t5 & s5' & H5a & H5b).
  injection H5a as <- <-. injection H5b as _ <-.
  apply bind_Done in H as (c1 & s6 & H6 & H).
  apply bind_Done in H as (c2 & s7 & H7 & H).
  apply bind_Done in H as (? & s8 & H8 & H).
  apply bind_Done in H as (? & s9 & H9 & H).
  apply bind_Done in H as (t1 & s10 & H10 & H). injection H10 as <- <-.
  apply bind_Done in H as (? & s11 & H11 & H). injection H11 as _ <-.
  injection H as <-.
  assert (Hmid : exists l, text_file_content s9
                           = text_file_content
                               (snd (append_line
                                       (stamped w (clock s) "[INFO]"
                                          "Lambda Execution Started")
                                       (snd (append_line "<--------------------LOGS STARTED------------------->" s3))))
                             ++ l).
  { simpl in H6. rewrite Hk3 in H6.
    eapply text_grows_trans; [|eapply text_grows_trans; [|eapply text_grows_trans]].
    - match type of H6 with auto_stop _ _ _ _ ?s0 = _ =>
        assert (E : evolves (fun _ => True) s0 (snd (auto_stop w fuel l1 0 s0)))
          by (apply evolves_auto_stop; auto) end.
      rewrite H6 in E. exact (proj2 E).
    - assert (E : evolves (fun _ => True) s6 (snd (auto_start w fuel l2 c1 s6)))
        by (apply evolves_auto_start; auto).
      rewrite H7 in E. exact (proj2 E).
    - pose proof (evolves_text_append (fun _ => True) w
                    "Lambda Execution Completed" "[INFO]" s7) as E.
      rewrite H8 in E. exact (proj2 E).
    - pose proof (evolves_text_append (fun _ => True) w
                    ("Total Instances Operated : " +:+ Py.str_nat c2) "[INFO]" s8) as E.
      rewrite H9 in E. exact (proj2 E). }
  destruct Hmid as (middle & Hm). simpl in Hm. rewrite Ht3 in Hm.
  exists middle, (clock s9 - clock s). simpl. rewrite Hm.
  rewrite <- !app_assoc. reflexivity.
Qed.

(** X23. The log a completed run uploads is framed: it holds what the
    accumulator held when the run began, then the LOGS STARTED line and the
    stamped 'Lambda Execution Started', and it ends with the execution-time
    line followed by the LOGS ENDED line. *)
Theorem uploaded_log_is_framed (w : world) (fuel : nat) (s : state)
    (code : nat) (s' : state) :
  lambda_handler w fuel s = (Done code, s') ->
  exists (earlier : list call) (middle : list string) (d : nat) (key : string),
    calls s'
    = earlier
      ++ [PutObject
            (merged (text_file_content s
                     ++ ["<--------------------LOGS STARTED------------------->";
                         stamped w (clock s) "[INFO]" "Lambda Execution Started"]
                     ++ middle
                     ++ ["Lambda Execution Time : " +:+ elapsed_str w d +:+ " seconds";
                         "<--------------------LOGS ENDED------------------->"]))
            commit_bucket key].
Proof.
  intros H. pose proof (handler_end w fuel s) as He.
  destruct (before_commit w fuel s) as [[u|e|] sb] eqn:Eb.
  - destruct He as [Hc _]. rewrite H in Hc. simpl in Hc. destruct u.
    destruct (before_commit_frame w fuel s sb Eb) as (middle & d & Hf).
    exists (calls sb), middle, d, (commit_key w (clock sb)).
    rewrite Hc, Hf. reflexivity.
  - destruct He as [_ Hn]. rewrite H in Hn. exfalso. apply (Hn code). reflexivity.
  - destruct He as [_ Hn]. rewrite H in Hn. exfalso. apply (Hn code). reflexivity.
Qed.

Lemma uploaded_log_is_framed_witness :
  exists (earlier : list call) (middle : list string) (d : nat) (key : string),
    calls (snd (lambda_handler (no_failures [] 10) 5 initial_state))
    = earlier
      ++ [PutObject
            (merged (text_file_content initial_state
                     ++ ["<--------------------LOGS STARTED------------------->";
                         stamped (no_failures [] 10) (clock initial_state) "[INFO]"
                           "Lambda Execution Started"]
                     ++ middle
                     ++ ["Lambda Execution Time : "
                         +:+ elapsed_str (no_failures [] 10) d +:+ " seconds";
                         "<--------------------LOGS ENDED------------------->"]))
            commit_bucket key].
Proof.
  refine (uploaded_log_is_framed (no_failures [] 10) 5 initial_state 200 _ _).
  vm_compute. reflexivity.
Defined.

End StartStopExtras.
